(** * ir2hid: infrared-to-HID translation, table parser, matcher, debounce

    Shallow embedding of [src/ir2hid.c].  The C code works on one
    heap buffer that holds the whole table file, cuts it into C
    strings by writing NUL bytes in place, and passes [char*] pointers
    into that buffer around.  The embedding keeps that shape: a buffer
    is a list of characters, a pointer is an offset into it, a store is
    a list update, and a C string is what is read from an offset up to
    the first NUL. *)

From Stdlib Require Import ZArith Ascii String List Bool Lia.
From stdpp Require Import base option list.

Import ListNotations.
Local Open Scope Z_scope.

(** ** Characters and the file buffer *)

Module CStr.

Definition NUL : ascii := "000"%char.
Definition CR : ascii := "013"%char.
Definition LF : ascii := "010"%char.

Abbreviation buffer := (list ascii).

(** [buf[p]]; the buffers of the program end in a NUL and no read of
    the program passes it, so the value outside the list is never
    observed. *)
Definition load (buf : buffer) (p : nat) : ascii :=
  match buf !! p with
  | Some c => c
  | None => NUL
  end.

(** [buf[p] = c] *)
Definition store (buf : buffer) (p : nat) (c : ascii) : buffer :=
  <[p := c]> buf.

(** The characters of a list up to its first NUL. *)
Fixpoint until_nul (l : list ascii) : list ascii :=
  match l with
  | [] => []
  | c :: l' => if Ascii.eqb c NUL then [] else c :: until_nul l'
  end.

(** The C string a [const char*] at offset [p] denotes. *)
Definition cstr (buf : buffer) (p : nat) : list ascii :=
  until_nul (drop p buf).

End CStr.
Import CStr.

(** ** Hexadecimal columns *)

(** Modelled from the spec: [hex_char_to_hex_nibble] of
    [lib/toolbox/hex.h] is called by the parser and is not among the
    sources.  The table format asks for "hexadecimal digit characters",
    upper or lower case; the nibble is the digit's value and anything
    else is refused. *)
Definition hex_char_to_hex_nibble (c : ascii) : option Z :=
  let n := Z.of_N (N_of_ascii c) in
  if (48 <=? n) && (n <=? 57) then Some (n - 48)
  else if (65 <=? n) && (n <=? 70) then Some (n - 65 + 10)
  else if (97 <=? n) && (n <=? 102) then Some (n - 97 + 10)
  else None.

Definition UINT32_MOD : Z := 2 ^ 32.

(** [(value << 4) | nibble] on [uint32_t]: the shift drops the bits
    that leave the word. *)
Definition shift_in_nibble (value nibble : Z) : Z :=
  Z.lor (Z.shiftl value 4 mod UINT32_MOD) nibble.

(** [ir2hid_strip_hex_prefix]: [s[1]] is read only when [s[0]] is ['0']. *)
Definition ir2hid_strip_hex_prefix (buf : buffer) (s : nat) : nat :=
  if Ascii.eqb (load buf s) "0"%char
     && (Ascii.eqb (load buf (s + 1)) "x"%char
         || Ascii.eqb (load buf (s + 1)) "X"%char)
  then (s + 2)%nat
  else s.

(** The [while] loop of [ir2hid_parse_hex_u32], which runs until the
    character at [s] is NUL.  [fuel] bounds the
    iterations; [None] is the [return false] from inside the loop. *)
Fixpoint parse_hex_loop (fuel : nat) (buf : buffer) (s : nat)
    (value : Z) (any : bool) : option (Z * bool) :=
  match fuel with
  | O => Some (value, any)
  | S fuel' =>
      if Ascii.eqb (load buf s) NUL then Some (value, any)
      else
        match hex_char_to_hex_nibble (load buf s) with
        | None => None
        | Some nibble =>
            parse_hex_loop fuel' buf (S s) (shift_in_nibble value nibble) true
        end
  end.

(** [ir2hid_parse_hex_u32]: [Some v] is [true] with [v] stored through [out]. *)
Definition ir2hid_parse_hex_u32 (buf : buffer) (s : nat) : option Z :=
  match parse_hex_loop (S (length buf - s)) buf s 0 false with
  | None => None
  | Some (value, any) => if any then Some value else None
  end.

(** ** Collaborators outside the repository

    The infrared protocol registry ([infrared.h]), the tick conversion
    of the kernel and the two input constants the main loop compares
    with are declared in headers that are not part of the sources.
    They are taken as an interface; [InfraredProtocol] is a C enum and
    is kept as an integer. *)
Class Platform := {
  InfraredProtocolUnknown : Z;
  infrared_get_protocol_by_name : string -> Z;
  infrared_is_protocol_valid : Z -> bool;
  (** [const char*], [None] for a null pointer *)
  infrared_get_protocol_name : Z -> option string;
  furi_ms_to_ticks : Z -> Z;
  InputKeyBack : Z;
  InputTypeShort : Z
}.

(** ** Data structures *)

Record InfraredMessage := {
  protocol : Z;
  address : Z;
  command : Z;
  repeat : bool
}.

Record IR2HIDLutEntry := {
  ir : InfraredMessage;
  hid_code : Z
}.

(** An entry after [memset(lut, 0, ...)]. *)
Definition zero_entry : IR2HIDLutEntry :=
  {| ir := {| protocol := 0; address := 0; command := 0; repeat := false |};
     hid_code := 0 |}.

(** ** One table row *)

Definition MaxColumns : nat := 4.

(** The locals of [ir2hid_parse_lut_line] that its column loop
    changes; [cols] starts as four null pointers. *)
Record split_state := {
  sp_buf : buffer;
  sp_cols : list (option nat);
  sp_col_index : nat;
  sp_p : nat
}.

Definition split_step (st : split_state) : split_state :=
  let p := sp_p st in
  if Ascii.eqb (load (sp_buf st) p) ","%char then
    let col_index := S (sp_col_index st) in
    {| sp_buf := store (sp_buf st) p NUL;
       sp_col_index := col_index;
       sp_cols := if (col_index <? MaxColumns)%nat
                  then <[col_index := Some (S p)]> (sp_cols st)
                  else sp_cols st;
       sp_p := S p |}
  else
    {| sp_buf := sp_buf st;
       sp_cols := sp_cols st;
       sp_col_index := sp_col_index st;
       sp_p := S p |}.

Definition split_cond (st : split_state) : bool :=
  negb (Ascii.eqb (load (sp_buf st) (sp_p st)) NUL)
  && (sp_col_index st <? MaxColumns)%nat.

Fixpoint split_loop (fuel : nat) (st : split_state) : split_state :=
  match fuel with
  | O => st
  | S fuel' => if split_cond st then split_loop fuel' (split_step st) else st
  end.

Definition split_init (buf : buffer) (line : nat) : split_state :=
  {| sp_buf := buf;
     sp_cols := <[0%nat := Some line]> [None; None; None; None];
     sp_col_index := 0;
     sp_p := line |}.

(** [cols[k]] *)
Definition col (st : split_state) (k : nat) : option nat :=
  match sp_cols st !! k with
  | Some c => c
  | None => None
  end.

Section WithPlatform.
Context `{Platform}.

(** What [ir2hid_parse_lut_line] does after the column loop, on the
    buffer the loop left. *)
Definition parse_columns (st : split_state) : option IR2HIDLutEntry :=
  if (sp_col_index st <? MaxColumns - 1)%nat then None
  else
    match col st 0, col st 1, col st 2, col st 3 with
    | Some proto_str, Some addr_str, Some cmd_str, Some hid_str =>
        let buf := sp_buf st in
        let proto :=
          infrared_get_protocol_by_name
            (string_of_list_ascii (cstr buf proto_str)) in
        if negb (infrared_is_protocol_valid proto) then None
        else
          let addr_str := ir2hid_strip_hex_prefix buf addr_str in
          let cmd_str := ir2hid_strip_hex_prefix buf cmd_str in
          let hid_str := ir2hid_strip_hex_prefix buf hid_str in
          match ir2hid_parse_hex_u32 buf addr_str with
          | None => None
          | Some addr_val =>
              match ir2hid_parse_hex_u32 buf cmd_str with
              | None => None
              | Some cmd_val =>
                  match ir2hid_parse_hex_u32 buf hid_str with
                  | None => None
                  | Some hid_val =>
                      if 255 <? hid_val then None
                      else
                        Some {| ir := {| protocol := proto;
                                         address := addr_val;
                                         command := cmd_val;
                                         repeat := false |};
                                hid_code := hid_val mod 256 |}
                  end
              end
          end
    | _, _, _, _ => None
    end.

(** [ir2hid_parse_lut_line]: the buffer as the call leaves it, and
    [Some e] for [true] with [e] stored through [entry]. *)
Definition ir2hid_parse_lut_line (buf : buffer) (line : nat)
    : buffer * option IR2HIDLutEntry :=
  let st := split_loop (S (length buf - line)) (split_init buf line) in
  (sp_buf st, parse_columns st).

(** ** Application state and what the program does to the outside *)

Record IR2HIDApp := {
  text_proto : string;
  text_addr : string;
  text_cmd : string;
  has_signal : bool;
  (** [None] is the null pointer; the array has one slot per counted
      data line, of which the first [lut_count] are filled *)
  lut : option (list IR2HIDLutEntry);
  lut_count : nat;
  usb_hid_active : bool;
  last_proto : Z;
  last_addr : Z;
  last_cmd : Z;
  last_tick : Z
}.

(** The calls and stores whose order matters to the other contexts:
    the mutex, the four fields the renderer reads under it, the HID
    transport and the redraw request. *)
Inductive Action :=
| MutexAcquire
| MutexRelease
| StoreTextProto (s : string)
| StoreTextAddr (s : string)
| StoreTextCmd (s : string)
| StoreHasSignal (b : bool)
| HidKbPress (code : Z)
| HidKbRelease (code : Z)
| ViewPortUpdate.

Definition set_display (f : IR2HIDApp -> string * string * string * bool)
    (app : IR2HIDApp) : IR2HIDApp :=
  let '(tp, ta, tc, hs) := f app in
  {| text_proto := tp; text_addr := ta; text_cmd := tc; has_signal := hs;
     lut := lut app; lut_count := lut_count app;
     usb_hid_active := usb_hid_active app;
     last_proto := last_proto app; last_addr := last_addr app;
     last_cmd := last_cmd app; last_tick := last_tick app |}.

(** The effect of one action on the application record. *)
Definition exec (a : Action) (app : IR2HIDApp) : IR2HIDApp :=
  match a with
  | StoreTextProto s =>
      set_display (fun app => (s, text_addr app, text_cmd app, has_signal app)) app
  | StoreTextAddr s =>
      set_display (fun app => (text_proto app, s, text_cmd app, has_signal app)) app
  | StoreTextCmd s =>
      set_display (fun app => (text_proto app, text_addr app, s, has_signal app)) app
  | StoreHasSignal b =>
      set_display (fun app => (text_proto app, text_addr app, text_cmd app, b)) app
  | _ => app
  end.

Definition run (acts : list Action) (app : IR2HIDApp) : IR2HIDApp :=
  fold_left (fun app a => exec a app) acts app.

(** Do the actions in order and log them. *)
Definition perform (acts : list Action) (app : IR2HIDApp)
    : IR2HIDApp * list Action :=
  (run acts app, acts).

(** [strlcpy(dst, src, size)] and [snprintf(dst, size, ...)] keep at
    most [size - 1] characters. *)
Definition strlcpy (size : nat) (src : string) : string :=
  String.substring 0 (size - 1) src.

Definition TEXT_SIZE : nat := 32.

(** ** Loading the table *)

Record File := {
  storage_file_size : Z;
  file_bytes : list ascii
}.

(** [storage_file_read(file, buf, n)] *)
Definition storage_file_read (f : File) (n : nat) : list ascii :=
  take n (file_bytes f).

(** What the storage and the allocator answer during one load. *)
Record Storage := {
  storage_file_open : option File;
  malloc_buf : bool;
  malloc_lut : bool
}.

Definition is_line_end (c : ascii) : bool :=
  Ascii.eqb c CR || Ascii.eqb c LF || Ascii.eqb c NUL.

(** [for(i = start; i < start + n && guard; i++) body] *)
Fixpoint for_loop {St : Type} (n : nat) (i : nat) (guard : St -> bool)
    (body : nat -> St -> St) (st : St) : St :=
  match n with
  | O => st
  | S n' => if guard st then for_loop n' (S i) guard body (body i st) else st
  end.

Record pass1_state := {
  p1_buf : buffer;
  p1_line_no : nat;
  p1_data_lines : nat;
  p1_line_start : nat
}.

Definition pass1_body (i : nat) (st : pass1_state) : pass1_state :=
  let c := load (p1_buf st) i in
  if is_line_end c then
    let buf := store (p1_buf st) i NUL in
    if negb (Ascii.eqb (load buf (p1_line_start st)) NUL) then
      {| p1_buf := buf;
         p1_data_lines := if (0 <? p1_line_no st)%nat
                          then S (p1_data_lines st) else p1_data_lines st;
         p1_line_no := S (p1_line_no st);
         p1_line_start := S i |}
    else
      {| p1_buf := buf;
         p1_data_lines := p1_data_lines st;
         p1_line_no := p1_line_no st;
         p1_line_start := S i |}
  else st.

Definition first_pass (buf : buffer) (read : nat) : pass1_state :=
  for_loop (S read) 0 (fun _ => true) pass1_body
    {| p1_buf := buf; p1_line_no := 0; p1_data_lines := 0; p1_line_start := 0 |}.

Record pass2_state := {
  p2_buf : buffer;
  p2_lut : list IR2HIDLutEntry;
  p2_lut_index : nat;
  p2_line_no : nat;
  p2_line_start : nat
}.

Definition pass2_body (i : nat) (st : pass2_state) : pass2_state :=
  if Ascii.eqb (load (p2_buf st) i) NUL then
    if negb (Ascii.eqb (load (p2_buf st) (p2_line_start st)) NUL) then
      if (0 <? p2_line_no st)%nat then
        match ir2hid_parse_lut_line (p2_buf st) (p2_line_start st) with
        | (buf, Some e) =>
            {| p2_buf := buf;
               p2_lut := <[p2_lut_index st := e]> (p2_lut st);
               p2_lut_index := S (p2_lut_index st);
               p2_line_no := S (p2_line_no st);
               p2_line_start := S i |}
        | (buf, None) =>
            {| p2_buf := buf;
               p2_lut := p2_lut st;
               p2_lut_index := p2_lut_index st;
               p2_line_no := S (p2_line_no st);
               p2_line_start := S i |}
        end
      else
        {| p2_buf := p2_buf st;
           p2_lut := p2_lut st;
           p2_lut_index := p2_lut_index st;
           p2_line_no := S (p2_line_no st);
           p2_line_start := S i |}
    else
      {| p2_buf := p2_buf st;
         p2_lut := p2_lut st;
         p2_lut_index := p2_lut_index st;
         p2_line_no := p2_line_no st;
         p2_line_start := S i |}
  else st.

Definition second_pass (buf : buffer) (read data_lines : nat) : pass2_state :=
  for_loop (S read) 0 (fun st => (p2_lut_index st <? data_lines)%nat) pass2_body
    {| p2_buf := buf;
       p2_lut := replicate data_lines zero_entry;
       p2_lut_index := 0;
       p2_line_no := 0;
       p2_line_start := 0 |}.

Definition set_lut (l : list IR2HIDLutEntry) (n : nat) (app : IR2HIDApp)
    : IR2HIDApp :=
  {| text_proto := text_proto app; text_addr := text_addr app;
     text_cmd := text_cmd app; has_signal := has_signal app;
     lut := Some l; lut_count := n;
     usb_hid_active := usb_hid_active app;
     last_proto := last_proto app; last_addr := last_addr app;
     last_cmd := last_cmd app; last_tick := last_tick app |}.

(** [ir2hid_load_lut].  The allocation for the file has
    [file_size + 1] bytes; the program reads and writes only
    [buf[0..read]], and that is the part kept here. *)
Definition ir2hid_load_lut (fs : Storage) (app : IR2HIDApp)
    : IR2HIDApp * list Action :=
  match storage_file_open fs with
  | None =>
      perform [MutexAcquire;
               StoreTextProto (strlcpy TEXT_SIZE "lut.csv not found");
               StoreTextAddr "";
               StoreTextCmd "";
               StoreHasSignal true;
               MutexRelease] app
  | Some file =>
      let file_size := storage_file_size file in
      if (file_size =? 0) || (8192 <? file_size) then (app, [])
      else if negb (malloc_buf fs) then (app, [])
      else
        let data := storage_file_read file (Z.to_nat file_size) in
        let read := length data in
        let buf := data ++ [NUL] in
        let st1 := first_pass buf read in
        let data_lines := p1_data_lines st1 in
        if (data_lines =? 0)%nat then (app, [])
        else if negb (malloc_lut fs) then (app, [])
        else
          let st2 := second_pass (p1_buf st1) read data_lines in
          (set_lut (p2_lut st2) (p2_lut_index st2) app, [])
  end.

(** ** Lookup *)

Definition same_signature (a b : InfraredMessage) : bool :=
  (protocol a =? protocol b) && (address a =? address b)
  && (command a =? command b).

(** The scan of [ir2hid_lookup_hid_code] from index [i], [n] slots to go. *)
Fixpoint lookup_loop (n : nat) (i : nat) (arr : list IR2HIDLutEntry)
    (msg : InfraredMessage) : option Z :=
  match n with
  | O => None
  | S n' =>
      let e := default zero_entry (arr !! i) in
      if same_signature (ir e) msg then Some (hid_code e)
      else lookup_loop n' (S i) arr msg
  end.

Definition ir2hid_lookup_hid_code (app : IR2HIDApp) (msg : InfraredMessage)
    : option Z :=
  match lut app with
  | None => None
  | Some arr =>
      if (lut_count app =? 0)%nat then None
      else lookup_loop (lut_count app) 0 arr msg
  end.

(** ** The consumer loop *)

Record InputEvent := {
  key : Z;
  type : Z
}.

Inductive AppEvent :=
| EventTypeTick
| EventTypeKey (input : InputEvent)
| EventTypeIRSignal (ir_message : InfraredMessage).

(** What the kernel and the HID transport answer while one event is
    handled. *)
Record Env := {
  furi_get_tick : Z;
  furi_hal_hid_is_connected : bool
}.

Definition set_last (msg : InfraredMessage) (now : Z) (app : IR2HIDApp)
    : IR2HIDApp :=
  {| text_proto := text_proto app; text_addr := text_addr app;
     text_cmd := text_cmd app; has_signal := has_signal app;
     lut := lut app; lut_count := lut_count app;
     usb_hid_active := usb_hid_active app;
     last_proto := protocol msg; last_addr := address msg;
     last_cmd := command msg; last_tick := now |}.

(** The digit characters [0-9A-F] *)
Definition hex_digit_upper (d : Z) : ascii :=
  if d <? 10 then ascii_of_N (Z.to_N (48 + d)) else ascii_of_N (Z.to_N (55 + d)).

(** [%X] of the C library for an unsigned value below [16 ^ fuel],
    the digits put in front of [acc]. *)
Fixpoint hex_upper (fuel : nat) (v : Z) (acc : string) : string :=
  match fuel with
  | O => acc
  | S fuel' =>
      let acc' := String (hex_digit_upper (v mod 16)) acc in
      if v / 16 =? 0 then acc' else hex_upper fuel' (v / 16) acc'
  end.

Fixpoint zeros (n : nat) : string :=
  match n with
  | O => EmptyString
  | S n' => String "0"%char (zeros n')
  end.

(** [%0wX] for a 32-bit value: at least [w] digits, zeros in front *)
Definition fmt_0X (w : nat) (v : Z) : string :=
  let d := hex_upper 8 v EmptyString in
  (zeros (w - String.length d) ++ d)%string.

Definition snprintf (size : nat) (s : string) : string := strlcpy size s.

(** The subtraction [now - app->last_tick] on [uint32_t]. *)
Definition ticks_since (now last : Z) : Z := (now - last) mod UINT32_MOD.

(** The debounce condition of the main loop: the signal is dropped. *)
Definition debounced (app : IR2HIDApp) (msg : InfraredMessage) (now : Z)
    : bool :=
  (protocol msg =? last_proto app) && (address msg =? last_addr app)
  && (command msg =? last_cmd app)
  && (ticks_since now (last_tick app) <? furi_ms_to_ticks 5).

(** The name shown for a protocol: the registry's name when the
    protocol is valid and has one, ["Unknown"] otherwise. *)
Definition protocol_name (p : Z) : string :=
  match (if infrared_is_protocol_valid p
         then infrared_get_protocol_name p
         else None) with
  | Some n => n
  | None => "Unknown"%string
  end.

(** The three [snprintf] calls into the temporary buffers. *)
Definition fmt_proto (msg : InfraredMessage) : string :=
  snprintf TEXT_SIZE ("Proto: " ++ protocol_name (protocol msg))%string.

Definition fmt_addr (msg : InfraredMessage) : string :=
  snprintf TEXT_SIZE ("Addr: 0x" ++ fmt_0X 4 (address msg))%string.

Definition fmt_cmd_hid (msg : InfraredMessage) (hid_code : Z) : string :=
  snprintf TEXT_SIZE
    ("Cmd:0x" ++ fmt_0X 4 (command msg) ++ " HID:0x" ++ fmt_0X 2 hid_code)%string.

Definition fmt_cmd_no_map (msg : InfraredMessage) : string :=
  snprintf TEXT_SIZE ("Cmd:0x" ++ fmt_0X 4 (command msg) ++ " (no map)")%string.

(** Press and release of a matched code, when the transport is up
    and a host is there. *)
Definition hid_tap (app : IR2HIDApp) (env : Env) (hid_code : Z) : list Action :=
  if usb_hid_active app && furi_hal_hid_is_connected env
  then [HidKbPress hid_code; HidKbRelease hid_code]
  else [].

(** The copy of the temporary buffers into the record, under the
    mutex, and the redraw request after it. *)
Definition display_update (temp_proto temp_addr temp_cmd : string) : list Action :=
  [MutexAcquire;
   StoreTextProto (strlcpy TEXT_SIZE temp_proto);
   StoreTextAddr (strlcpy TEXT_SIZE temp_addr);
   StoreTextCmd (strlcpy TEXT_SIZE temp_cmd);
   StoreHasSignal true;
   MutexRelease;
   ViewPortUpdate].

(** The [EventTypeIRSignal] branch of the loop body. *)
Definition on_ir_signal (env : Env) (msg : InfraredMessage) (app : IR2HIDApp)
    : IR2HIDApp * list Action :=
  if repeat msg then (app, [])
  else
    let now := furi_get_tick env in
    if debounced app msg now then (app, [])
    else
      let app := set_last msg now app in
      let temp_proto := fmt_proto msg in
      let temp_addr := fmt_addr msg in
      match ir2hid_lookup_hid_code app msg with
      | Some hid_code =>
          perform (hid_tap app env hid_code
                   ++ display_update temp_proto temp_addr
                        (fmt_cmd_hid msg hid_code)) app
      | None =>
          perform (display_update temp_proto temp_addr (fmt_cmd_no_map msg)) app
      end.

(** One turn of the [while(running)] loop on an event that
    [furi_message_queue_get] delivered: the new state, what was done,
    and [running]. *)
Definition loop_body (env : Env) (event : AppEvent) (app : IR2HIDApp)
    : IR2HIDApp * list Action * bool :=
  match event with
  | EventTypeKey input =>
      if (key input =? InputKeyBack) && (type input =? InputTypeShort)
      then (app, [], false)
      else (app, [], true)
  | EventTypeIRSignal msg =>
      let '(app', acts) := on_ir_signal env msg app in (app', acts, true)
  | EventTypeTick => (app, [], true)
  end.

(** The loop on the events the queue delivers, in order. *)
Fixpoint main_loop (events : list (Env * AppEvent)) (app : IR2HIDApp)
    : IR2HIDApp * list Action :=
  match events with
  | [] => (app, [])
  | (env, event) :: rest =>
      let '(app', acts, running) := loop_body env event app in
      if running then
        let '(app'', acts') := main_loop rest app' in (app'', acts ++ acts')
      else (app', acts)
  end.

(** The fields [ir2hid_app] sets on the record it allocates; the text
    fields keep whatever the allocation held.  [usb_ok] is the result
    of [furi_hal_usb_set_config]. *)
Definition app_init (raw : IR2HIDApp) (usb_ok : bool) : IR2HIDApp :=
  {| text_proto := text_proto raw; text_addr := text_addr raw;
     text_cmd := text_cmd raw; has_signal := false;
     lut := None; lut_count := 0;
     usb_hid_active := usb_ok;
     last_proto := InfraredProtocolUnknown; last_addr := 0;
     last_cmd := 0; last_tick := 0 |}.

(** [ir2hid_app] from the load of the table to the end of its loop,
    on the events the queue delivers. *)
Definition ir2hid_app (raw : IR2HIDApp) (usb_ok : bool) (fs : Storage)
    (events : list (Env * AppEvent)) : IR2HIDApp * list Action :=
  let '(app, acts) := ir2hid_load_lut fs (app_init raw usb_ok) in
  let '(app', acts') := main_loop events app in
  (app', acts ++ acts').

End WithPlatform.

(** * Vocabulary of the properties

    What the statements below are written with: C strings and rows as
    lists, the lines of a file, the table a record holds, and the
    words for what the loop does with a signal. *)

Definition nul_free (l : list ascii) : Prop := Forall (fun c => c <> NUL) l.

(** The digits of a column folded from the left, as the loop of
    [ir2hid_parse_hex_u32] does on the characters it meets. *)
Fixpoint hex_acc (l : list ascii) (value : Z) : option Z :=
  match l with
  | [] => Some value
  | c :: l' =>
      match hex_char_to_hex_nibble c with
      | None => None
      | Some nibble => hex_acc l' (shift_in_nibble value nibble)
      end
  end.

Definition hex_u32 (l : list ascii) : option Z :=
  match l with
  | [] => None
  | _ => hex_acc l 0
  end.

(** The prefix strip on the C string. *)
Definition strip_hex_prefix (l : list ascii) : list ascii :=
  match l with
  | c0 :: c1 :: l' =>
      if Ascii.eqb c0 "0"%char
         && (Ascii.eqb c1 "x"%char || Ascii.eqb c1 "X"%char)
      then l' else l
  | _ => l
  end.

(** A list cut at every character that [sep] accepts. *)
Fixpoint split_on (sep : ascii -> bool) (l : list ascii) : list (list ascii) :=
  match l with
  | [] => [[]]
  | c :: l' =>
      if sep c then [] :: split_on sep l'
      else
        match split_on sep l' with
        | f :: fs => (c :: f) :: fs
        | [] => [[c]]
        end
  end.

Definition is_comma (c : ascii) : bool := Ascii.eqb c ","%char.

(** The comma-delimited columns of a row. *)
Definition fields (l : list ascii) : list (list ascii) := split_on is_comma l.

Section RowVocabulary.
Context `{Platform}.

(** What [ir2hid_parse_lut_line] makes of four columns. *)
Definition parse_fields (f0 f1 f2 f3 : list ascii) : option IR2HIDLutEntry :=
  let proto := infrared_get_protocol_by_name (string_of_list_ascii f0) in
  if negb (infrared_is_protocol_valid proto) then None
  else
    match hex_u32 (strip_hex_prefix f1) with
    | None => None
    | Some addr_val =>
        match hex_u32 (strip_hex_prefix f2) with
        | None => None
        | Some cmd_val =>
            match hex_u32 (strip_hex_prefix f3) with
            | None => None
            | Some hid_val =>
                if 255 <? hid_val then None
                else
                  Some {| ir := {| protocol := proto;
                                   address := addr_val;
                                   command := cmd_val;
                                   repeat := false |};
                          hid_code := hid_val mod 256 |}
            end
        end
    end.

(** A row read as the table format describes it: the first four
    columns count, the rest is comment. *)
Definition parse_row (l : list ascii) : option IR2HIDLutEntry :=
  match fields l with
  | f0 :: f1 :: f2 :: f3 :: _ => parse_fields f0 f1 f2 f3
  | _ => None
  end.

End RowVocabulary.

Definition nonblank (l : list ascii) : bool :=
  match l with
  | [] => false
  | _ => true
  end.

(** The lines that a terminator closes, the line under way being [cur]. *)
Fixpoint lines_from (sep : ascii -> bool) (cur l : list ascii)
    : list (list ascii) :=
  match l with
  | [] => []
  | c :: l' =>
      if sep c then cur :: lines_from sep [] l'
      else lines_from sep (cur ++ [c]) l'
  end.

Definition is_nul (c : ascii) : bool := Ascii.eqb c NUL.

(** What the first pass stores at a position. *)
Definition nul_line_end (c : ascii) : ascii := if is_line_end c then NUL else c.

Definition no_line_end (l : list ascii) : Prop :=
  Forall (fun c => is_line_end c = false) l.

(** The rows among the non-blank lines still to come: all of them
    once the header has been seen, all but the first before. *)
Definition rows_of (line_no : nat) (ls : list (list ascii)) : list (list ascii) :=
  if (0 <? line_no)%nat then ls else tl ls.

(** The non-blank lines of a file, cut at CR, LF and NUL. *)
Definition table_lines (data : list ascii) : list (list ascii) :=
  List.filter nonblank (split_on is_line_end data).

(** The lines after the header line. *)
Definition data_rows (data : list ascii) : list (list ascii) :=
  tl (table_lines data).

(** The entries a lookup can reach. *)
Definition table (app : IR2HIDApp) : list IR2HIDLutEntry :=
  match lut app with
  | None => []
  | Some arr => take (lut_count app) arr
  end.

(** The count never passes the end of the array. *)
Definition wf_app (app : IR2HIDApp) : Prop :=
  match lut app with
  | None => True
  | Some arr => (lut_count app <= length arr)%nat
  end.

(** The first entry of a table with the signature of [msg]. *)
Fixpoint find_hid (t : list IR2HIDLutEntry) (msg : InfraredMessage) : option Z :=
  match t with
  | [] => None
  | e :: t' =>
      if same_signature (ir e) msg then Some (hid_code e) else find_hid t' msg
  end.

(** The four fields the renderer reads. *)
Definition display (app : IR2HIDApp) : string * string * string * bool :=
  (text_proto app, text_addr app, text_cmd app, has_signal app).

Definition same_as_last (app : IR2HIDApp) (msg : InfraredMessage) : Prop :=
  protocol msg = last_proto app /\ address msg = last_addr app
  /\ command msg = last_cmd app.

(** The signal is dropped: nothing is stored and nothing is done. *)
Definition rejected `{Platform} (env : Env) (msg : InfraredMessage)
    (app : IR2HIDApp) : Prop :=
  on_ir_signal env msg app = (app, []).

Definition is_hid_action (a : Action) : Prop :=
  match a with
  | HidKbPress _ | HidKbRelease _ => True
  | _ => False
  end.

(** The same answers of the kernel, with a host on the transport or
    without. *)
Definition with_host (connected : bool) (env : Env) : Env :=
  {| furi_get_tick := furi_get_tick env;
     furi_hal_hid_is_connected := connected |}.

(** The least a record of the no-host condition in the display state
    needs: what is written without a host differs from what is written
    with one. *)
Definition display_tells_no_host `{Platform} (env : Env) (msg : InfraredMessage)
    (app : IR2HIDApp) : Prop :=
  display (fst (on_ir_signal (with_host false env) msg app))
  <> display (fst (on_ir_signal (with_host true env) msg app)).

(** The row parser run on a row of its own, in a buffer that holds
    nothing else. *)
Definition parse_alone `{Platform} (l : list ascii) : option IR2HIDLutEntry :=
  snd (ir2hid_parse_lut_line (l ++ [NUL]) 0).

(** The value the program reads from a hex column: prefix strip, then
    [ir2hid_parse_hex_u32]. *)
Definition column_value (f : list ascii) : option Z :=
  ir2hid_parse_hex_u32 (f ++ [NUL]) (ir2hid_strip_hex_prefix (f ++ [NUL]) 0).

Definition hex_digit_value (c : ascii) : Z :=
  match hex_char_to_hex_nibble c with
  | Some n => n
  | None => 0
  end.

(** The number a digit string denotes, without any bound. *)
Definition hex_value (l : list ascii) : Z :=
  fold_left (fun acc c => acc * 16 + hex_digit_value c) l 0.

(** The digits shifted in one after the other, four bits at a time, in
    a 32-bit word: the bits that leave the word are lost. *)
Definition shift_accumulate (l : list ascii) : Z :=
  fold_left
    (fun value c => Z.lor (Z.shiftl value 4 mod 2 ^ 32) (hex_digit_value c))
    l 0.

(** The number a hex column stands for: its digits, prefix apart, read
    modulo [2 ^ 32]. *)
Definition column_number (f : list ascii) : Z :=
  hex_value (strip_hex_prefix f) mod 2 ^ 32.

Definition not_hex (c : ascii) : Prop := hex_char_to_hex_nibble c = None.

(** A hex column that is empty or holds a character that is no hex
    digit, once the prefix is off. *)
Definition bad_hex_column (f : list ascii) : Prop :=
  strip_hex_prefix f = [] \/ Exists not_hex (strip_hex_prefix f).

Definition row_malformed `{Platform} (l : list ascii) : Prop :=
  (length (fields l) < 4)%nat
  \/ infrared_is_protocol_valid
       (infrared_get_protocol_by_name
          (string_of_list_ascii (nth 0 (fields l) []))) = false
  \/ bad_hex_column (nth 1 (fields l) [])
  \/ bad_hex_column (nth 2 (fields l) [])
  \/ bad_hex_column (nth 3 (fields l) []).

(** The entry a row stands for: the protocol its first column names
    and the numbers of its three hex columns. *)
Definition row_entry `{Platform} (l : list ascii) : IR2HIDLutEntry :=
  {| ir := {| protocol :=
                infrared_get_protocol_by_name
                  (string_of_list_ascii (nth 0 (fields l) []));
              address := column_number (nth 1 (fields l) []);
              command := column_number (nth 2 (fields l) []);
              repeat := false |};
     hid_code := column_number (nth 3 (fields l) []) |}.

Definition row_NEC_04_0A_01 : list ascii :=
  list_ascii_of_string "NEC,0x04,0x0A,0x01".

(** * Inputs to run the program on *)

(** A platform to run the program on: the protocol names of the
    firmware's registry in the order of its enum, with the unknown
    protocol at -1, one tick per millisecond, and codes for the back
    key and the short press. *)
Definition protocol_names : list string :=
  ["NEC"; "NECext"; "NEC42"; "NEC42ext"; "Samsung32"; "RC6"; "RC5"; "RC5X";
   "SIRC"; "SIRC15"; "SIRC20"; "Kaseikyo"; "RCA"; "Pioneer"]%string.

Fixpoint protocol_index (s : string) (names : list string) (i : Z) : Z :=
  match names with
  | [] => -1
  | n :: names' => if String.eqb s n then i else protocol_index s names' (i + 1)
  end.

Definition example_platform : Platform := {|
  InfraredProtocolUnknown := -1;
  infrared_get_protocol_by_name := fun s => protocol_index s protocol_names 0;
  infrared_is_protocol_valid := fun p => (0 <=? p) && (p <? 14);
  infrared_get_protocol_name := fun p =>
    if (0 <=? p) && (p <? 14) then nth_error protocol_names (Z.to_nat p)
    else None;
  furi_ms_to_ticks := fun ms => ms;
  InputKeyBack := 5;
  InputTypeShort := 2
|}.

(** A file as the storage serves it, with its true size, and
    allocations that succeed. *)
Definition storage_with (content : list ascii) : Storage :=
  {| storage_file_open :=
       Some {| storage_file_size := Z.of_nat (length content);
               file_bytes := content |};
     malloc_buf := true;
     malloc_lut := true |}.

Definition storage_without_file : Storage :=
  {| storage_file_open := None; malloc_buf := true; malloc_lut := true |}.

Definition text (s : string) : list ascii := list_ascii_of_string s.

(** The record as [malloc] may hand it out. *)
Definition raw_app : IR2HIDApp :=
  {| text_proto := ""; text_addr := ""; text_cmd := ""; has_signal := false;
     lut := None; lut_count := 0; usb_hid_active := false;
     last_proto := 0; last_addr := 0; last_cmd := 0; last_tick := 0 |}.

Definition header_line : list ascii :=
  text "ir_protocol,ir_address,ir_command,hid_command".

(** Only the row, no header line above it. *)
Definition file_single_row : list ascii := row_NEC_04_0A_01.

Definition file_header_and_row : list ascii :=
  header_line ++ LF :: row_NEC_04_0A_01.

(** The same signature twice, with HID codes 1 and 2. *)
Definition file_duplicates : list ascii :=
  header_line ++ LF :: text "NEC,0x04,0x0A,0x01" ++ LF :: text "NEC,4,A,2".

(** A short row, a row with an unknown protocol and a row with a bad
    hex column between two good rows, with blank lines and CR LF. *)
Definition file_with_bad_rows : list ascii :=
  header_line ++ CR :: LF :: text "NEC,0x04,0x0A,0x01" ++ CR :: LF
  :: text "NEC,0x04,0x0B" ++ LF :: LF :: text "Morse,1,2,3" ++ LF
  :: text "NEC,0x04,0xZZ,0x05" ++ LF :: text "RC5,5,C,1F,vol+,volume up" ++ [LF].

Definition file_oversize : list ascii := replicate (Z.to_nat 8193) "x"%char.

Definition msg_NEC (addr cmd : Z) (rep : bool) : InfraredMessage :=
  {| protocol := 0; address := addr; command := cmd; repeat := rep |}.

Definition env_at (tick : Z) (connected : bool) : Env :=
  {| furi_get_tick := tick; furi_hal_hid_is_connected := connected |}.

Definition entry_NEC (addr cmd hid : Z) : IR2HIDLutEntry :=
  {| ir := msg_NEC addr cmd false; hid_code := hid |}.

(** The state after (NEC, 4, 0x0A) was accepted at tick 100, with the
    one-row table loaded and the transport up. *)
Definition app_after_press : IR2HIDApp :=
  {| text_proto := "Proto: NEC"; text_addr := "Addr: 0x0004";
     text_cmd := "Cmd:0x000A HID:0x01"; has_signal := true;
     lut := Some [entry_NEC 4 10 1]; lut_count := 1; usb_hid_active := true;
     last_proto := 0; last_addr := 4; last_cmd := 10; last_tick := 100 |}.

(** * Vocabulary of the further properties *)

(** ** Columns, rows and entries *)

(** A non-empty string of hex digits. *)
Definition hex_digits (d : list ascii) : Prop :=
  d <> [] /\ Forall (fun c => hex_char_to_hex_nibble c <> None) d.

(** The first [n] commas of a row overwritten with NUL. *)
Fixpoint cut_commas (n : nat) (l : list ascii) {struct l} : list ascii :=
  match l with
  | [] => []
  | c :: l' =>
      match n with
      | O => c :: l'
      | S n' =>
          if is_comma c then NUL :: cut_commas n' l' else c :: cut_commas n l'
      end
  end.

(** What every entry of a loaded table satisfies. *)
Definition entry_ok `{Platform} (e : IR2HIDLutEntry) : Prop :=
  repeat (ir e) = false
  /\ 0 <= hid_code e <= 255
  /\ 0 <= address (ir e) < 2 ^ 32
  /\ 0 <= command (ir e) < 2 ^ 32
  /\ infrared_is_protocol_valid (protocol (ir e)) = true.

(** ** Events and traces *)

(** The events that end the loop: a short press of the back key. *)
Definition is_exit `{Platform} (event : AppEvent) : bool :=
  match event with
  | EventTypeKey input =>
      (key input =? InputKeyBack) && (type input =? InputTypeShort)
  | _ => false
  end.

(** The events the loop takes from the queue and does nothing with:
    ticks, and keys other than the short press of the back key. *)
Definition is_idle `{Platform} (event : AppEvent) : bool :=
  match event with
  | EventTypeTick => true
  | EventTypeKey input =>
      negb ((key input =? InputKeyBack) && (type input =? InputTypeShort))
  | EventTypeIRSignal _ => false
  end.

(** The order of calls in a trace: acquire and release alternate and
    the trace ends with the mutex free; the display fields are stored
    only while it is held; the HID calls and the redraw request are
    made only while it is free; a press is followed at once by the
    release of the same code, and no release comes without its
    press. *)
Fixpoint trace_ok (held : bool) (acts : list Action) : bool :=
  match acts with
  | [] => negb held
  | MutexAcquire :: r => negb held && trace_ok true r
  | MutexRelease :: r => held && trace_ok false r
  | StoreTextProto _ :: r | StoreTextAddr _ :: r
  | StoreTextCmd _ :: r | StoreHasSignal _ :: r => held && trace_ok held r
  | HidKbPress c :: r =>
      match r with
      | HidKbRelease c' :: r' => negb held && (c =? c') && trace_ok held r'
      | _ => false
      end
  | HidKbRelease _ :: _ => false
  | ViewPortUpdate :: r => negb held && trace_ok held r
  end.

(** The HID codes a trace sends. *)
Definition sends (c : Z) (acts : list Action) : Prop :=
  In (HidKbPress c) acts \/ In (HidKbRelease c) acts.

(** A store of a text field that fits the 32-byte field with its
    terminator. *)
Definition store_fits (a : Action) : Prop :=
  match a with
  | StoreTextProto s | StoreTextAddr s | StoreTextCmd s =>
      (String.length s <= 31)%nat
  | _ => True
  end.

(** The signals of a burst: repeat frames, and frames with the stored
    signature that come within the cooldown of the stored tick. *)
Definition bounce `{Platform} (app : IR2HIDApp) (p : Env * AppEvent) : Prop :=
  match snd p with
  | EventTypeIRSignal msg =>
      repeat msg = true
      \/ (same_as_last app msg
          /\ ticks_since (furi_get_tick (fst p)) (last_tick app)
             < furi_ms_to_ticks 5)
  | _ => False
  end.

(** Signals that are no repeat frames, each with another signature
    than the one before it, the first with another than [last]. *)
Fixpoint alternating (last : Z * Z * Z) (events : list (Env * AppEvent)) : Prop :=
  match events with
  | [] => True
  | (_, EventTypeIRSignal msg) :: rest =>
      repeat msg = false
      /\ (protocol msg, address msg, command msg) <> last
      /\ alternating (protocol msg, address msg, command msg) rest
  | _ => False
  end.

Definition is_redraw (a : Action) : bool :=
  match a with
  | ViewPortUpdate => true
  | _ => false
  end.

(** The number of redraw requests in a trace. *)
Definition redraws (acts : list Action) : nat :=
  length (List.filter is_redraw acts).

(** ** The renderer *)

Inductive Font := FontPrimary | FontSecondary.

(** The calls of [render_callback], in order. *)
Inductive CanvasOp :=
| CanvasClear
| CanvasSetFont (f : Font)
| CanvasDrawStr (x y : Z) (s : string)
| CanvasDrawLine (x1 y1 x2 y2 : Z)
| RenderMutexAcquire
| RenderMutexRelease.

(** [render_callback] on the record as it is when the GUI calls it. *)
Definition render_callback (env : Env) (app : IR2HIDApp) : list CanvasOp :=
  let hid_connected := usb_hid_active app && furi_hal_hid_is_connected env in
  [CanvasClear;
   CanvasSetFont FontPrimary;
   CanvasDrawStr 2 10 (if hid_connected then "IR > HID [Connected]"
                       else "IR > HID");
   CanvasDrawLine 0 12 128 12;
   CanvasSetFont FontSecondary;
   RenderMutexAcquire]
  ++ (if negb (has_signal app)
      then [CanvasDrawStr 10 35 "Waiting for signal..."]
      else [CanvasDrawStr 2 25 (text_proto app);
            CanvasDrawStr 2 37 (text_addr app);
            CanvasDrawStr 2 49 (text_cmd app)])
  ++ [RenderMutexRelease].

(** Two records that the renderer cannot tell apart and that the loop
    treats alike: all fields but the text fields agree, and the text
    fields agree once the flag is set. *)
Definition same_but_hidden_text (a b : IR2HIDApp) : Prop :=
  has_signal a = has_signal b
  /\ lut a = lut b /\ lut_count a = lut_count b
  /\ usb_hid_active a = usb_hid_active b
  /\ last_proto a = last_proto b /\ last_addr a = last_addr b
  /\ last_cmd a = last_cmd b /\ last_tick a = last_tick b
  /\ (has_signal a = true ->
      text_proto a = text_proto b /\ text_addr a = text_addr b
      /\ text_cmd a = text_cmd b).

(** ** Further inputs *)

(** The state after (NEC, 4, 0x0A) was accepted two ticks before the
    tick counter wraps. *)
Definition app_before_wrap : IR2HIDApp :=
  {| text_proto := "Proto: NEC"; text_addr := "Addr: 0x0004";
     text_cmd := "Cmd:0x000A HID:0x01"; has_signal := true;
     lut := Some [entry_NEC 4 10 1]; lut_count := 1; usb_hid_active := true;
     last_proto := 0; last_addr := 4; last_cmd := 10;
     last_tick := 2 ^ 32 - 2 |}.

(** The short press of the back key on the example platform. *)
Definition back_short : AppEvent := EventTypeKey {| key := 5; type := 2 |}.

(** * Properties *)

(** ** Reading C strings out of a buffer *)

Lemma load_lookup (buf : buffer) p c : buf !! p = Some c -> load buf p = c.
Proof. unfold load. intros ->. reflexivity. Qed.

Lemma load_outside (buf : buffer) p : (length buf <= p)%nat -> load buf p = NUL.
Proof. unfold load. intros Hp. rewrite lookup_ge_None_2; [reflexivity | lia]. Qed.

Lemma load_app_r (pre l : buffer) j : load (pre ++ l) (length pre + j) = load l j.
Proof. unfold load. rewrite lookup_app_r by lia. replace (length pre + j - length pre)%nat with j by lia. reflexivity. Qed.

Lemma load_app_here (pre l : buffer) : load (pre ++ l) (length pre) = load l 0.
Proof. rewrite <- (load_app_r pre l 0). f_equal. lia. Qed.

Lemma store_app_here (pre l : buffer) c x :
  store (pre ++ c :: l) (length pre) x = pre ++ x :: l.
Proof.
  unfold store. rewrite insert_app_r_alt by lia.
  replace (length pre - length pre)%nat with 0%nat by lia. reflexivity.
Qed.

Lemma cstr_app_here (pre l : buffer) : cstr (pre ++ l) (length pre) = until_nul l.
Proof. unfold cstr. rewrite drop_app_length. reflexivity. Qed.

Lemma cstr_unfold (buf : buffer) p :
  cstr buf p =
  if Ascii.eqb (load buf p) NUL then [] else load buf p :: cstr buf (S p).
Proof.
  unfold cstr, load. destruct (buf !! p) as [c|] eqn:E.
  - rewrite (drop_S _ _ _ E). reflexivity.
  - rewrite drop_ge by (apply lookup_ge_None; exact E). reflexivity.
Qed.

Lemma until_nul_app (f r : list ascii) :
  nul_free f -> until_nul (f ++ r) = f ++ until_nul r.
Proof.
  induction 1 as [|c f Hc _ IH]; [reflexivity|].
  simpl. apply Ascii.eqb_neq in Hc. rewrite Hc, IH. reflexivity.
Qed.

Lemma until_nul_terminated (f r : list ascii) :
  nul_free f -> until_nul (f ++ NUL :: r) = f.
Proof. intros Hf. rewrite until_nul_app by exact Hf. simpl. apply app_nil_r. Qed.

Lemma until_nul_nul_free (l : list ascii) : nul_free (until_nul l).
Proof.
  induction l as [|c l IH]; simpl; [constructor|].
  destruct (Ascii.eqb c NUL) eqn:E; [constructor|].
  constructor; [apply Ascii.eqb_neq; exact E | exact IH].
Qed.

Lemma cstr_length (buf : buffer) p : (length (cstr buf p) <= length buf - p)%nat.
Proof.
  unfold cstr. rewrite <- length_drop. generalize (drop p buf). intros l.
  induction l as [|c l IH]; simpl; [lia|].
  destruct (Ascii.eqb c NUL); simpl; lia.
Qed.

(** ** Hexadecimal columns *)

Lemma parse_hex_loop_cstr fuel : forall buf s value any,
  (length (cstr buf s) < fuel)%nat ->
  parse_hex_loop fuel buf s value any =
  match hex_acc (cstr buf s) value with
  | None => None
  | Some v => Some (v, match cstr buf s with [] => any | _ => true end)
  end.
Proof.
  induction fuel as [|fuel IH]; intros buf s value any Hf; [lia|].
  simpl. rewrite (cstr_unfold buf s) in Hf |- *.
  destruct (Ascii.eqb (load buf s) NUL); [reflexivity|].
  simpl in Hf |- *.
  destruct (hex_char_to_hex_nibble (load buf s)) as [n|]; [|reflexivity].
  rewrite IH by lia.
  destruct (hex_acc (cstr buf (S s)) (shift_in_nibble value n)); [|reflexivity].
  destruct (cstr buf (S s)); reflexivity.
Qed.

(** The fuel of [ir2hid_parse_hex_u32] is never used up: the function
    is the fold over the C string at [s]. *)
Lemma ir2hid_parse_hex_u32_cstr buf s :
  ir2hid_parse_hex_u32 buf s = hex_u32 (cstr buf s).
Proof.
  unfold ir2hid_parse_hex_u32, hex_u32.
  rewrite parse_hex_loop_cstr by (pose proof (cstr_length buf s); lia).
  destruct (cstr buf s) as [|c l]; [reflexivity|].
  destruct (hex_acc (c :: l) 0); reflexivity.
Qed.

Lemma ir2hid_strip_hex_prefix_cstr buf s :
  cstr buf (ir2hid_strip_hex_prefix buf s) = strip_hex_prefix (cstr buf s).
Proof.
  unfold ir2hid_strip_hex_prefix.
  rewrite (cstr_unfold buf s).
  destruct (Ascii.eqb (load buf s) NUL) eqn:E0.
  { apply Ascii.eqb_eq in E0. rewrite E0. simpl. rewrite cstr_unfold, E0. reflexivity. }
  replace (s + 1)%nat with (S s) by lia.
  rewrite (cstr_unfold buf (S s)).
  destruct (Ascii.eqb (load buf (S s)) NUL) eqn:E1.
  { apply Ascii.eqb_eq in E1. rewrite E1. simpl. rewrite andb_false_r.
    rewrite (cstr_unfold buf s), E0, (cstr_unfold buf (S s)), E1.
    rewrite Ascii.eqb_refl. reflexivity. }
  simpl.
  destruct (Ascii.eqb (load buf s) "0" && _) eqn:E.
  - replace (s + 2)%nat with (S (S s)) by lia. reflexivity.
  - rewrite (cstr_unfold buf s), E0, (cstr_unfold buf (S s)), E1. reflexivity.
Qed.

(** ** Rows as lists of columns *)

Lemma split_on_length sep l : (1 <= length (split_on sep l))%nat.
Proof.
  induction l as [|c l IH]; simpl; [lia|].
  destruct (sep c); simpl; [lia|].
  destruct (split_on sep l); simpl in *; lia.
Qed.

Lemma split_on_cons_sep sep c l :
  sep c = true -> split_on sep (c :: l) = [] :: split_on sep l.
Proof. intros Hc. simpl. rewrite Hc. reflexivity. Qed.

Lemma split_on_cons_other sep c l :
  sep c = false ->
  split_on sep (c :: l) =
  (c :: nth 0 (split_on sep l) []) :: tl (split_on sep l).
Proof.
  intros Hc. simpl. rewrite Hc.
  pose proof (split_on_length sep l).
  destruct (split_on sep l); simpl in *; [lia | reflexivity].
Qed.

Section Rows.
Context `{Platform}.

Lemma parse_columns_fields st c0 c1 c2 c3 :
  (MaxColumns - 1 <= sp_col_index st)%nat ->
  col st 0 = Some c0 -> col st 1 = Some c1 ->
  col st 2 = Some c2 -> col st 3 = Some c3 ->
  parse_columns st =
  parse_fields (cstr (sp_buf st) c0) (cstr (sp_buf st) c1)
               (cstr (sp_buf st) c2) (cstr (sp_buf st) c3).
Proof.
  intros Hk H0 H1 H2 H3. unfold parse_columns, parse_fields.
  destruct (sp_col_index st <? MaxColumns - 1)%nat eqn:E.
  { apply Nat.ltb_lt in E. lia. }
  rewrite H0, H1, H2, H3.
  rewrite !ir2hid_parse_hex_u32_cstr, !ir2hid_strip_hex_prefix_cstr.
  reflexivity.
Qed.

End Rows.

Lemma load_cons_0 (c : ascii) (l : buffer) : load (c :: l) 0 = c.
Proof. reflexivity. Qed.

Lemma split_loop_step fuel st :
  split_cond st = true -> split_loop (S fuel) st = split_loop fuel (split_step st).
Proof. intros Hc. cbn [split_loop]. rewrite Hc. reflexivity. Qed.

Lemma split_loop_stop fuel st :
  split_cond st = false -> split_loop (S fuel) st = st.
Proof. intros Hc. cbn [split_loop]. rewrite Hc. reflexivity. Qed.

(** The column loop, by induction on the rest of the row.  The row is
    [l], it sits in the buffer after [pre] and is closed by a NUL. *)
Lemma split_loop_spec l :
  nul_free l ->
  forall fuel pre rest cs k,
  (length l < fuel)%nat -> length cs = 4%nat -> (k <= 4)%nat ->
  let st' := split_loop fuel
               {| sp_buf := pre ++ l ++ NUL :: rest; sp_cols := cs;
                  sp_col_index := k; sp_p := length pre |} in
  (exists l', sp_buf st' = pre ++ l' ++ NUL :: rest
              /\ length l' = length l
              /\ ((k < 4)%nat ->
                  until_nul (l' ++ NUL :: rest) = nth 0 (fields l) []))
  /\ sp_col_index st' = Nat.min 4 (k + (length (fields l) - 1))
  /\ (forall j, (j <= k)%nat -> sp_cols st' !! j = cs !! j)
  /\ (forall m, (1 <= m)%nat -> (k + m < 4)%nat ->
        (m < length (fields l))%nat ->
        exists c, sp_cols st' !! (k + m)%nat = Some (Some c)
                  /\ cstr (sp_buf st') c = nth m (fields l) []).
Proof.
  induction 1 as [|c l2 Hc Hl2 IH]; intros fuel pre rest cs k Hfuel Hcs Hk.
  - destruct fuel as [|fuel]; [simpl in Hfuel; lia|].
    rewrite split_loop_stop.
    2:{ unfold split_cond. cbn [sp_buf sp_p sp_col_index app].
        rewrite load_app_here, load_cons_0, Ascii.eqb_refl. reflexivity. }
    cbv zeta. cbn [sp_buf sp_cols sp_col_index].
    split; [|split; [|split]].
    + exists []. split; [reflexivity|]. split; [reflexivity|].
      intros _. simpl. reflexivity.
    + cbn [fields split_on length]. lia.
    + reflexivity.
    + intros m Hm1 _ Hm. cbn [fields split_on length] in Hm. lia.
  - destruct fuel as [|fuel]; [simpl in Hfuel; lia|].
    cbn [length] in Hfuel.
    rewrite <- app_comm_cons.
    apply Ascii.eqb_neq in Hc.
    assert (Hcond : split_cond {| sp_buf := pre ++ c :: l2 ++ NUL :: rest;
                                  sp_cols := cs; sp_col_index := k;
                                  sp_p := length pre |} = (k <? 4)%nat).
    { unfold split_cond. cbn [sp_buf sp_p sp_col_index].
      rewrite load_app_here, load_cons_0, Hc. reflexivity. }
    destruct (k <? 4)%nat eqn:Ek.
    2:{ apply Nat.ltb_ge in Ek. rewrite split_loop_stop by exact Hcond.
        cbv zeta. cbn [sp_buf sp_cols sp_col_index].
        split; [|split; [|split]].
        - exists (c :: l2). split; [reflexivity|]. split; [reflexivity|]. lia.
        - lia.
        - reflexivity.
        - intros m _ Hm _. lia. }
    apply Nat.ltb_lt in Ek.
    rewrite split_loop_step by exact Hcond.
    unfold split_step. cbn [sp_buf sp_p sp_col_index sp_cols].
    rewrite load_app_here, load_cons_0.
    pose proof (split_on_length is_comma l2) as Hfl. fold (fields l2) in Hfl.
    destruct (Ascii.eqb c ",") eqn:Ecomma.
    + (* a comma: close the column *)
      rewrite store_app_here.
      set (cs' := if (S k <? MaxColumns)%nat
                  then <[S k := Some (S (length pre))]> cs else cs).
      assert (Hcs' : length cs' = 4%nat).
      { unfold cs'. destruct (S k <? MaxColumns)%nat; [rewrite length_insert|]; exact Hcs. }
      specialize (IH fuel (pre ++ [NUL]) rest cs' (S k)).
      rewrite length_app in IH. cbn [length] in IH.
      replace (length pre + 1)%nat with (S (length pre)) in IH by lia.
      rewrite <- app_assoc in IH. cbn [app] in IH.
      specialize (IH ltac:(lia) Hcs' ltac:(lia)).
      cbv zeta in IH.
      destruct IH as ((l' & Hbuf & Hlen & Hd) & Hidx & Hkeep & Hcols).
      assert (Hf : fields (c :: l2) = [] :: fields l2).
      { apply split_on_cons_sep. exact Ecomma. }
      rewrite Hf. cbv zeta. split; [|split; [|split]].
      * exists (NUL :: l'). rewrite Hbuf. rewrite <- app_assoc. cbn [app].
        split; [reflexivity|]. split; [cbn [length]; lia|].
        intros _. reflexivity.
      * rewrite Hidx. cbn [length]. f_equal. lia.
      * intros j Hj. rewrite Hkeep by lia. unfold cs'.
        destruct (S k <? MaxColumns)%nat; [|reflexivity].
        apply list_lookup_insert_ne. lia.
      * intros m Hm1 Hkm Hm. cbn [length] in Hm.
        destruct (Nat.eq_dec m 1%nat) as [->|Hne].
        -- exists (S (length pre)). split.
           ++ replace (k + 1)%nat with (S k) by lia.
              rewrite Hkeep by lia. unfold cs', MaxColumns.
              destruct (S k <? 4)%nat eqn:E; [|apply Nat.ltb_ge in E; lia].
              apply list_lookup_insert_eq. lia.
           ++ rewrite Hbuf.
              replace (S (length pre)) with (length (pre ++ [NUL]))
                by (rewrite length_app; cbn [length]; lia).
              rewrite cstr_app_here. cbn [nth]. apply Hd. lia.
        -- destruct (Hcols (m - 1)%nat ltac:(lia) ltac:(lia) ltac:(lia))
             as (c' & Hc1 & Hc2).
           exists c'. split.
           ++ replace (k + m)%nat with (S k + (m - 1))%nat by lia. exact Hc1.
           ++ rewrite Hc2. destruct m as [|m]; [lia|]. cbn [nth].
              replace (S m - 1)%nat with m by lia. reflexivity.
    + (* any other character *)
      specialize (IH fuel (pre ++ [c]) rest cs k).
      rewrite length_app in IH. cbn [length] in IH.
      replace (length pre + 1)%nat with (S (length pre)) in IH by lia.
      rewrite <- app_assoc in IH. cbn [app] in IH.
      specialize (IH ltac:(lia) Hcs Hk).
      cbv zeta in IH.
      destruct IH as ((l' & Hbuf & Hlen & Hd) & Hidx & Hkeep & Hcols).
      assert (Hf : fields (c :: l2) =
                   (c :: nth 0 (fields l2) []) :: tl (fields l2)).
      { apply split_on_cons_other. exact Ecomma. }
      assert (Hlf : length (fields (c :: l2)) = length (fields l2)).
      { rewrite Hf. destruct (fields l2); cbn [length tl] in *; lia. }
      cbv zeta. split; [|split; [|split]].
      * exists (c :: l'). rewrite Hbuf. rewrite <- app_assoc. cbn [app].
        split; [reflexivity|]. split; [cbn [length]; lia|].
        intros Hk4. rewrite Hf. cbn [nth until_nul]. rewrite Hc. f_equal.
        apply Hd. exact Hk4.
      * rewrite Hidx, Hlf. reflexivity.
      * exact Hkeep.
      * intros m Hm1 Hkm Hm. rewrite Hlf in Hm.
        destruct (Hcols m Hm1 Hkm Hm) as (c' & Hc1 & Hc2).
        exists c'. split; [exact Hc1|]. rewrite Hc2, Hf.
        destruct m as [|m]; [lia|]. cbn [nth].
        destruct (fields l2); [cbn [length] in Hm; lia | reflexivity].
Qed.

Section RowRefinement.
Context `{Platform}.

(** [ir2hid_parse_lut_line] on a row [l] that sits in the buffer after
    [pre] and is closed by a NUL: the result is [parse_row l], and the
    call changes the buffer inside the row only. *)
Lemma ir2hid_parse_lut_line_spec pre l rest :
  nul_free l ->
  exists l',
    ir2hid_parse_lut_line (pre ++ l ++ NUL :: rest) (length pre)
    = (pre ++ l' ++ NUL :: rest, parse_row l)
    /\ length l' = length l.
Proof.
  intros Hl. unfold ir2hid_parse_lut_line, split_init.
  set (cs := <[0%nat := Some (length pre)]> [None; None; None; None]).
  set (fuel := S (length (pre ++ l ++ NUL :: rest) - length pre)).
  assert (Hfuel : (length l < fuel)%nat).
  { unfold fuel. rewrite !length_app. cbn [length]. lia. }
  pose proof (split_loop_spec l Hl fuel pre rest cs 0%nat Hfuel eq_refl ltac:(lia))
    as Hspec.
  cbv zeta in Hspec.
  destruct Hspec as ((l' & Hbuf & Hlen & Hd) & Hidx & Hkeep & Hcols).
  set (st' := split_loop fuel _) in *.
  exists l'. split; [|exact Hlen].
  rewrite Hbuf. f_equal.
  unfold parse_row.
  destruct (le_lt_dec 4 (length (fields l))) as [Hn|Hn].
  - assert (Hc0 : col st' 0 = Some (length pre)).
    { unfold col. rewrite Hkeep by lia. reflexivity. }
    destruct (Hcols 1%nat ltac:(lia) ltac:(lia) ltac:(lia)) as (c1 & Hc1 & Hs1).
    destruct (Hcols 2%nat ltac:(lia) ltac:(lia) ltac:(lia)) as (c2 & Hc2 & Hs2).
    destruct (Hcols 3%nat ltac:(lia) ltac:(lia) ltac:(lia)) as (c3 & Hc3 & Hs3).
    cbn [Nat.add] in Hc1, Hc2, Hc3.
    rewrite (parse_columns_fields st' (length pre) c1 c2 c3).
    + rewrite Hs1, Hs2, Hs3.
      assert (Hs0 : cstr (sp_buf st') (length pre) = nth 0 (fields l) []).
      { rewrite Hbuf, cstr_app_here. apply Hd. lia. }
      rewrite Hs0.
      destruct (fields l) as [|f0 [|f1 [|f2 [|f3 fs]]]]; cbn [length] in Hn; try lia.
      reflexivity.
    + rewrite Hidx. unfold MaxColumns. lia.
    + exact Hc0.
    + unfold col. rewrite Hc1. reflexivity.
    + unfold col. rewrite Hc2. reflexivity.
    + unfold col. rewrite Hc3. reflexivity.
  - unfold parse_columns.
    assert (E : (sp_col_index st' <? MaxColumns - 1)%nat = true).
    { apply Nat.ltb_lt. rewrite Hidx. unfold MaxColumns. lia. }
    rewrite E.
    destruct (fields l) as [|f0 [|f1 [|f2 [|f3 fs]]]]; cbn [length] in Hn;
      try reflexivity; lia.
Qed.

End RowRefinement.

(** ** Lines of the file *)

Lemma lines_from_split_on sep t : sep t = true -> forall l cur,
  lines_from sep cur (l ++ [t])
  = (cur ++ nth 0 (split_on sep l) []) :: tl (split_on sep l).
Proof.
  intros Ht. induction l as [|c l IH]; intros cur.
  - simpl. rewrite Ht, app_nil_r. reflexivity.
  - cbn [app lines_from]. destruct (sep c) eqn:Ec.
    + rewrite (split_on_cons_sep _ _ _ Ec). cbn [nth tl].
      rewrite app_nil_r, (IH []). cbn [app].
      pose proof (split_on_length sep l).
      destruct (split_on sep l); [cbn [length] in *; lia | reflexivity].
    + rewrite (split_on_cons_other _ _ _ Ec). cbn [nth tl].
      rewrite IH, <- app_assoc. reflexivity.
Qed.

Lemma lines_from_nul_line_end l : forall cur,
  lines_from is_nul cur (map nul_line_end l) = lines_from is_line_end cur l.
Proof.
  induction l as [|c l IH]; intros cur; [reflexivity|].
  cbn [map lines_from]. unfold nul_line_end at 1 2 3.
  destruct (is_line_end c) eqn:Ec.
  - unfold is_nul at 1. rewrite Ascii.eqb_refl, IH. reflexivity.
  - assert (En : is_nul c = false).
    { unfold is_line_end in Ec. unfold is_nul.
      apply orb_false_iff in Ec. tauto. }
    rewrite En, IH. reflexivity.
Qed.

Lemma for_loop_S {St : Type} n i guard body (st : St) :
  guard st = true ->
  for_loop (S n) i guard body st = for_loop n (S i) guard body (body i st).
Proof. intros Hg. cbn [for_loop]. rewrite Hg. reflexivity. Qed.

Lemma for_loop_exit {St : Type} n i guard body (st : St) :
  guard st = false -> for_loop n i guard body st = st.
Proof. intros Hg. destruct n; cbn [for_loop]; [|rewrite Hg]; reflexivity. Qed.

Lemma no_line_end_nul_free l : no_line_end l -> nul_free l.
Proof.
  induction 1 as [|c l Hc _ IH]; constructor; [|exact IH].
  intros ->. unfold is_line_end in Hc.
  rewrite Ascii.eqb_refl, orb_true_r in Hc. discriminate.
Qed.

(** Whether a line is blank is read off its first character. *)
Lemma load_line_start pre0 cur rest :
  nul_free cur ->
  negb (Ascii.eqb (load (pre0 ++ cur ++ NUL :: rest) (length pre0)) NUL)
  = nonblank cur.
Proof.
  intros Hcur. rewrite load_app_here.
  destruct Hcur as [|c cur Hc _]; cbn [app].
  - rewrite load_cons_0. reflexivity.
  - rewrite load_cons_0. apply Ascii.eqb_neq in Hc. rewrite Hc. reflexivity.
Qed.

(** ** The two passes over the buffer *)

Lemma load_mid (pre0 cur : buffer) c l :
  load (pre0 ++ cur ++ c :: l) (length pre0 + length cur) = c.
Proof. rewrite app_assoc, <- length_app, load_app_here. apply load_cons_0. Qed.

Lemma store_mid (pre0 cur : buffer) c l x :
  store (pre0 ++ cur ++ c :: l) (length pre0 + length cur) x
  = pre0 ++ cur ++ x :: l.
Proof.
  rewrite app_assoc, <- length_app, store_app_here, <- app_assoc. reflexivity.
Qed.

Lemma shape_after_end (pre0 cur : buffer) x l :
  (pre0 ++ cur ++ [x]) ++ [] ++ l = pre0 ++ cur ++ x :: l.
Proof. rewrite <- !app_assoc. reflexivity. Qed.

Lemma length_after_end (pre0 cur : buffer) x :
  length (pre0 ++ cur ++ [x]) = S (length pre0 + length cur).
Proof. rewrite !length_app. cbn [length]. lia. Qed.

Lemma shape_after_char (pre0 cur : buffer) c l :
  pre0 ++ (cur ++ [c]) ++ l = pre0 ++ cur ++ c :: l.
Proof. rewrite <- !app_assoc. reflexivity. Qed.

Lemma length_after_char (pre0 cur : buffer) c :
  (length pre0 + length (cur ++ [c]))%nat = S (length pre0 + length cur).
Proof. rewrite length_app. cbn [length]. lia. Qed.

Lemma no_line_end_nil : no_line_end [].
Proof. constructor. Qed.

(** The first pass from a position on: [pre0] holds the lines already
    closed, [cur] the line under way, [l] what is still to be read. *)
Lemma pass1_spec l : forall pre0 cur ln dl i ls buf,
  no_line_end cur ->
  i = (length pre0 + length cur)%nat -> ls = length pre0 ->
  buf = pre0 ++ cur ++ l ->
  let st' :=
    for_loop (length l) i (fun _ => true) pass1_body
      {| p1_buf := buf; p1_line_no := ln;
         p1_data_lines := dl; p1_line_start := ls |} in
  let nb := length (List.filter nonblank (lines_from is_line_end cur l)) in
  p1_buf st' = pre0 ++ cur ++ map nul_line_end l
  /\ p1_line_no st' = (ln + nb)%nat
  /\ p1_data_lines st' = (dl + (if (0 <? ln)%nat then nb else nb - 1))%nat.
Proof.
  induction l as [|c l IH]; intros pre0 cur ln dl i ls buf Hcur -> -> ->;
    cbv zeta.
  - cbn. split; [reflexivity|]. split; [lia|]. destruct ln; lia.
  - cbn [length]. rewrite for_loop_S by reflexivity.
    cbn [lines_from map]. unfold nul_line_end at 1.
    destruct (is_line_end c) eqn:Ec.
    + assert (Hbody :
        pass1_body (length pre0 + length cur)
          {| p1_buf := pre0 ++ cur ++ c :: l; p1_line_no := ln;
             p1_data_lines := dl; p1_line_start := length pre0 |}
        = {| p1_buf := pre0 ++ cur ++ NUL :: l;
             p1_line_no := if nonblank cur then S ln else ln;
             p1_data_lines := if nonblank cur && (0 <? ln)%nat
                              then S dl else dl;
             p1_line_start := S (length pre0 + length cur) |}).
      { unfold pass1_body. cbn [p1_buf p1_line_no p1_data_lines p1_line_start].
        rewrite load_mid, Ec, store_mid.
        rewrite (load_line_start pre0 cur l (no_line_end_nul_free _ Hcur)).
        destruct (nonblank cur); [|reflexivity].
        destruct (0 <? ln)%nat; reflexivity. }
      rewrite Hbody.
      edestruct (IH (pre0 ++ cur ++ [NUL]) []) as (Hb & Hn & Hd);
        [exact no_line_end_nil | | reflexivity | | ].
      { rewrite length_after_end. cbn [length]. rewrite Nat.add_0_r. reflexivity. }
      { rewrite shape_after_end. reflexivity. }
      rewrite shape_after_end in Hb.
      rewrite length_after_end in Hb, Hn, Hd.
      rewrite Hb, Hn, Hd. cbn [List.filter].
      split; [reflexivity|].
      destruct (nonblank cur); cbn [andb length]; [|split; reflexivity].
      split; [lia|]. destruct (0 <? ln)%nat; cbn; lia.
    + assert (Hbody :
        pass1_body (length pre0 + length cur)
          {| p1_buf := pre0 ++ cur ++ c :: l; p1_line_no := ln;
             p1_data_lines := dl; p1_line_start := length pre0 |}
        = {| p1_buf := pre0 ++ cur ++ c :: l; p1_line_no := ln;
             p1_data_lines := dl; p1_line_start := length pre0 |}).
      { unfold pass1_body. cbn [p1_buf]. rewrite load_mid, Ec. reflexivity. }
      rewrite Hbody.
      assert (Hcur' : no_line_end (cur ++ [c])).
      { apply Forall_app. split; [exact Hcur|]. constructor; [exact Ec|constructor]. }
      edestruct (IH pre0 (cur ++ [c])) as (Hb & Hn & Hd);
        [exact Hcur' | | reflexivity | | ].
      { symmetry. apply length_after_char. }
      { symmetry. apply shape_after_char. }
      rewrite shape_after_char in Hb.
      rewrite Hb, Hn, Hd. split; [reflexivity|]. split; reflexivity.
Qed.

Lemma rows_of_S n ls : rows_of (S n) ls = ls.
Proof. reflexivity. Qed.

Lemma length_omap_le {A B} (f : A -> option B) (l : list A) :
  (length (omap f l) <= length l)%nat.
Proof.
  induction l as [|x l IH]; [reflexivity|].
  cbn. destruct (f x); cbn; lia.
Qed.

Lemma take_insert_next {A} (arr : list A) k e :
  (k < length arr)%nat -> take (S k) (<[k := e]> arr) = take k arr ++ [e].
Proof.
  intros Hk. revert k Hk. induction arr as [|x arr IH]; intros k Hk.
  - cbn [length] in Hk. lia.
  - destruct k as [|k]; [reflexivity|].
    cbn [length] in Hk. cbn. f_equal. apply IH. lia.
Qed.

Section SecondPass.
Context `{Platform}.

Lemma pass2_spec l : forall pre0 cur arr k ln i ls buf D,
  nul_free cur ->
  i = (length pre0 + length cur)%nat -> ls = length pre0 ->
  buf = pre0 ++ cur ++ l -> D = length arr ->
  let rows :=
    rows_of ln (List.filter nonblank (lines_from is_nul cur l)) in
  (k + length rows <= D)%nat ->
  let st' :=
    for_loop (length l) i (fun st => (p2_lut_index st <? D)%nat) pass2_body
      {| p2_buf := buf; p2_lut := arr; p2_lut_index := k;
         p2_line_no := ln; p2_line_start := ls |} in
  let E := omap parse_row rows in
  p2_lut_index st' = (k + length E)%nat
  /\ take (k + length E) (p2_lut st') = take k arr ++ E
  /\ length (p2_lut st') = D.
Proof.
  induction l as [|c l IH];
    intros pre0 cur arr k ln i ls buf D Hcur -> -> -> ->; cbv zeta; intros Hroom.
  - cbn [length for_loop lines_from List.filter p2_lut_index p2_lut].
    assert (Hr : rows_of ln [] = []) by (unfold rows_of; destruct (0 <? ln)%nat; reflexivity).
    rewrite Hr. cbn. rewrite Nat.add_0_r, app_nil_r. auto.
  - cbn [length].
    destruct (k <? length arr)%nat eqn:Ek.
    2:{ (* the table is full: nothing is left to parse *)
        apply Nat.ltb_ge in Ek.
        rewrite for_loop_exit by (cbn [p2_lut_index]; apply Nat.ltb_ge; exact Ek).
        cbn [p2_lut_index p2_lut].
        set (rows := rows_of ln _) in *.
        assert (Hrows : rows = []) by (destruct rows; [reflexivity | cbn [length] in Hroom; lia]).
        rewrite Hrows. cbn. rewrite Nat.add_0_r, app_nil_r. auto. }
    apply Nat.ltb_lt in Ek.
    rewrite for_loop_S by (cbn [p2_lut_index]; apply Nat.ltb_lt; exact Ek).
    cbn [lines_from] in Hroom |- *.
    destruct (is_nul c) eqn:Ec.
    + apply Ascii.eqb_eq in Ec. subst c.
      cbn [List.filter] in Hroom |- *.
      destruct (nonblank cur) eqn:Enb.
      * destruct (0 <? ln)%nat eqn:Eln.
        -- (* a data row *)
           destruct (ir2hid_parse_lut_line_spec pre0 cur l Hcur) as (cur' & Hparse & Hlen).
           unfold rows_of in Hroom |- *. rewrite Eln in Hroom |- *.
           cbn [length] in Hroom. cbn [omap list_omap].
           fold (omap parse_row (List.filter nonblank (lines_from is_nul [] l))).
           destruct (parse_row cur) as [e|] eqn:Erow.
           ++ assert (Hbody :
                pass2_body (length pre0 + length cur)
                  {| p2_buf := pre0 ++ cur ++ NUL :: l; p2_lut := arr;
                     p2_lut_index := k; p2_line_no := ln;
                     p2_line_start := length pre0 |}
                = {| p2_buf := pre0 ++ cur' ++ NUL :: l;
                     p2_lut := <[k := e]> arr;
                     p2_lut_index := S k; p2_line_no := S ln;
                     p2_line_start := S (length pre0 + length cur) |}).
              { unfold pass2_body. cbn [p2_buf p2_lut p2_lut_index p2_line_no p2_line_start].
                rewrite load_mid, Ascii.eqb_refl.
                rewrite (load_line_start pre0 cur l Hcur), Enb, Eln, Hparse.
                reflexivity. }
              rewrite Hbody.
              edestruct (IH (pre0 ++ cur' ++ [NUL]) [] (<[k := e]> arr) (S k) (S ln)
                           (S (length pre0 + length cur)) (S (length pre0 + length cur)) (pre0 ++ cur' ++ NUL :: l))
                as (Hi & Ht & Hl);
                [constructor | | | | reflexivity | | ].
              { rewrite length_after_end, Hlen. cbn [length]. lia. }
              { rewrite length_after_end, Hlen. reflexivity. }
              { rewrite shape_after_end. reflexivity. }
              { rewrite rows_of_S, length_insert. lia. }
              rewrite rows_of_S in Hi, Ht.
              rewrite length_insert in *.
              rewrite Hi. cbn [length].
              split; [lia|]. split; [|exact Hl].
              replace (k + S (length (omap parse_row (List.filter nonblank (lines_from is_nul [] l)))))%nat
                with (S k + length (omap parse_row (List.filter nonblank (lines_from is_nul [] l))))%nat by lia.
              rewrite Ht, take_insert_next by exact Ek.
              rewrite <- app_assoc. reflexivity.
           ++ assert (Hbody :
                pass2_body (length pre0 + length cur)
                  {| p2_buf := pre0 ++ cur ++ NUL :: l; p2_lut := arr;
                     p2_lut_index := k; p2_line_no := ln;
                     p2_line_start := length pre0 |}
                = {| p2_buf := pre0 ++ cur' ++ NUL :: l;
                     p2_lut := arr;
                     p2_lut_index := k; p2_line_no := S ln;
                     p2_line_start := S (length pre0 + length cur) |}).
              { unfold pass2_body. cbn [p2_buf p2_lut p2_lut_index p2_line_no p2_line_start].
                rewrite load_mid, Ascii.eqb_refl.
                rewrite (load_line_start pre0 cur l Hcur), Enb, Eln, Hparse.
                reflexivity. }
              rewrite Hbody.
              edestruct (IH (pre0 ++ cur' ++ [NUL]) [] arr k (S ln)
                           (S (length pre0 + length cur)) (S (length pre0 + length cur)) (pre0 ++ cur' ++ NUL :: l))
                as (Hi & Ht & Hl);
                [constructor | | | | reflexivity | | ].
              { rewrite length_after_end, Hlen. cbn [length]. lia. }
              { rewrite length_after_end, Hlen. reflexivity. }
              { rewrite shape_after_end. reflexivity. }
              { rewrite rows_of_S. lia. }
              rewrite rows_of_S in Hi, Ht.
              auto.
        -- (* the header *)
           assert (Hbody :
             pass2_body (length pre0 + length cur)
               {| p2_buf := pre0 ++ cur ++ NUL :: l; p2_lut := arr;
                  p2_lut_index := k; p2_line_no := ln;
                  p2_line_start := length pre0 |}
             = {| p2_buf := pre0 ++ cur ++ NUL :: l;
                  p2_lut := arr;
                  p2_lut_index := k; p2_line_no := S ln;
                  p2_line_start := S (length pre0 + length cur) |}).
           { unfold pass2_body. cbn [p2_buf p2_lut p2_lut_index p2_line_no p2_line_start].
             rewrite load_mid, Ascii.eqb_refl.
             rewrite (load_line_start pre0 cur l Hcur), Enb, Eln.
             reflexivity. }
           rewrite Hbody.
           unfold rows_of in Hroom |- *. rewrite Eln in Hroom |- *.
           cbn [tl] in Hroom |- *.
           edestruct (IH (pre0 ++ cur ++ [NUL]) [] arr k (S ln)
                        (S (length pre0 + length cur)) (S (length pre0 + length cur)) (pre0 ++ cur ++ NUL :: l))
             as (Hi & Ht & Hl);
             [constructor | | | | reflexivity | | ].
           { rewrite length_after_end. cbn [length]. lia. }
           { rewrite length_after_end. reflexivity. }
           { rewrite shape_after_end. reflexivity. }
           { rewrite rows_of_S. exact Hroom. }
           rewrite rows_of_S in Hi, Ht.
           auto.
      * (* a blank line *)
        assert (Hbody :
          pass2_body (length pre0 + length cur)
            {| p2_buf := pre0 ++ cur ++ NUL :: l; p2_lut := arr;
               p2_lut_index := k; p2_line_no := ln;
               p2_line_start := length pre0 |}
          = {| p2_buf := pre0 ++ cur ++ NUL :: l;
               p2_lut := arr;
               p2_lut_index := k; p2_line_no := ln;
               p2_line_start := S (length pre0 + length cur) |}).
        { unfold pass2_body. cbn [p2_buf p2_lut p2_lut_index p2_line_no p2_line_start].
          rewrite load_mid, Ascii.eqb_refl.
          rewrite (load_line_start pre0 cur l Hcur), Enb.
          reflexivity. }
        rewrite Hbody.
        edestruct (IH (pre0 ++ cur ++ [NUL]) [] arr k ln
                     (S (length pre0 + length cur)) (S (length pre0 + length cur)) (pre0 ++ cur ++ NUL :: l))
          as (Hi & Ht & Hl);
          [constructor | | | | reflexivity | | ].
        { rewrite length_after_end. cbn [length]. lia. }
        { rewrite length_after_end. reflexivity. }
        { rewrite shape_after_end. reflexivity. }
        { exact Hroom. }
        auto.
    + assert (Hbody :
        pass2_body (length pre0 + length cur)
          {| p2_buf := pre0 ++ cur ++ c :: l; p2_lut := arr;
             p2_lut_index := k; p2_line_no := ln;
             p2_line_start := length pre0 |}
        = {| p2_buf := pre0 ++ cur ++ c :: l; p2_lut := arr;
             p2_lut_index := k; p2_line_no := ln;
             p2_line_start := length pre0 |}).
      { unfold pass2_body. cbn [p2_buf]. rewrite load_mid.
        unfold is_nul in Ec. rewrite Ec. reflexivity. }
      rewrite Hbody.
      assert (Hcur' : nul_free (cur ++ [c])).
      { apply Forall_app. split; [exact Hcur|].
        constructor; [|constructor]. apply Ascii.eqb_neq. exact Ec. }
      edestruct (IH pre0 (cur ++ [c]) arr k ln
                   (S (length pre0 + length cur)) (length pre0) (pre0 ++ cur ++ c :: l))
        as (Hi & Ht & Hl);
        [exact Hcur' | | reflexivity | | reflexivity | | ].
      { symmetry. apply length_after_char. }
      { symmetry. apply shape_after_char. }
      { exact Hroom. }
      auto.
Qed.

End SecondPass.

(** ** The table a file loads to *)

Lemma lines_from_terminated data :
  lines_from is_line_end [] (data ++ [NUL]) = split_on is_line_end data.
Proof.
  rewrite (lines_from_split_on is_line_end NUL) by reflexivity.
  cbn [app]. pose proof (split_on_length is_line_end data).
  destruct (split_on is_line_end data); [cbn [length] in *; lia | reflexivity].
Qed.

Section Load.
Context `{Platform}.

Lemma load_passes data :
  let st1 := first_pass (data ++ [NUL]) (length data) in
  let st2 := second_pass (p1_buf st1) (length data) (p1_data_lines st1) in
  let E := omap parse_row (data_rows data) in
  p1_data_lines st1 = length (data_rows data)
  /\ p2_lut_index st2 = length E
  /\ take (length E) (p2_lut st2) = E
  /\ length (p2_lut st2) = length (data_rows data).
Proof.
  cbv zeta.
  assert (Hlen : S (length data) = length (data ++ [NUL])).
  { rewrite length_app. cbn [length]. lia. }
  unfold first_pass. rewrite Hlen.
  edestruct (pass1_spec (data ++ [NUL]) [] [] 0%nat 0%nat 0%nat 0%nat (data ++ [NUL]))
    as (Hb & _ & Hd); [constructor | reflexivity | reflexivity | reflexivity |].
  rewrite lines_from_terminated in Hd.
  fold (table_lines data) in Hd. cbn [app Nat.ltb Nat.leb Nat.add] in Hb, Hd.
  assert (Hrows : length (data_rows data) = (length (table_lines data) - 1)%nat).
  { unfold data_rows. destruct (table_lines data); cbn [tl length]; lia. }
  rewrite Hd, Hb, <- Hrows.
  split; [reflexivity|].
  unfold second_pass. rewrite Hlen.
  rewrite <- (length_map nul_line_end (data ++ [NUL])).
  edestruct (pass2_spec (map nul_line_end (data ++ [NUL])) [] []
               (replicate (length (data_rows data)) zero_entry)
               0%nat 0%nat 0%nat 0%nat (map nul_line_end (data ++ [NUL]))
               (length (data_rows data)))
    as (Hi & Ht & Hl);
    [constructor | reflexivity | reflexivity | reflexivity
     | symmetry; apply length_replicate | | ].
  { rewrite lines_from_nul_line_end, lines_from_terminated.
    unfold rows_of. cbn [Nat.ltb Nat.leb Nat.add].
    fold (table_lines data). fold (data_rows data). lia. }
  rewrite lines_from_nul_line_end, lines_from_terminated in Hi, Ht.
  unfold rows_of in Hi, Ht. cbn [Nat.ltb Nat.leb Nat.add] in Hi, Ht.
  fold (table_lines data) in Hi, Ht. fold (data_rows data) in Hi, Ht.
  cbn [take app] in Ht.
  auto.
Qed.

(** The successful load: the file opens, its size is within the
    bound and both allocations succeed.  The table is then the rows
    of the file that parse, in the order of the file. *)
Lemma ir2hid_load_lut_table fs file app :
  storage_file_open fs = Some file ->
  0 < storage_file_size file <= 8192 ->
  malloc_buf fs = true -> malloc_lut fs = true ->
  lut app = None ->
  let app' := fst (ir2hid_load_lut fs app) in
  table app'
  = omap parse_row
      (data_rows (storage_file_read file (Z.to_nat (storage_file_size file))))
  /\ wf_app app'.
Proof.
  intros Hopen Hsize Hbuf Hlut Hnone. cbv zeta.
  unfold ir2hid_load_lut. rewrite Hopen, Hbuf, Hlut.
  destruct (storage_file_size file =? 0) eqn:E0; [apply Z.eqb_eq in E0; lia|].
  destruct (8192 <? storage_file_size file) eqn:E1; [apply Z.ltb_lt in E1; lia|].
  cbn [orb negb].
  set (data := storage_file_read file (Z.to_nat (storage_file_size file))).
  destruct (load_passes data) as (Hd & Hi & Ht & Hl). cbv zeta in Hd, Hi, Ht, Hl.
  destruct (p1_data_lines (first_pass (data ++ [NUL]) (length data)) =? 0)%nat eqn:ED.
  - apply Nat.eqb_eq in ED. cbn [fst].
    unfold table, wf_app. rewrite Hnone.
    rewrite ED in Hd. destruct (data_rows data); [|cbn [length] in Hd; lia].
    split; [reflexivity | exact I].
  - cbn [fst]. unfold table, wf_app, set_lut. cbn [lut lut_count].
    rewrite Hi. split; [exact Ht|].
    rewrite Hl. apply length_omap_le.
Qed.

End Load.

(** ** Lookup *)

Lemma lookup_loop_find n : forall i arr msg,
  (i + n <= length arr)%nat ->
  lookup_loop n i arr msg = find_hid (take n (drop i arr)) msg.
Proof.
  induction n as [|n IH]; intros i arr msg Hn; [reflexivity|].
  cbn [lookup_loop].
  destruct (arr !! i) as [e|] eqn:Ei.
  2:{ apply lookup_ge_None in Ei. lia. }
  rewrite (drop_S _ _ _ Ei). cbn [default from_option id take find_hid].
  destruct (same_signature (ir e) msg); [reflexivity|].
  apply IH. lia.
Qed.

Lemma ir2hid_lookup_hid_code_table app msg :
  wf_app app -> ir2hid_lookup_hid_code app msg = find_hid (table app) msg.
Proof.
  unfold wf_app, ir2hid_lookup_hid_code, table.
  destruct (lut app) as [arr|]; [|reflexivity].
  intros Hwf. destruct (lut_count app =? 0)%nat eqn:E.
  - apply Nat.eqb_eq in E. rewrite E. reflexivity.
  - rewrite lookup_loop_find by lia. reflexivity.
Qed.

Lemma find_hid_first t1 e t2 msg :
  Forall (fun e' => same_signature (ir e') msg = false) t1 ->
  same_signature (ir e) msg = true ->
  find_hid (t1 ++ e :: t2) msg = Some (hid_code e).
Proof.
  induction 1 as [|e' t1 He' _ IH]; intros He; cbn [app find_hid].
  - rewrite He. reflexivity.
  - rewrite He'. apply IH. exact He.
Qed.

Lemma find_hid_none t msg :
  Forall (fun e' => same_signature (ir e') msg = false) t ->
  find_hid t msg = None.
Proof.
  induction 1 as [|e' t He' _ IH]; cbn [find_hid]; [reflexivity|].
  rewrite He'. exact IH.
Qed.

(** ** What the display stores leave alone *)

Lemma exec_frame a app :
  lut (exec a app) = lut app /\ lut_count (exec a app) = lut_count app
  /\ usb_hid_active (exec a app) = usb_hid_active app
  /\ last_proto (exec a app) = last_proto app
  /\ last_addr (exec a app) = last_addr app
  /\ last_cmd (exec a app) = last_cmd app
  /\ last_tick (exec a app) = last_tick app.
Proof. destruct a; cbn; auto 10. Qed.

Lemma run_frame acts : forall app,
  lut (run acts app) = lut app /\ lut_count (run acts app) = lut_count app
  /\ usb_hid_active (run acts app) = usb_hid_active app
  /\ last_proto (run acts app) = last_proto app
  /\ last_addr (run acts app) = last_addr app
  /\ last_cmd (run acts app) = last_cmd app
  /\ last_tick (run acts app) = last_tick app.
Proof.
  induction acts as [|a acts IH]; intros app; [cbn; auto 10|].
  cbn [run fold_left]. fold (run acts (exec a app)).
  destruct (IH (exec a app)) as (-> & -> & -> & -> & -> & -> & ->).
  apply exec_frame.
Qed.

Lemma table_frame app app' :
  lut app' = lut app -> lut_count app' = lut_count app ->
  table app' = table app /\ (wf_app app -> wf_app app').
Proof. unfold table, wf_app. intros -> ->. auto. Qed.

Section LoadFrame.
Context `{Platform}.

(** Whatever the storage answers, the count stays inside the array. *)
Lemma ir2hid_load_lut_wf fs app :
  wf_app app -> wf_app (fst (ir2hid_load_lut fs app)).
Proof.
  intros Hwf. unfold ir2hid_load_lut.
  destruct (storage_file_open fs) as [file|].
  2:{ cbn [perform fst].
      destruct (run_frame
        [MutexAcquire; StoreTextProto (strlcpy TEXT_SIZE "lut.csv not found");
         StoreTextAddr ""; StoreTextCmd ""; StoreHasSignal true; MutexRelease]
        app) as (Hl & Hc & _).
      apply (table_frame _ _ Hl Hc). exact Hwf. }
  destruct ((storage_file_size file =? 0) || (8192 <? storage_file_size file));
    [exact Hwf|].
  destruct (negb (malloc_buf fs)); [exact Hwf|].
  set (data := storage_file_read file (Z.to_nat (storage_file_size file))).
  destruct (load_passes data) as (Hd & Hi & Ht & Hl). cbv zeta in Hd, Hi, Ht, Hl.
  destruct (p1_data_lines (first_pass (data ++ [NUL]) (length data)) =? 0)%nat;
    [exact Hwf|].
  destruct (negb (malloc_lut fs)); [exact Hwf|].
  cbn [fst]. unfold wf_app, set_lut. cbn [lut lut_count].
  rewrite Hi, Hl. apply length_omap_le.
Qed.

(** C2.  In a loaded table that holds two entries with the signature
    of [msg] and different HID codes, the lookup of [msg] returns the
    HID code of the earliest entry with that signature, and never the
    code of the later one. *)
Theorem lookup_first_entry_wins fs app0 t1 e1 t2 e2 t3 msg :
  wf_app app0 ->
  table (fst (ir2hid_load_lut fs app0)) = t1 ++ e1 :: t2 ++ e2 :: t3 ->
  Forall (fun e => same_signature (ir e) msg = false) t1 ->
  same_signature (ir e1) msg = true ->
  same_signature (ir e2) msg = true ->
  hid_code e1 <> hid_code e2 ->
  ir2hid_lookup_hid_code (fst (ir2hid_load_lut fs app0)) msg = Some (hid_code e1)
  /\ ir2hid_lookup_hid_code (fst (ir2hid_load_lut fs app0)) msg
     <> Some (hid_code e2).
Proof.
  intros Hwf Ht Ht1 He1 He2 Hne.
  rewrite ir2hid_lookup_hid_code_table by (apply ir2hid_load_lut_wf; exact Hwf).
  rewrite Ht, (find_hid_first t1 e1 _ msg Ht1 He1).
  split; [reflexivity|]. intros Heq. apply Hne. congruence.
Qed.

End LoadFrame.

(** ** Formatting *)

Lemma string_length_app (a b : string) :
  String.length (a ++ b)%string = (String.length a + String.length b)%nat.
Proof. induction a as [|c a IH]; cbn; [reflexivity | rewrite IH; reflexivity]. Qed.

Lemma substring_all (s : string) n :
  (String.length s <= n)%nat -> String.substring 0 n s = s.
Proof.
  revert n. induction s as [|c s IH]; intros n Hn.
  - destruct n; reflexivity.
  - destruct n as [|n]; cbn [String.length] in Hn; [lia|].
    cbn. rewrite IH by lia. reflexivity.
Qed.

Lemma strlcpy_fits size (s : string) :
  (String.length s < size)%nat -> strlcpy size s = s.
Proof. intros Hs. unfold strlcpy. apply substring_all. lia. Qed.

Lemma strlcpy_length size (s : string) :
  (String.length (strlcpy size s) <= size - 1)%nat.
Proof.
  unfold strlcpy. generalize (size - 1)%nat. intros n. revert n.
  induction s as [|c s IH]; intros n.
  - destruct n; cbn; lia.
  - destruct n as [|n]; cbn; [lia|]. specialize (IH n). lia.
Qed.

Lemma hex_upper_length fuel : forall v acc,
  (String.length (hex_upper fuel v acc) <= fuel + String.length acc)%nat.
Proof.
  induction fuel as [|fuel IH]; intros v acc; cbn [hex_upper]; [lia|].
  destruct (v / 16 =? 0).
  - cbn [String.length]. lia.
  - specialize (IH (v / 16) (String (hex_digit_upper (v mod 16)) acc)).
    cbn [String.length] in IH. lia.
Qed.

Lemma zeros_length n : String.length (zeros n) = n.
Proof. induction n as [|n IH]; cbn; [reflexivity | rewrite IH; reflexivity]. Qed.

Lemma fmt_0X_length w v :
  (w <= 8)%nat -> (String.length (fmt_0X w v) <= 8)%nat.
Proof.
  intros Hw. unfold fmt_0X. rewrite string_length_app, zeros_length.
  pose proof (hex_upper_length 8 v EmptyString) as Hd. cbn [String.length] in Hd.
  lia.
Qed.

Section Consumer.
Context `{Platform}.

(** The no-map line always fits the 32-byte field: nothing of it is
    cut off. *)
Lemma fmt_cmd_no_map_exact msg :
  strlcpy TEXT_SIZE (fmt_cmd_no_map msg)
  = ("Cmd:0x" ++ fmt_0X 4 (command msg) ++ " (no map)")%string.
Proof.
  unfold fmt_cmd_no_map, snprintf.
  pose proof (fmt_0X_length 4 (command msg) ltac:(lia)) as Hl.
  assert (Hfit : (String.length ("Cmd:0x" ++ fmt_0X 4 (command msg) ++ " (no map)")%string
                  < TEXT_SIZE)%nat).
  { rewrite !string_length_app. cbn [String.length]. unfold TEXT_SIZE. lia. }
  rewrite !strlcpy_fits; [reflexivity | exact Hfit |].
  rewrite strlcpy_fits; exact Hfit.
Qed.

(** The matched line fits as well. *)
Lemma fmt_cmd_hid_exact msg hid :
  strlcpy TEXT_SIZE (fmt_cmd_hid msg hid)
  = ("Cmd:0x" ++ fmt_0X 4 (command msg) ++ " HID:0x" ++ fmt_0X 2 hid)%string.
Proof.
  unfold fmt_cmd_hid, snprintf.
  pose proof (fmt_0X_length 4 (command msg) ltac:(lia)) as Hl.
  pose proof (fmt_0X_length 2 hid ltac:(lia)) as Hh.
  assert (Hfit : (String.length ("Cmd:0x" ++ fmt_0X 4 (command msg)
                                 ++ " HID:0x" ++ fmt_0X 2 hid)%string
                  < TEXT_SIZE)%nat).
  { rewrite !string_length_app. cbn [String.length]. unfold TEXT_SIZE. lia. }
  rewrite !strlcpy_fits; [reflexivity | exact Hfit |].
  rewrite strlcpy_fits; exact Hfit.
Qed.

Lemma run_app l1 l2 app : run (l1 ++ l2) app = run l2 (run l1 app).
Proof. unfold run. apply fold_left_app. Qed.

Lemma run_hid_tap app0 env c app : run (hid_tap app0 env c) app = app.
Proof.
  unfold hid_tap. destruct (usb_hid_active app0 && furi_hal_hid_is_connected env);
    reflexivity.
Qed.

Lemma run_display_update tp ta tc app :
  display (run (display_update tp ta tc) app)
  = (strlcpy TEXT_SIZE tp, strlcpy TEXT_SIZE ta, strlcpy TEXT_SIZE tc, true).
Proof. reflexivity. Qed.

(** An accepted signal, step by step: the debounce record is set, the
    table is searched, a matched code is tapped, the display is
    rewritten under the mutex and a redraw is asked for. *)
Lemma on_ir_signal_accepted env msg app :
  repeat msg = false ->
  debounced app msg (furi_get_tick env) = false ->
  let app1 := set_last msg (furi_get_tick env) app in
  let tc := match ir2hid_lookup_hid_code app1 msg with
            | Some hid_code => fmt_cmd_hid msg hid_code
            | None => fmt_cmd_no_map msg
            end in
  let hid := match ir2hid_lookup_hid_code app1 msg with
             | Some hid_code => hid_tap app1 env hid_code
             | None => []
             end in
  on_ir_signal env msg app
  = perform (hid ++ display_update (fmt_proto msg) (fmt_addr msg) tc) app1.
Proof.
  intros Hr Hd. unfold on_ir_signal. rewrite Hr, Hd. cbv zeta.
  destruct (ir2hid_lookup_hid_code _ msg); reflexivity.
Qed.

Lemma on_ir_signal_display env msg app :
  repeat msg = false ->
  debounced app msg (furi_get_tick env) = false ->
  display (fst (on_ir_signal env msg app))
  = (strlcpy TEXT_SIZE (fmt_proto msg), strlcpy TEXT_SIZE (fmt_addr msg),
     strlcpy TEXT_SIZE
       match ir2hid_lookup_hid_code app msg with
       | Some hid_code => fmt_cmd_hid msg hid_code
       | None => fmt_cmd_no_map msg
       end,
     true).
Proof.
  intros Hr Hd. rewrite (on_ir_signal_accepted env msg app Hr Hd). cbv zeta.
  change (ir2hid_lookup_hid_code (set_last msg (furi_get_tick env) app) msg)
    with (ir2hid_lookup_hid_code app msg).
  cbn [perform fst]. rewrite run_app.
  destruct (ir2hid_lookup_hid_code app msg).
  - rewrite run_hid_tap. apply run_display_update.
  - apply run_display_update.
Qed.

Lemma set_last_lookup msg now app m :
  ir2hid_lookup_hid_code (set_last msg now app) m = ir2hid_lookup_hid_code app m.
Proof. reflexivity. Qed.

Lemma perform_frame acts app :
  lut (fst (perform acts app)) = lut app
  /\ lut_count (fst (perform acts app)) = lut_count app
  /\ usb_hid_active (fst (perform acts app)) = usb_hid_active app
  /\ last_proto (fst (perform acts app)) = last_proto app
  /\ last_addr (fst (perform acts app)) = last_addr app
  /\ last_cmd (fst (perform acts app)) = last_cmd app
  /\ last_tick (fst (perform acts app)) = last_tick app.
Proof. apply run_frame. Qed.

Lemma on_ir_signal_lut env msg app :
  lut (fst (on_ir_signal env msg app)) = lut app
  /\ lut_count (fst (on_ir_signal env msg app)) = lut_count app.
Proof.
  unfold on_ir_signal. destruct (repeat msg); [auto|].
  destruct (debounced app msg (furi_get_tick env)); [auto|]. cbv zeta.
  destruct (ir2hid_lookup_hid_code _ msg);
    match goal with
    | |- context [perform ?a ?b] =>
        destruct (perform_frame a b) as (-> & -> & _)
    end; auto.
Qed.

Lemma loop_body_lut env event app :
  lut (fst (fst (loop_body env event app))) = lut app
  /\ lut_count (fst (fst (loop_body env event app))) = lut_count app.
Proof.
  destruct event as [|input|msg]; cbn [loop_body].
  - auto.
  - destruct ((key input =? InputKeyBack) && (type input =? InputTypeShort)); auto.
  - pose proof (on_ir_signal_lut env msg app) as Hl.
    destruct (on_ir_signal env msg app). exact Hl.
Qed.

(** The loop never touches the table. *)
Lemma main_loop_lut events : forall app,
  lut (fst (main_loop events app)) = lut app
  /\ lut_count (fst (main_loop events app)) = lut_count app.
Proof.
  induction events as [|[env event] events IH]; intros app; [cbn; auto|].
  cbn [main_loop].
  pose proof (loop_body_lut env event app) as Hb.
  destruct (loop_body env event app) as [[app' acts] running]. cbn [fst] in Hb.
  destruct running; [|exact Hb].
  specialize (IH app'). destruct (main_loop events app') as [app'' acts'].
  cbn [fst] in IH |- *. destruct IH as (-> & ->). exact Hb.
Qed.

End Consumer.

(** ** Debounce and display *)

(** The 32-bit difference is the number of ticks that went by, as
    long as fewer than [2 ^ 32] did, also when the counter wrapped in
    between. *)
Lemma ticks_since_elapsed last elapsed :
  0 <= last < UINT32_MOD -> 0 <= elapsed < UINT32_MOD ->
  ticks_since ((last + elapsed) mod UINT32_MOD) last = elapsed.
Proof.
  intros Hl He. unfold ticks_since.
  rewrite Zminus_mod_idemp_l.
  replace (last + elapsed - last) with elapsed by lia.
  apply Z.mod_small. exact He.
Qed.

Section ConsumerClaims.
Context `{Platform}.

(** C4.  A signal whose repeat flag is set is rejected whatever the
    stored signature, the stored tick and the clock are: the record is
    left as it was (debounce fields and display included), no HID
    action, no store and no redraw happen, and the loop goes on. *)
Theorem repeat_frame_rejected env msg app :
  repeat msg = true ->
  rejected env msg app
  /\ loop_body env (EventTypeIRSignal msg) app = (app, [], true).
Proof.
  intros Hr. unfold rejected, loop_body, on_ir_signal. rewrite Hr. auto.
Qed.

(** C3.  For a signal that is no repeat frame and has the stored
    signature: when the ticks since the stored tick (the 32-bit
    difference the program computes) are fewer than the ticks of 5
    milliseconds it is rejected, otherwise it passes the debounce
    check; and every signal that passes is stored as the last seen
    signature, with the current tick as the stored tick. *)
Theorem debounce_same_signature env msg app :
  repeat msg = false ->
  let now := furi_get_tick env in
  let elapsed := ticks_since now (last_tick app) in
  (same_as_last app msg -> elapsed < furi_ms_to_ticks 5 ->
   rejected env msg app)
  /\ (same_as_last app msg -> furi_ms_to_ticks 5 <= elapsed ->
      debounced app msg now = false)
  /\ (debounced app msg now = false ->
      let app' := fst (on_ir_signal env msg app) in
      last_proto app' = protocol msg /\ last_addr app' = address msg
      /\ last_cmd app' = command msg /\ last_tick app' = now
      /\ has_signal app' = true
      /\ In ViewPortUpdate (snd (on_ir_signal env msg app))).
Proof.
  intros Hr. cbv zeta. split; [|split].
  - intros (Hp & Ha & Hc) Hlt. unfold rejected, on_ir_signal. rewrite Hr.
    unfold debounced. rewrite Hp, Ha, Hc, !Z.eqb_refl.
    apply Z.ltb_lt in Hlt. rewrite Hlt. reflexivity.
  - intros _ Hge. unfold debounced. apply Z.ltb_ge in Hge. rewrite Hge.
    apply andb_false_r.
  - intros Hd.
    pose proof (on_ir_signal_display env msg app Hr Hd) as Hdisp.
    unfold display in Hdisp. injection Hdisp as _ _ _ Hhs.
    rewrite (on_ir_signal_accepted env msg app Hr Hd) in Hhs |- *. cbv zeta.
    match goal with
    | |- context [perform ?a ?b] =>
        destruct (perform_frame a b) as (_ & _ & _ & -> & -> & -> & ->)
    end.
    cbn [set_last last_proto last_addr last_cmd last_tick].
    repeat (split; [reflexivity|]).
    split; [exact Hhs|].
    cbn [perform snd]. apply in_or_app. right. unfold display_update. cbn. tauto.
Qed.

(** C10.  A signal that passes the repeat check and the debounce check:
    after the HID actions of a match, if any, the mutex is taken, the
    three text fields and the flag are stored, the mutex is released
    and the redraw is asked for, match or no match; without a match no
    HID action happens and the command line ends in the no-map note. *)
Theorem accepted_signal_updates_display env msg app :
  repeat msg = false ->
  debounced app msg (furi_get_tick env) = false ->
  exists hid_acts tp ta tc,
    snd (on_ir_signal env msg app)
    = hid_acts ++ [MutexAcquire; StoreTextProto tp; StoreTextAddr ta;
                   StoreTextCmd tc; StoreHasSignal true; MutexRelease;
                   ViewPortUpdate]
    /\ Forall is_hid_action hid_acts
    /\ display (fst (on_ir_signal env msg app)) = (tp, ta, tc, true)
    /\ tp = strlcpy TEXT_SIZE (fmt_proto msg)
    /\ ta = strlcpy TEXT_SIZE (fmt_addr msg)
    /\ (ir2hid_lookup_hid_code app msg = None ->
        hid_acts = []
        /\ tc = ("Cmd:0x" ++ fmt_0X 4 (command msg) ++ " (no map)")%string)
    /\ (forall hid, ir2hid_lookup_hid_code app msg = Some hid ->
        tc = ("Cmd:0x" ++ fmt_0X 4 (command msg)
              ++ " HID:0x" ++ fmt_0X 2 hid)%string).
Proof.
  intros Hr Hd. rewrite (on_ir_signal_accepted env msg app Hr Hd). cbv zeta.
  rewrite set_last_lookup.
  set (app1 := set_last msg (furi_get_tick env) app).
  destruct (ir2hid_lookup_hid_code app msg) as [hid|] eqn:El.
  - exists (hid_tap app1 env hid), (strlcpy TEXT_SIZE (fmt_proto msg)),
      (strlcpy TEXT_SIZE (fmt_addr msg)), (strlcpy TEXT_SIZE (fmt_cmd_hid msg hid)).
    split; [reflexivity|]. split.
    { unfold hid_tap. destruct (usb_hid_active app1 && furi_hal_hid_is_connected env);
        repeat constructor. }
    split.
    { cbn [perform fst]. rewrite run_app, run_hid_tap. apply run_display_update. }
    split; [reflexivity|]. split; [reflexivity|]. split; [discriminate|].
    intros hid' [= <-]. apply fmt_cmd_hid_exact.
  - exists [], (strlcpy TEXT_SIZE (fmt_proto msg)),
      (strlcpy TEXT_SIZE (fmt_addr msg)), (strlcpy TEXT_SIZE (fmt_cmd_no_map msg)).
    split; [reflexivity|]. split; [constructor|].
    split; [apply run_display_update|].
    split; [reflexivity|]. split; [reflexivity|]. split; [|discriminate].
    intros _. split; [reflexivity | apply fmt_cmd_no_map_exact].
Qed.

(** C9, as the code has it.  A matched signal that is handled while
    the transport is inactive or no host is connected: no press and no
    release happen, the display is rewritten with the match (command
    and HID code), and what is written is what would be written with a
    host: the display state holds no trace of the missing host. *)
Theorem matched_signal_without_host env msg app hid :
  repeat msg = false ->
  debounced app msg (furi_get_tick env) = false ->
  ir2hid_lookup_hid_code app msg = Some hid ->
  usb_hid_active app && furi_hal_hid_is_connected env = false ->
  snd (on_ir_signal env msg app)
  = [MutexAcquire;
     StoreTextProto (strlcpy TEXT_SIZE (fmt_proto msg));
     StoreTextAddr (strlcpy TEXT_SIZE (fmt_addr msg));
     StoreTextCmd ("Cmd:0x" ++ fmt_0X 4 (command msg)
                   ++ " HID:0x" ++ fmt_0X 2 hid)%string;
     StoreHasSignal true; MutexRelease; ViewPortUpdate]
  /\ display (fst (on_ir_signal env msg app))
     = (strlcpy TEXT_SIZE (fmt_proto msg), strlcpy TEXT_SIZE (fmt_addr msg),
        ("Cmd:0x" ++ fmt_0X 4 (command msg) ++ " HID:0x" ++ fmt_0X 2 hid)%string,
        true)
  /\ (forall connected,
        display (fst (on_ir_signal (with_host connected env) msg app))
        = display (fst (on_ir_signal env msg app))).
Proof.
  intros Hr Hd Hl Hhost.
  assert (Hshow : forall env', furi_get_tick env' = furi_get_tick env ->
    display (fst (on_ir_signal env' msg app))
    = (strlcpy TEXT_SIZE (fmt_proto msg), strlcpy TEXT_SIZE (fmt_addr msg),
       ("Cmd:0x" ++ fmt_0X 4 (command msg) ++ " HID:0x" ++ fmt_0X 2 hid)%string,
       true)).
  { intros env' Ht. rewrite <- Ht in Hd.
    rewrite (on_ir_signal_accepted env' msg app Hr Hd). cbv zeta.
    rewrite set_last_lookup, Hl. cbn [perform fst].
    rewrite run_app, run_hid_tap, run_display_update, fmt_cmd_hid_exact.
    reflexivity. }
  split; [|split].
  - rewrite (on_ir_signal_accepted env msg app Hr Hd). cbv zeta.
    rewrite set_last_lookup, Hl. cbn [perform snd].
    unfold hid_tap. cbn [set_last usb_hid_active]. rewrite Hhost.
    cbn [List.app]. unfold display_update. rewrite fmt_cmd_hid_exact. reflexivity.
  - apply Hshow. reflexivity.
  - intros connected. rewrite (Hshow env eq_refl). apply Hshow. reflexivity.
Qed.

End ConsumerClaims.

(** ** Rows and columns standing alone *)

Lemma split_on_Forall (P : ascii -> Prop) sep l :
  Forall P l -> Forall (Forall P) (split_on sep l).
Proof.
  induction 1 as [|c l Hc Hl IH]; [repeat constructor|].
  cbn [split_on]. destruct (sep c).
  - constructor; [constructor | exact IH].
  - destruct (split_on sep l) as [|f fs]; [repeat constructor; exact Hc|].
    inversion IH; subst. constructor; [constructor; assumption | assumption].
Qed.

Lemma split_on_no_sep sep l :
  Forall (Forall (fun c => sep c = false)) (split_on sep l).
Proof.
  induction l as [|c l IH]; [repeat constructor|].
  cbn [split_on]. destruct (sep c) eqn:Ec.
  - constructor; [constructor | exact IH].
  - destruct (split_on sep l) as [|f fs]; [repeat constructor; exact Ec|].
    inversion IH; subst. constructor; [constructor; assumption | assumption].
Qed.

Lemma Forall_nth_nil {A} (P : list A -> Prop) (ls : list (list A)) k :
  P [] -> Forall P ls -> P (nth k ls []).
Proof.
  intros Hnil Hls. revert k. induction Hls as [|x ls Hx _ IH]; intros k.
  - destruct k; exact Hnil.
  - destruct k; [exact Hx | apply IH].
Qed.

Lemma fields_nul_free l k : nul_free l -> nul_free (nth k (fields l) []).
Proof.
  intros Hl. apply (Forall_nth_nil nul_free); [constructor|].
  apply split_on_Forall. exact Hl.
Qed.

Lemma data_rows_nul_free data : Forall nul_free (data_rows data).
Proof.
  assert (Hall : Forall nul_free (split_on is_line_end data)).
  { eapply Forall_impl; [apply split_on_no_sep|].
    intros l. apply no_line_end_nul_free. }
  assert (Hfil : Forall nul_free (table_lines data)).
  { unfold table_lines. induction Hall as [|x ls Hx _ IH]; cbn [List.filter];
      [constructor|]. destruct (nonblank x); [constructor; assumption | assumption]. }
  unfold data_rows. destruct Hfil; [constructor | assumption].
Qed.

Lemma omap_ext_Forall {A B} (f g : A -> option B) (l : list A) :
  Forall (fun x => f x = g x) l -> omap f l = omap g l.
Proof.
  induction 1 as [|x l Hx _ IH]; [reflexivity|].
  cbn. rewrite Hx, IH. reflexivity.
Qed.

Lemma column_value_spec f :
  nul_free f -> column_value f = hex_u32 (strip_hex_prefix f).
Proof.
  intros Hf. unfold column_value.
  rewrite ir2hid_parse_hex_u32_cstr, ir2hid_strip_hex_prefix_cstr.
  change (cstr (f ++ [NUL]) 0) with (until_nul (f ++ [NUL])).
  rewrite until_nul_terminated by exact Hf. reflexivity.
Qed.

Lemma hex_acc_none l : forall v,
  hex_acc l v = None <-> Exists not_hex l.
Proof.
  induction l as [|c l IH]; intros v; cbn [hex_acc].
  - split; [discriminate | intros Hex; inversion Hex].
  - destruct (hex_char_to_hex_nibble c) as [n|] eqn:En.
    + rewrite IH. split; [intros Hex; right; exact Hex|].
      intros Hex. inversion Hex as [? ? Hc|]; subst; [|assumption].
      unfold not_hex in Hc. congruence.
    + split; [intros _; left; exact En | reflexivity].
Qed.

Lemma hex_u32_bad l : l = [] \/ Exists not_hex l -> hex_u32 l = None.
Proof.
  intros [->|Hex]; [reflexivity|].
  unfold hex_u32. destruct l; [reflexivity|]. apply hex_acc_none. exact Hex.
Qed.

Lemma hex_u32_none_inv l :
  hex_u32 l = None -> l = [] \/ Exists not_hex l.
Proof.
  unfold hex_u32. destruct l as [|c l]; [left; reflexivity|].
  intros Hn. right. apply (hex_acc_none (c :: l) 0). exact Hn.
Qed.

Section RowsAlone.
Context `{Platform}.

Lemma parse_alone_row l : nul_free l -> parse_alone l = parse_row l.
Proof.
  intros Hl. unfold parse_alone.
  destruct (ir2hid_parse_lut_line_spec [] l [] Hl) as (l' & Hp & _).
  cbn [app length] in Hp. rewrite Hp. reflexivity.
Qed.

Lemma parse_row_fields l :
  (4 <= length (fields l))%nat ->
  parse_row l = parse_fields (nth 0 (fields l) []) (nth 1 (fields l) [])
                             (nth 2 (fields l) []) (nth 3 (fields l) []).
Proof.
  intros Hn. unfold parse_row.
  destruct (fields l) as [|f0 [|f1 [|f2 [|f3 fs]]]]; cbn [length] in Hn;
    try lia. reflexivity.
Qed.

Lemma parse_row_short l : (length (fields l) < 4)%nat -> parse_row l = None.
Proof.
  intros Hn. unfold parse_row.
  destruct (fields l) as [|f0 [|f1 [|f2 [|f3 fs]]]]; cbn [length] in Hn;
    try reflexivity. lia.
Qed.

Lemma parse_row_malformed l : row_malformed l -> parse_row l = None.
Proof.
  intros Hbad.
  destruct (le_lt_dec 4 (length (fields l))) as [Hn|Hn];
    [|apply parse_row_short; exact Hn].
  rewrite (parse_row_fields l Hn). unfold parse_fields.
  destruct Hbad as [Hs|[Hp|[Ha|[Hc|Hh]]]].
  - lia.
  - rewrite Hp. reflexivity.
  - destruct (negb _); [reflexivity|].
    rewrite (hex_u32_bad _ Ha). reflexivity.
  - destruct (negb _); [reflexivity|].
    destruct (hex_u32 (strip_hex_prefix (nth 1 (fields l) []))); [|reflexivity].
    rewrite (hex_u32_bad _ Hc). reflexivity.
  - destruct (negb _); [reflexivity|].
    destruct (hex_u32 (strip_hex_prefix (nth 1 (fields l) []))); [|reflexivity].
    destruct (hex_u32 (strip_hex_prefix (nth 2 (fields l) []))); [|reflexivity].
    rewrite (hex_u32_bad _ Hh). reflexivity.
Qed.

Lemma parse_row_well_formed l :
  ~ row_malformed l ->
  (forall h, hex_u32 (strip_hex_prefix (nth 3 (fields l) [])) = Some h ->
             h <= 255) ->
  exists e, parse_row l = Some e.
Proof.
  intros Hwf Hfit.
  assert (Hn : (4 <= length (fields l))%nat).
  { destruct (le_lt_dec 4 (length (fields l))) as [Hn|Hn]; [exact Hn|].
    exfalso. apply Hwf. left. exact Hn. }
  rewrite (parse_row_fields l Hn). unfold parse_fields.
  destruct (infrared_is_protocol_valid _) eqn:Ev.
  2:{ exfalso. apply Hwf. right. left. exact Ev. }
  cbn [negb].
  destruct (hex_u32 (strip_hex_prefix (nth 1 (fields l) []))) as [a|] eqn:Ea.
  2:{ exfalso. apply Hwf. right. right. left.
      apply hex_u32_none_inv. exact Ea. }
  destruct (hex_u32 (strip_hex_prefix (nth 2 (fields l) []))) as [c|] eqn:Ec.
  2:{ exfalso. apply Hwf. right. right. right. left.
      apply hex_u32_none_inv. exact Ec. }
  destruct (hex_u32 (strip_hex_prefix (nth 3 (fields l) []))) as [h|] eqn:Eh.
  2:{ exfalso. apply Hwf. right. right. right. right.
      apply hex_u32_none_inv. exact Eh. }
  specialize (Hfit h eq_refl). apply Z.ltb_ge in Hfit. rewrite Hfit.
  eexists. reflexivity.
Qed.

(** C5.  On a successful load the table is, row by row and in the
    order of the file, what the row parser makes of each data line
    taken alone; a line with fewer than four columns, with a protocol
    name that does not resolve to a valid protocol, or with an empty
    or non-hex hex column gives no entry; a line with none of these
    defects and a HID value of at most 255 gives one. *)
Theorem malformed_rows_dropped_alone fs file app :
  storage_file_open fs = Some file ->
  0 < storage_file_size file <= 8192 ->
  malloc_buf fs = true -> malloc_lut fs = true ->
  lut app = None ->
  let rows :=
    data_rows (storage_file_read file (Z.to_nat (storage_file_size file))) in
  table (fst (ir2hid_load_lut fs app)) = omap parse_alone rows
  /\ (forall l, In l rows -> row_malformed l -> parse_alone l = None)
  /\ (forall l, In l rows -> ~ row_malformed l ->
        (forall h, column_value (nth 3 (fields l) []) = Some h -> h <= 255) ->
        exists e, parse_alone l = Some e).
Proof.
  intros Hopen Hsize Hbuf Hlut Hnone rows.
  destruct (ir2hid_load_lut_table fs file app Hopen Hsize Hbuf Hlut Hnone)
    as (Ht & _).
  pose proof (data_rows_nul_free
    (storage_file_read file (Z.to_nat (storage_file_size file)))) as Hnf.
  fold rows in Ht, Hnf.
  split.
  - rewrite Ht. symmetry. apply omap_ext_Forall.
    eapply Forall_impl; [exact Hnf|]. intros l. apply parse_alone_row.
  - rewrite Forall_forall in Hnf. split.
    + intros l Hin Hbad.
      rewrite parse_alone_row; [apply parse_row_malformed; exact Hbad|].
      apply Hnf. apply list_elem_of_In. exact Hin.
    + intros l Hin Hwf Hfit.
      assert (Hl : nul_free l) by (apply Hnf; apply list_elem_of_In; exact Hin).
      rewrite (parse_alone_row l Hl). apply parse_row_well_formed; [exact Hwf|].
      intros h Hh. apply Hfit.
      rewrite column_value_spec by (apply fields_nul_free; exact Hl). exact Hh.
Qed.

End RowsAlone.

(** ** Shift and accumulate, modulo [2 ^ 32] *)

Lemma hex_char_to_hex_nibble_range c n :
  hex_char_to_hex_nibble c = Some n -> 0 <= n < 16.
Proof.
  unfold hex_char_to_hex_nibble.
  set (k := Z.of_N (N_of_ascii c)).
  destruct ((48 <=? k) && (k <=? 57)) eqn:E1.
  { intros [= <-]. apply andb_true_iff in E1. destruct E1 as [A B].
    apply Z.leb_le in A, B. lia. }
  destruct ((65 <=? k) && (k <=? 70)) eqn:E2.
  { intros [= <-]. apply andb_true_iff in E2. destruct E2 as [A B].
    apply Z.leb_le in A, B. lia. }
  destruct ((97 <=? k) && (k <=? 102)) eqn:E3; [|discriminate].
  intros [= <-]. apply andb_true_iff in E3. destruct E3 as [A B].
  apply Z.leb_le in A, B. lia.
Qed.

Lemma lor_shifted_nibble k n :
  0 <= k -> 0 <= n < 16 -> Z.lor (16 * k) n = 16 * k + n.
Proof.
  intros Hk Hn.
  rewrite <- (Z.add_lor_land (16 * k) n).
  assert (Hland : Z.land (16 * k) n = 0).
  { apply Z.bits_inj'. intros i Hi.
    rewrite Z.land_spec, Z.bits_0.
    destruct (Z_lt_le_dec i 4) as [Hlt|Hge].
    - replace (16 * k) with (Z.shiftl k 4)
        by (rewrite Z.shiftl_mul_pow2 by lia; change (2 ^ 4) with 16; lia).
      rewrite Z.shiftl_spec_low by exact Hlt. reflexivity.
    - assert (Hbit : Z.testbit n i = false).
      { destruct (Z.eq_dec n 0) as [->|Hn0]; [apply Z.bits_0|].
        apply Z.bits_above_log2; [lia|].
        assert (Z.log2 n < 4); [|lia].
        apply Z.log2_lt_pow2; [lia|]. change (2 ^ 4) with 16. lia. }
      rewrite Hbit. apply andb_false_r. }
  rewrite Hland. lia.
Qed.

(** The step of the loop is multiply by 16 and add, modulo [2 ^ 32]. *)
Lemma shift_in_nibble_mod value nibble :
  0 <= nibble < 16 ->
  shift_in_nibble value nibble = (value * 16 + nibble) mod UINT32_MOD.
Proof.
  intros Hn. unfold shift_in_nibble, UINT32_MOD.
  rewrite Z.shiftl_mul_pow2 by lia. change (2 ^ 4) with 16.
  change (2 ^ 32) with (16 * 2 ^ 28).
  replace (value * 16) with (16 * value) by lia.
  rewrite Z.mul_mod_distr_l by lia.
  pose proof (Z.mod_pos_bound value (2 ^ 28) ltac:(lia)) as Hb.
  rewrite lor_shifted_nibble by lia.
  rewrite <- (Z.mul_mod_distr_l value (2 ^ 28) 16) by lia.
  rewrite <- Z.add_mod_idemp_l by lia.
  rewrite Z.mul_mod_distr_l by lia.
  symmetry. apply Z.mod_small. lia.
Qed.

Lemma hex_acc_value l : forall v V r,
  v = V mod UINT32_MOD ->
  hex_acc l v = Some r ->
  r = fold_left (fun acc c => acc * 16 + hex_digit_value c) l V mod UINT32_MOD.
Proof.
  induction l as [|c l IH]; intros v V r Hv; cbn [hex_acc fold_left].
  - intros [= <-]. exact Hv.
  - unfold hex_digit_value at 2.
    destruct (hex_char_to_hex_nibble c) as [n|] eqn:En; [|discriminate].
    apply IH. rewrite (shift_in_nibble_mod v n) by
      (apply (hex_char_to_hex_nibble_range c); exact En).
    rewrite Hv. unfold UINT32_MOD.
    rewrite <- (Z.add_mod_idemp_l (V mod 2 ^ 32 * 16)) by lia.
    rewrite Z.mul_mod_idemp_l by lia.
    rewrite Z.add_mod_idemp_l by lia. reflexivity.
Qed.

Lemma hex_u32_value l v :
  hex_u32 l = Some v -> v = hex_value l mod UINT32_MOD.
Proof.
  unfold hex_u32, hex_value. destruct l as [|c l]; [discriminate|].
  apply hex_acc_value. reflexivity.
Qed.

Lemma hex_u32_total l :
  ~ (l = [] \/ Exists not_hex l) ->
  hex_u32 l = Some (hex_value l mod UINT32_MOD).
Proof.
  intros Hgood. destruct (hex_u32 l) as [v|] eqn:E.
  - f_equal. apply hex_u32_value. exact E.
  - exfalso. apply Hgood. apply hex_u32_none_inv. exact E.
Qed.

Lemma column_value_good f :
  nul_free f -> ~ bad_hex_column f -> column_value f = Some (column_number f).
Proof.
  intros Hf Hgood. rewrite (column_value_spec f Hf).
  apply hex_u32_total. exact Hgood.
Qed.

Lemma hex_digit_value_range c : 0 <= hex_digit_value c < 16.
Proof.
  unfold hex_digit_value.
  destruct (hex_char_to_hex_nibble c) as [n|] eqn:E; [|lia].
  apply (hex_char_to_hex_nibble_range c). exact E.
Qed.

Lemma shift_fold_mod l : forall v V,
  v = V mod 2 ^ 32 ->
  fold_left
    (fun value c => Z.lor (Z.shiftl value 4 mod 2 ^ 32) (hex_digit_value c))
    l v
  = fold_left (fun acc c => acc * 16 + hex_digit_value c) l V mod 2 ^ 32.
Proof.
  induction l as [|c l IH]; intros v V Hv; cbn [fold_left]; [exact Hv|].
  apply IH.
  pose proof (hex_digit_value_range c) as Hc.
  pose proof (shift_in_nibble_mod v (hex_digit_value c) Hc) as Hs.
  unfold shift_in_nibble, UINT32_MOD in Hs. rewrite Hs, Hv.
  rewrite <- (Z.add_mod_idemp_l (V mod 2 ^ 32 * 16)) by lia.
  rewrite Z.mul_mod_idemp_l by lia.
  rewrite Z.add_mod_idemp_l by lia. reflexivity.
Qed.

Lemma shift_accumulate_mod l : shift_accumulate l = hex_value l mod 2 ^ 32.
Proof. apply shift_fold_mod. reflexivity. Qed.

Section HexClaims.
Context `{Platform}.

(** A row with four columns, a valid protocol and three good hex
    columns is decided by the number of its HID column alone. *)
Lemma parse_row_decided l :
  ~ row_malformed l ->
  parse_row l
  = if 255 <? column_number (nth 3 (fields l) []) then None
    else Some (row_entry l).
Proof.
  intros Hwf.
  assert (Hn : (4 <= length (fields l))%nat).
  { destruct (le_lt_dec 4 (length (fields l))) as [Hn|Hn]; [exact Hn|].
    exfalso. apply Hwf. left. exact Hn. }
  rewrite (parse_row_fields l Hn). unfold parse_fields.
  destruct (infrared_is_protocol_valid _) eqn:Ev.
  2:{ exfalso. apply Hwf. right. left. exact Ev. }
  cbn [negb].
  rewrite (hex_u32_total (strip_hex_prefix (nth 1 (fields l) [])))
    by (intros Hb; apply Hwf; right; right; left; exact Hb).
  rewrite (hex_u32_total (strip_hex_prefix (nth 2 (fields l) [])))
    by (intros Hb; apply Hwf; right; right; right; left; exact Hb).
  rewrite (hex_u32_total (strip_hex_prefix (nth 3 (fields l) [])))
    by (intros Hb; apply Hwf; right; right; right; right; exact Hb).
  unfold UINT32_MOD. fold (column_number (nth 1 (fields l) [])).
  fold (column_number (nth 2 (fields l) [])).
  fold (column_number (nth 3 (fields l) [])).
  destruct (255 <? column_number (nth 3 (fields l) [])) eqn:E; [reflexivity|].
  apply Z.ltb_ge in E. unfold row_entry. do 2 f_equal.
  apply Z.mod_small. split; [|lia].
  unfold column_number. apply Z.mod_pos_bound. reflexivity.
Qed.

(** C6.  A hex column that is empty or holds a character that is no
    hex digit, prefix apart, is refused; every other hex column is
    parsed, and to the value that shifting its digits into a 32-bit
    word four bits at a time leaves there, which is the number the
    digits denote modulo [2 ^ 32].  A row with four columns, a valid
    protocol and three such hex columns is accepted when the number of
    its HID column is at most 255, with that number, the address and
    the command in the entry; no row is accepted otherwise, and a row
    whose HID column reads as more than 255 is rejected whatever its
    other columns hold. *)
Theorem hex_columns_wrap_and_hid_fits_byte l :
  nul_free l ->
  (forall f, nul_free f ->
     (bad_hex_column f -> column_value f = None)
     /\ (~ bad_hex_column f -> column_value f = Some (column_number f))
     /\ column_number f = shift_accumulate (strip_hex_prefix f))
  /\ (~ row_malformed l -> column_number (nth 3 (fields l) []) <= 255 ->
        parse_alone l = Some (row_entry l))
  /\ (forall e, parse_alone l = Some e ->
        ~ row_malformed l
        /\ column_number (nth 3 (fields l) []) <= 255
        /\ e = row_entry l)
  /\ (~ bad_hex_column (nth 3 (fields l) []) ->
      255 < column_number (nth 3 (fields l) []) -> parse_alone l = None).
Proof.
  intros Hl. split; [|split; [|split]].
  - intros f Hf. split; [|split].
    + intros Hbad. rewrite (column_value_spec f Hf). apply hex_u32_bad.
      exact Hbad.
    + apply column_value_good. exact Hf.
    + unfold column_number. symmetry. apply shift_accumulate_mod.
  - intros Hwf Hle. rewrite (parse_alone_row l Hl), (parse_row_decided l Hwf).
    apply Z.ltb_ge in Hle. rewrite Hle. reflexivity.
  - intros e He. rewrite (parse_alone_row l Hl) in He.
    assert (Hwf : ~ row_malformed l).
    { intros Hbad. rewrite (parse_row_malformed l Hbad) in He. discriminate. }
    rewrite (parse_row_decided l Hwf) in He.
    destruct (255 <? column_number (nth 3 (fields l) [])) eqn:E;
      [discriminate|].
    apply Z.ltb_ge in E. injection He as <-.
    split; [exact Hwf|]. split; [exact E | reflexivity].
  - intros Hgood Hbig. rewrite (parse_alone_row l Hl).
    destruct (le_lt_dec 4 (length (fields l))) as [Hn|Hn];
      [|apply parse_row_short; exact Hn].
    rewrite (parse_row_fields l Hn). unfold parse_fields.
    destruct (negb _); [reflexivity|].
    destruct (hex_u32 (strip_hex_prefix (nth 1 (fields l) []))); [|reflexivity].
    destruct (hex_u32 (strip_hex_prefix (nth 2 (fields l) []))); [|reflexivity].
    rewrite (hex_u32_total (strip_hex_prefix (nth 3 (fields l) [])) Hgood).
    unfold UINT32_MOD. fold (column_number (nth 3 (fields l) [])).
    apply Z.ltb_lt in Hbig. rewrite Hbig. reflexivity.
Qed.

End HexClaims.

(** ** Files that load nothing, and the smallest file that loads a row *)

Lemma split_on_first_line sep h c r :
  Forall (fun x => sep x = false) h -> sep c = true ->
  split_on sep (h ++ c :: r) = h :: split_on sep r.
Proof.
  intros Hh Hc. induction Hh as [|x h Hx _ IH].
  - apply split_on_cons_sep. exact Hc.
  - cbn [app]. rewrite (split_on_cons_other _ _ _ Hx), IH. reflexivity.
Qed.

Lemma app_init_table `{Platform} raw usb_ok :
  lut (app_init raw usb_ok) = None /\ wf_app (app_init raw usb_ok)
  /\ table (app_init raw usb_ok) = [].
Proof. unfold wf_app, table. cbn. auto. Qed.

Lemma lookup_empty_table `{Platform} app msg :
  lut app = None -> ir2hid_lookup_hid_code app msg = None.
Proof. unfold ir2hid_lookup_hid_code. intros ->. reflexivity. Qed.

Section LoadClaims.
Context `{Platform}.

(** C8.  A file whose size is above 8192 bytes: the load returns with
    the record as it was and nothing done; after start-up the array
    pointer is still null, the table is empty, and every lookup, also
    after any events, finds nothing. *)
Theorem oversize_file_loads_nothing fs file :
  storage_file_open fs = Some file ->
  8192 < storage_file_size file ->
  (forall app, ir2hid_load_lut fs app = (app, []))
  /\ (forall raw usb_ok events msg,
        let app := fst (ir2hid_load_lut fs (app_init raw usb_ok)) in
        lut app = None /\ lut_count app = 0%nat /\ table app = []
        /\ ir2hid_lookup_hid_code (fst (main_loop events app)) msg = None).
Proof.
  intros Hopen Hsize.
  assert (Hload : forall app, ir2hid_load_lut fs app = (app, [])).
  { intros app. unfold ir2hid_load_lut. rewrite Hopen.
    apply Z.ltb_lt in Hsize. rewrite Hsize, orb_true_r. reflexivity. }
  split; [exact Hload|].
  intros raw usb_ok events msg. cbv zeta. rewrite Hload. cbn [fst].
  split; [reflexivity|]. split; [reflexivity|]. split; [reflexivity|].
  apply lookup_empty_table.
  destruct (main_loop_lut events (app_init raw usb_ok)) as (-> & _). reflexivity.
Qed.

(** C7.  The table file cannot be opened: the load stores the
    not-found line, empties the two other lines and sets the flag,
    under the mutex; no entry is loaded; the program goes on into its
    loop with that state, and every lookup from then on, after any
    events, finds nothing. *)
Theorem missing_file_reports_not_found fs raw usb_ok :
  storage_file_open fs = None ->
  let loaded := ir2hid_load_lut fs (app_init raw usb_ok) in
  table (fst loaded) = [] /\ lut_count (fst loaded) = 0%nat
  /\ snd loaded = [MutexAcquire; StoreTextProto "lut.csv not found";
                   StoreTextAddr ""; StoreTextCmd ""; StoreHasSignal true;
                   MutexRelease]
  /\ display (fst loaded) = ("lut.csv not found"%string, ""%string, ""%string, true)
  /\ String.index 0 "not found" (text_proto (fst loaded)) = Some 8%nat
  /\ (forall events,
        ir2hid_app raw usb_ok fs events
        = (fst (main_loop events (fst loaded)),
           snd loaded ++ snd (main_loop events (fst loaded))))
  /\ (forall events msg,
        ir2hid_lookup_hid_code (fst (main_loop events (fst loaded))) msg = None).
Proof.
  intros Hopen. cbv zeta.
  assert (Hload : ir2hid_load_lut fs (app_init raw usb_ok)
    = perform [MutexAcquire; StoreTextProto "lut.csv not found";
               StoreTextAddr ""; StoreTextCmd ""; StoreHasSignal true;
               MutexRelease] (app_init raw usb_ok)).
  { unfold ir2hid_load_lut. rewrite Hopen. reflexivity. }
  split; [rewrite Hload; reflexivity|].
  split; [rewrite Hload; reflexivity|].
  split; [rewrite Hload; reflexivity|].
  split; [rewrite Hload; reflexivity|].
  split; [rewrite Hload; reflexivity|].
  split.
  - intros events. unfold ir2hid_app.
    destruct (ir2hid_load_lut fs (app_init raw usb_ok)) as [app acts]. cbn [fst snd].
    destruct (main_loop events app); reflexivity.
  - intros events msg. apply lookup_empty_table.
    destruct (main_loop_lut events (fst (ir2hid_load_lut fs (app_init raw usb_ok))))
      as (-> & _).
    rewrite Hload. reflexivity.
Qed.

(** C1, as the code has it.  The first non-blank line of a file is
    always dropped as the header, so the row must come second: a file
    made of any header line, a line feed and the row
    [NEC,0x04,0x0A,0x01] loads exactly one entry; the lookup of
    (NEC, 0x04, 0x0A) then returns 0x01 and the lookup of
    (NEC, 0x04, 0x0B) finds nothing. *)
Theorem header_then_row_round_trip fs file raw usb_ok header nec r :
  infrared_get_protocol_by_name "NEC" = nec ->
  infrared_is_protocol_valid nec = true ->
  storage_file_open fs = Some file ->
  malloc_buf fs = true -> malloc_lut fs = true ->
  no_line_end header -> header <> [] ->
  file_bytes file = header ++ LF :: row_NEC_04_0A_01 ->
  storage_file_size file = Z.of_nat (length (file_bytes file)) ->
  storage_file_size file <= 8192 ->
  let app := fst (ir2hid_load_lut fs (app_init raw usb_ok)) in
  table app = [{| ir := {| protocol := nec; address := 4; command := 10;
                           repeat := false |};
                  hid_code := 1 |}]
  /\ ir2hid_lookup_hid_code app
       {| protocol := nec; address := 4; command := 10; repeat := r |} = Some 1
  /\ ir2hid_lookup_hid_code app
       {| protocol := nec; address := 4; command := 11; repeat := r |} = None.
Proof.
  intros Hnec Hvalid Hopen Hbuf Hlut Hhdr Hne Hbytes Hsize Hmax. cbv zeta.
  destruct (app_init_table raw usb_ok) as (Hnone & _ & _).
  assert (Hpos : 0 < storage_file_size file <= 8192).
  { rewrite Hsize, Hbytes in *. rewrite length_app in *. cbn [length] in *. lia. }
  destruct (ir2hid_load_lut_table fs file (app_init raw usb_ok)
              Hopen Hpos Hbuf Hlut Hnone) as (Ht & Hwf).
  assert (Hdata : storage_file_read file (Z.to_nat (storage_file_size file))
                  = header ++ LF :: row_NEC_04_0A_01).
  { unfold storage_file_read. rewrite Hsize, Nat2Z.id, Hbytes.
    apply take_ge. lia. }
  assert (Hrows : data_rows (header ++ LF :: row_NEC_04_0A_01) = [row_NEC_04_0A_01]).
  { unfold data_rows, table_lines.
    rewrite (split_on_first_line is_line_end header LF) by (exact Hhdr || reflexivity).
    cbn [List.filter]. destruct header; [congruence|]. reflexivity. }
  assert (Hrow : parse_row row_NEC_04_0A_01
                 = Some {| ir := {| protocol := nec; address := 4; command := 10;
                                    repeat := false |};
                           hid_code := 1 |}).
  { unfold parse_row.
    change (fields row_NEC_04_0A_01)
      with [list_ascii_of_string "NEC"; list_ascii_of_string "0x04";
            list_ascii_of_string "0x0A"; list_ascii_of_string "0x01"].
    unfold parse_fields.
    change (string_of_list_ascii (list_ascii_of_string "NEC")) with "NEC"%string.
    rewrite Hnec, Hvalid. reflexivity. }
  rewrite Hdata, Hrows in Ht. cbn [omap list_omap] in Ht. rewrite Hrow in Ht.
  split; [exact Ht|].
  rewrite !ir2hid_lookup_hid_code_table by exact Hwf. rewrite Ht.
  cbn [find_hid ir hid_code]. unfold same_signature.
  cbn [protocol address command]. rewrite Z.eqb_refl. split; reflexivity.
Qed.

End LoadClaims.

(** * The program run on concrete inputs *)

Section Examples.
#[local] Existing Instance example_platform.

(** C1, counterexample.  A file that holds the row
    [NEC,0x04,0x0A,0x01] and nothing else: the row is the first
    non-blank line, it is dropped as the header, no entry is loaded and
    the lookup of (NEC, 0x04, 0x0A) does not return 0x01. *)
Lemma single_row_file_loads_nothing :
  let app := fst (ir2hid_load_lut (storage_with file_single_row)
                                  (app_init raw_app true)) in
  table app = []
  /\ ir2hid_lookup_hid_code app (msg_NEC 4 10 false) = None
  /\ ir2hid_lookup_hid_code app (msg_NEC 4 10 false) <> Some 1.
Proof.
  cbv zeta. split; [reflexivity|]. split; [reflexivity|].
  vm_compute. discriminate.
Qed.

Lemma header_then_row_round_trip_witness :
  let app := fst (ir2hid_load_lut (storage_with file_header_and_row)
                                  (app_init raw_app true)) in
  table app = [entry_NEC 4 10 1]
  /\ ir2hid_lookup_hid_code app (msg_NEC 4 10 false) = Some 1
  /\ ir2hid_lookup_hid_code app (msg_NEC 4 11 false) = None.
Proof.
  apply (header_then_row_round_trip (storage_with file_header_and_row)
           {| storage_file_size := Z.of_nat (length file_header_and_row);
              file_bytes := file_header_and_row |}
           raw_app true header_line 0 false);
    try reflexivity.
  - unfold no_line_end, header_line. vm_compute.
    repeat (constructor; [reflexivity|]). constructor.
  - discriminate.
  - vm_compute. discriminate.
Defined.

Lemma lookup_first_entry_wins_witness :
  ir2hid_lookup_hid_code
    (fst (ir2hid_load_lut (storage_with file_duplicates) (app_init raw_app true)))
    (msg_NEC 4 10 false) = Some (hid_code (entry_NEC 4 10 1))
  /\ ir2hid_lookup_hid_code
       (fst (ir2hid_load_lut (storage_with file_duplicates) (app_init raw_app true)))
       (msg_NEC 4 10 false) <> Some (hid_code (entry_NEC 4 10 2)).
Proof.
  apply (lookup_first_entry_wins (storage_with file_duplicates)
           (app_init raw_app true) [] (entry_NEC 4 10 1) [] (entry_NEC 4 10 2) []).
  - vm_compute. exact I.
  - vm_compute. reflexivity.
  - constructor.
  - reflexivity.
  - reflexivity.
  - vm_compute. discriminate.
Defined.

Lemma debounce_same_signature_witness :
  rejected (env_at 104 true) (msg_NEC 4 10 false) app_after_press
  /\ debounced app_after_press (msg_NEC 4 10 false) 105 = false
  /\ last_tick (fst (on_ir_signal (env_at 105 true) (msg_NEC 4 10 false)
                       app_after_press)) = 105.
Proof.
  split; [|split].
  - apply (proj1 (debounce_same_signature (env_at 104 true) (msg_NEC 4 10 false)
                    app_after_press eq_refl)).
    + vm_compute. auto.
    + vm_compute. reflexivity.
  - apply (proj1 (proj2 (debounce_same_signature (env_at 105 true)
                           (msg_NEC 4 10 false) app_after_press eq_refl))).
    + vm_compute. auto.
    + vm_compute. discriminate.
  - apply (proj2 (proj2 (debounce_same_signature (env_at 105 true)
                           (msg_NEC 4 10 false) app_after_press eq_refl))).
    vm_compute. reflexivity.
Defined.

Lemma repeat_frame_rejected_witness :
  rejected (env_at 5000 true) (msg_NEC 4 10 true) app_after_press
  /\ loop_body (env_at 5000 true) (EventTypeIRSignal (msg_NEC 4 10 true))
       app_after_press = (app_after_press, [], true).
Proof.
  apply (repeat_frame_rejected (env_at 5000 true) (msg_NEC 4 10 true)
           app_after_press).
  reflexivity.
Defined.

Lemma malformed_rows_dropped_alone_witness :
  let rows :=
    data_rows (storage_file_read
                 {| storage_file_size := Z.of_nat (length file_with_bad_rows);
                    file_bytes := file_with_bad_rows |}
                 (Z.to_nat (Z.of_nat (length file_with_bad_rows)))) in
  table (fst (ir2hid_load_lut (storage_with file_with_bad_rows)
                              (app_init raw_app true)))
  = omap parse_alone rows
  /\ (forall l, In l rows -> row_malformed l -> parse_alone l = None)
  /\ (forall l, In l rows -> ~ row_malformed l ->
        (forall h, column_value (nth 3 (fields l) []) = Some h -> h <= 255) ->
        exists e, parse_alone l = Some e).
Proof.
  apply (malformed_rows_dropped_alone (storage_with file_with_bad_rows)
           {| storage_file_size := Z.of_nat (length file_with_bad_rows);
              file_bytes := file_with_bad_rows |}
           (app_init raw_app true)).
  - reflexivity.
  - vm_compute. split; [reflexivity | discriminate].
  - reflexivity.
  - reflexivity.
  - reflexivity.
Defined.

(** The file with the bad rows loads its two good rows, in order. *)
Example bad_rows_file_table :
  table (fst (ir2hid_load_lut (storage_with file_with_bad_rows)
                              (app_init raw_app true)))
  = [entry_NEC 4 10 1;
     {| ir := {| protocol := 6; address := 5; command := 12; repeat := false |};
        hid_code := 31 |}].
Proof. vm_compute. reflexivity. Qed.

(** A row whose address has nine digits is accepted with the address
    wrapped and the largest HID code; the same row with a HID column of
    0x100 is refused. *)
Lemma hex_columns_wrap_and_hid_fits_byte_witness :
  nul_free (text "NEC,0x100000004,0x0A,0xFF")
  /\ ~ row_malformed (text "NEC,0x100000004,0x0A,0xFF")
  /\ column_value (text "0x100000004") = Some 4
  /\ shift_accumulate (text "100000004") = 4
  /\ parse_alone (text "NEC,0x100000004,0x0A,0xFF") = Some (entry_NEC 4 10 255)
  /\ (forall e, parse_alone (text "NEC,0x100000004,0x0A,0xFF") = Some e ->
        e = entry_NEC 4 10 255)
  /\ parse_alone (text "NEC,0x100000004,0x0A,0x100") = None.
Proof.
  assert (Hnf : nul_free (text "NEC,0x100000004,0x0A,0xFF")).
  { vm_compute. repeat (constructor; [discriminate|]). constructor. }
  assert (Hnf' : nul_free (text "NEC,0x100000004,0x0A,0x100")).
  { vm_compute. repeat (constructor; [discriminate|]). constructor. }
  assert (Hwf : ~ row_malformed (text "NEC,0x100000004,0x0A,0xFF")).
  { intros [Hb|[Hb|[Hb|[Hb|Hb]]]].
    - vm_compute in Hb. lia.
    - vm_compute in Hb. discriminate.
    - apply hex_u32_bad in Hb. vm_compute in Hb. discriminate.
    - apply hex_u32_bad in Hb. vm_compute in Hb. discriminate.
    - apply hex_u32_bad in Hb. vm_compute in Hb. discriminate. }
  destruct (hex_columns_wrap_and_hid_fits_byte
              (text "NEC,0x100000004,0x0A,0xFF") Hnf) as (Hcol & Hacc & Honly & _).
  destruct (hex_columns_wrap_and_hid_fits_byte
              (text "NEC,0x100000004,0x0A,0x100") Hnf') as (_ & _ & _ & Hrej).
  assert (Hgood : ~ bad_hex_column (text "0x100000004")).
  { intros Hb. apply hex_u32_bad in Hb. vm_compute in Hb. discriminate. }
  destruct (Hcol (text "0x100000004")
              ltac:(vm_compute; repeat (constructor; [discriminate|]); constructor))
    as (_ & Hval & Hshift).
  specialize (Hval Hgood).
  split; [exact Hnf|]. split; [exact Hwf|].
  split; [rewrite Hval; vm_compute; reflexivity|].
  split; [change (text "100000004")
            with (strip_hex_prefix (text "0x100000004"));
          rewrite <- Hshift; vm_compute; reflexivity|].
  split; [rewrite (Hacc Hwf ltac:(vm_compute; discriminate));
          vm_compute; reflexivity|].
  split.
  - intros e He. destruct (Honly e He) as (_ & _ & ->). vm_compute. reflexivity.
  - apply Hrej.
    + intros Hb. apply hex_u32_bad in Hb. vm_compute in Hb. discriminate.
    + vm_compute. reflexivity.
Defined.

(** Nine digits: the leading one leaves the 32-bit word. *)
Example column_value_wraps :
  column_value (text "0x123456789") = Some 591751049
  /\ hex_value (text "123456789") = 4886718345.
Proof. vm_compute. split; reflexivity. Qed.

Lemma missing_file_reports_not_found_witness :
  let loaded := ir2hid_load_lut storage_without_file (app_init raw_app true) in
  table (fst loaded) = [] /\ lut_count (fst loaded) = 0%nat
  /\ snd loaded = [MutexAcquire; StoreTextProto "lut.csv not found";
                   StoreTextAddr ""; StoreTextCmd ""; StoreHasSignal true;
                   MutexRelease]
  /\ display (fst loaded) = ("lut.csv not found"%string, ""%string, ""%string, true)
  /\ String.index 0 "not found" (text_proto (fst loaded)) = Some 8%nat
  /\ (forall events,
        ir2hid_app raw_app true storage_without_file events
        = (fst (main_loop events (fst loaded)),
           snd loaded ++ snd (main_loop events (fst loaded))))
  /\ (forall events msg,
        ir2hid_lookup_hid_code (fst (main_loop events (fst loaded))) msg = None).
Proof.
  apply (missing_file_reports_not_found storage_without_file raw_app true).
  reflexivity.
Defined.

Lemma oversize_file_loads_nothing_witness :
  (forall app, ir2hid_load_lut (storage_with file_oversize) app = (app, []))
  /\ (forall raw usb_ok events msg,
        let app := fst (ir2hid_load_lut (storage_with file_oversize)
                                        (app_init raw usb_ok)) in
        lut app = None /\ lut_count app = 0%nat /\ table app = []
        /\ ir2hid_lookup_hid_code (fst (main_loop events app)) msg = None).
Proof.
  apply (oversize_file_loads_nothing (storage_with file_oversize)
           {| storage_file_size := Z.of_nat (length file_oversize);
              file_bytes := file_oversize |}).
  - reflexivity.
  - vm_compute. reflexivity.
Defined.

(** C9, counterexample.  The matched signal (NEC, 4, 0x0A) handled
    with the transport up and no host connected: the display state
    written is the one written with a host connected, line for line,
    so it records nothing of the missing host. *)
Lemma display_has_no_host_record :
  ~ display_tells_no_host (env_at 200 false) (msg_NEC 4 10 false) app_after_press
  /\ display (fst (on_ir_signal (env_at 200 false) (msg_NEC 4 10 false)
                     app_after_press))
     = ("Proto: NEC"%string, "Addr: 0x0004"%string,
        "Cmd:0x000A HID:0x01"%string, true)
  /\ snd (on_ir_signal (env_at 200 true) (msg_NEC 4 10 false) app_after_press)
     = HidKbPress 1 :: HidKbRelease 1
       :: snd (on_ir_signal (env_at 200 false) (msg_NEC 4 10 false)
                 app_after_press).
Proof.
  split; [|split].
  - unfold display_tells_no_host. intros Hne. apply Hne. vm_compute. reflexivity.
  - vm_compute. reflexivity.
  - vm_compute. reflexivity.
Qed.

Lemma matched_signal_without_host_witness :
  snd (on_ir_signal (env_at 200 false) (msg_NEC 4 10 false) app_after_press)
  = [MutexAcquire;
     StoreTextProto (strlcpy TEXT_SIZE (fmt_proto (msg_NEC 4 10 false)));
     StoreTextAddr (strlcpy TEXT_SIZE (fmt_addr (msg_NEC 4 10 false)));
     StoreTextCmd ("Cmd:0x" ++ fmt_0X 4 (command (msg_NEC 4 10 false))
                   ++ " HID:0x" ++ fmt_0X 2 1)%string;
     StoreHasSignal true; MutexRelease; ViewPortUpdate]
  /\ display (fst (on_ir_signal (env_at 200 false) (msg_NEC 4 10 false)
                     app_after_press))
     = (strlcpy TEXT_SIZE (fmt_proto (msg_NEC 4 10 false)),
        strlcpy TEXT_SIZE (fmt_addr (msg_NEC 4 10 false)),
        ("Cmd:0x" ++ fmt_0X 4 (command (msg_NEC 4 10 false))
         ++ " HID:0x" ++ fmt_0X 2 1)%string,
        true)
  /\ (forall connected,
        display (fst (on_ir_signal (with_host connected (env_at 200 false))
                        (msg_NEC 4 10 false) app_after_press))
        = display (fst (on_ir_signal (env_at 200 false) (msg_NEC 4 10 false)
                          app_after_press))).
Proof.
  apply (matched_signal_without_host (env_at 200 false) (msg_NEC 4 10 false)
           app_after_press 1); reflexivity.
Defined.

Lemma accepted_signal_updates_display_witness :
  exists hid_acts tp ta tc,
    snd (on_ir_signal (env_at 200 true) (msg_NEC 4 11 false) app_after_press)
    = hid_acts ++ [MutexAcquire; StoreTextProto tp; StoreTextAddr ta;
                   StoreTextCmd tc; StoreHasSignal true; MutexRelease;
                   ViewPortUpdate]
    /\ Forall is_hid_action hid_acts
    /\ display (fst (on_ir_signal (env_at 200 true) (msg_NEC 4 11 false)
                       app_after_press)) = (tp, ta, tc, true)
    /\ tp = strlcpy TEXT_SIZE (fmt_proto (msg_NEC 4 11 false))
    /\ ta = strlcpy TEXT_SIZE (fmt_addr (msg_NEC 4 11 false))
    /\ (ir2hid_lookup_hid_code app_after_press (msg_NEC 4 11 false) = None ->
        hid_acts = []
        /\ tc = ("Cmd:0x" ++ fmt_0X 4 (command (msg_NEC 4 11 false))
                 ++ " (no map)")%string)
    /\ (forall hid,
          ir2hid_lookup_hid_code app_after_press (msg_NEC 4 11 false) = Some hid ->
          tc = ("Cmd:0x" ++ fmt_0X 4 (command (msg_NEC 4 11 false))
                ++ " HID:0x" ++ fmt_0X 2 hid)%string).
Proof.
  apply (accepted_signal_updates_display (env_at 200 true) (msg_NEC 4 11 false)
           app_after_press); reflexivity.
Defined.

(** One run of the whole program: load, a press, a bounce two ticks
    later, the same button after the cooldown with the host gone, a
    repeat frame, and a button that is not in the table. *)
Example whole_run :
  snd (ir2hid_app raw_app true (storage_with file_header_and_row)
         [(env_at 100 true, EventTypeIRSignal (msg_NEC 4 10 false));
          (env_at 102 true, EventTypeIRSignal (msg_NEC 4 10 false));
          (env_at 105 false, EventTypeIRSignal (msg_NEC 4 10 false));
          (env_at 200 true, EventTypeIRSignal (msg_NEC 4 10 true));
          (env_at 300 true, EventTypeIRSignal (msg_NEC 74565 12 false))])
  = [HidKbPress 1; HidKbRelease 1;
     MutexAcquire; StoreTextProto "Proto: NEC"; StoreTextAddr "Addr: 0x0004";
     StoreTextCmd "Cmd:0x000A HID:0x01"; StoreHasSignal true; MutexRelease;
     ViewPortUpdate;
     MutexAcquire; StoreTextProto "Proto: NEC"; StoreTextAddr "Addr: 0x0004";
     StoreTextCmd "Cmd:0x000A HID:0x01"; StoreHasSignal true; MutexRelease;
     ViewPortUpdate;
     MutexAcquire; StoreTextProto "Proto: NEC"; StoreTextAddr "Addr: 0x12345";
     StoreTextCmd "Cmd:0x000C (no map)"; StoreHasSignal true; MutexRelease;
     ViewPortUpdate].
Proof. vm_compute. reflexivity. Qed.

End Examples.

(** * Further properties of the code *)

(** ** Hex columns *)

Lemma hex_digit_not_nul c : hex_char_to_hex_nibble c <> None -> c <> NUL.
Proof. intros Hc ->. apply Hc. reflexivity. Qed.

Lemma hex_digits_nul_free d :
  Forall (fun c => hex_char_to_hex_nibble c <> None) d -> nul_free d.
Proof.
  induction 1 as [|c d Hc _ IH]; constructor; [|exact IH].
  apply hex_digit_not_nul. exact Hc.
Qed.

Lemma hex_digits_no_prefix d :
  Forall (fun c => hex_char_to_hex_nibble c <> None) d -> strip_hex_prefix d = d.
Proof.
  intros Hd. destruct d as [|c0 [|c1 d]]; try reflexivity.
  cbn [strip_hex_prefix].
  destruct (Ascii.eqb c1 "x" || Ascii.eqb c1 "X") eqn:E;
    [|rewrite andb_false_r; reflexivity].
  exfalso. inversion Hd as [|? ? _ Hd']; subst. inversion Hd' as [|? ? Hc1 _]; subst.
  apply Hc1. apply orb_true_iff in E. destruct E as [E|E];
    apply Ascii.eqb_eq in E; subst; reflexivity.
Qed.

Lemma hex_digits_accepted d :
  hex_digits d -> hex_u32 d = Some (hex_value d mod UINT32_MOD).
Proof.
  intros [Hne Hall]. destruct (hex_u32 d) as [v|] eqn:E.
  - f_equal. apply hex_u32_value. exact E.
  - exfalso. destruct (hex_u32_none_inv d E) as [->|Hex]; [congruence|].
    rewrite Exists_exists in Hex. destruct Hex as (c & Hin & Hc).
    rewrite Forall_forall in Hall. apply (Hall c Hin). exact Hc.
Qed.

Lemma hex_fold_app (a b : list ascii) V :
  fold_left (fun acc c => acc * 16 + hex_digit_value c) (a ++ b) V
  = fold_left (fun acc c => acc * 16 + hex_digit_value c) b
      (fold_left (fun acc c => acc * 16 + hex_digit_value c) a V).
Proof. apply fold_left_app. Qed.

Lemma hex_fold_shift d : forall V,
  fold_left (fun acc c => acc * 16 + hex_digit_value c) d V
  = V * 16 ^ Z.of_nat (length d)
    + fold_left (fun acc c => acc * 16 + hex_digit_value c) d 0.
Proof.
  induction d as [|c d IH]; intros V.
  - cbn. lia.
  - cbn [fold_left length]. rewrite (IH (V * 16 + hex_digit_value c)).
    rewrite (IH (0 * 16 + hex_digit_value c)).
    rewrite Nat2Z.inj_succ, Z.pow_succ_r by lia. lia.
Qed.

Lemma hex_value_bound d : 0 <= hex_value d < 16 ^ Z.of_nat (length d).
Proof.
  unfold hex_value. induction d as [|c d IH] using rev_ind.
  - cbn. lia.
  - rewrite hex_fold_app. cbn [fold_left].
    rewrite length_app. cbn [length].
    replace (Z.of_nat (length d + 1)) with (Z.succ (Z.of_nat (length d))) by lia.
    rewrite Z.pow_succ_r by lia.
    pose proof (hex_digit_value_range c). lia.
Qed.

Lemma column_value_digits d :
  hex_digits d -> column_value d = Some (hex_value d mod 2 ^ 32).
Proof.
  intros Hd. pose proof Hd as [Hne Hall].
  rewrite (column_value_spec d (hex_digits_nul_free d Hall)).
  rewrite (hex_digits_no_prefix d Hall). apply hex_digits_accepted. exact Hd.
Qed.

Lemma column_value_prefixed d x :
  hex_digits d -> x = "x"%char \/ x = "X"%char ->
  column_value ("0"%char :: x :: d) = Some (hex_value d mod 2 ^ 32).
Proof.
  intros Hd Hx. pose proof Hd as [Hne Hall].
  pose proof (hex_digits_nul_free d Hall) as Hnf.
  rewrite column_value_spec
    by (constructor; [discriminate|]; constructor;
        [destruct Hx as [->| ->]; discriminate | exact Hnf]).
  destruct Hx as [->| ->]; cbn [strip_hex_prefix Ascii.eqb Bool.eqb andb orb];
    apply hex_digits_accepted; exact Hd.
Qed.

Lemma hex_value_eight d :
  (length d <= 8)%nat -> 0 <= hex_value d < 2 ^ 32.
Proof.
  intros Hlen. pose proof (hex_value_bound d) as Hb.
  assert (Hpow : 16 ^ Z.of_nat (length d) <= 2 ^ 32).
  { change (2 ^ 32) with (16 ^ 8). apply Z.pow_le_mono_r; lia. }
  lia.
Qed.

(** A hex column is refused exactly when, with one prefix taken off,
    it is empty or holds a character that is no hex digit. *)
Theorem column_refused_iff_bad f :
  nul_free f -> (column_value f = None <-> bad_hex_column f).
Proof.
  intros Hf. rewrite (column_value_spec f Hf). unfold bad_hex_column. split.
  - apply hex_u32_none_inv.
  - apply hex_u32_bad.
Qed.

(** The prefix is optional: a digit string reads the same bare, with
    [0x] and with [0X] in front. *)
Theorem hex_prefix_is_optional d :
  hex_digits d ->
  column_value d = Some (hex_value d mod 2 ^ 32)
  /\ column_value ("0"%char :: "x"%char :: d) = column_value d
  /\ column_value ("0"%char :: "X"%char :: d) = column_value d.
Proof.
  intros Hd. rewrite (column_value_digits d Hd).
  split; [reflexivity|].
  split; apply column_value_prefixed; auto.
Qed.

(** Whatever is read fits 32 bits, and up to eight digits are read
    exactly. *)
Theorem hex_value_exact_up_to_eight_digits d :
  hex_digits d -> (length d <= 8)%nat ->
  column_value d = Some (hex_value d) /\ 0 <= hex_value d < 2 ^ 32.
Proof.
  intros Hd Hlen. pose proof (hex_value_eight d Hlen) as Hb.
  split; [|exact Hb].
  rewrite (column_value_digits d Hd). f_equal. apply Z.mod_small. exact Hb.
Qed.

(** Of a longer digit string only the last eight digits count. *)
Theorem hex_keeps_last_eight_digits d1 d2 :
  hex_digits d1 -> hex_digits d2 -> length d2 = 8%nat ->
  column_value (d1 ++ d2) = column_value d2
  /\ column_value (d1 ++ d2) = Some (hex_value d2).
Proof.
  intros [Hne1 Hall1] Hd2 Hlen. pose proof Hd2 as [Hne2 Hall2].
  assert (Hd : hex_digits (d1 ++ d2)).
  { split; [destruct d1; [congruence | discriminate]|].
    apply Forall_app. split; assumption. }
  pose proof (hex_value_eight d2 ltac:(lia)) as Hb2.
  assert (Hval : hex_value (d1 ++ d2) mod 2 ^ 32 = hex_value d2).
  { unfold hex_value. rewrite hex_fold_app, hex_fold_shift, Hlen.
    change (16 ^ Z.of_nat 8) with (2 ^ 32).
    rewrite Z.add_comm, Z.mod_add by lia. apply Z.mod_small. exact Hb2. }
  rewrite (column_value_digits _ Hd), (column_value_digits _ Hd2), Hval.
  rewrite (Z.mod_small _ _ Hb2). split; reflexivity.
Qed.

(** ** What the display shows can be typed into the table *)

Lemma list_ascii_of_string_app (a b : string) :
  list_ascii_of_string (a ++ b)%string
  = list_ascii_of_string a ++ list_ascii_of_string b.
Proof. induction a as [|c a IH]; cbn; [reflexivity | rewrite IH; reflexivity]. Qed.

Lemma hex_digit_upper_nibble d :
  0 <= d < 16 -> hex_char_to_hex_nibble (hex_digit_upper d) = Some d.
Proof.
  intros Hd.
  assert (Hcases : d = 0 \/ d = 1 \/ d = 2 \/ d = 3 \/ d = 4 \/ d = 5 \/ d = 6
                   \/ d = 7 \/ d = 8 \/ d = 9 \/ d = 10 \/ d = 11 \/ d = 12
                   \/ d = 13 \/ d = 14 \/ d = 15) by lia.
  repeat (destruct Hcases as [->|Hcases]; [reflexivity|]). subst. reflexivity.
Qed.

Lemma hex_upper_fold fuel : forall v acc,
  0 <= v < 16 ^ Z.of_nat fuel ->
  fold_left (fun a c => a * 16 + hex_digit_value c)
    (list_ascii_of_string (hex_upper fuel v acc)) 0
  = fold_left (fun a c => a * 16 + hex_digit_value c)
      (list_ascii_of_string acc) v.
Proof.
  induction fuel as [|fuel IH]; intros v acc Hv.
  - cbn in Hv. replace v with 0 by lia. reflexivity.
  - rewrite Nat2Z.inj_succ, Z.pow_succ_r in Hv by lia.
    cbn [hex_upper].
    assert (Hdigit : hex_digit_value (hex_digit_upper (v mod 16)) = v mod 16).
    { unfold hex_digit_value. rewrite hex_digit_upper_nibble; [reflexivity|].
      apply Z.mod_pos_bound. lia. }
    pose proof (Z.div_mod v 16 ltac:(lia)) as Hdm.
    destruct (v / 16 =? 0) eqn:E.
    + apply Z.eqb_eq in E. cbn [list_ascii_of_string fold_left].
      rewrite Hdigit. f_equal. lia.
    + rewrite IH.
      * cbn [list_ascii_of_string fold_left]. rewrite Hdigit. f_equal. lia.
      * split; [apply Z.div_pos; lia|]. apply Z.div_lt_upper_bound; lia.
Qed.

Lemma hex_upper_all_hex fuel : forall v acc,
  0 <= v ->
  Forall (fun c => hex_char_to_hex_nibble c <> None) (list_ascii_of_string acc) ->
  Forall (fun c => hex_char_to_hex_nibble c <> None)
    (list_ascii_of_string (hex_upper fuel v acc)).
Proof.
  induction fuel as [|fuel IH]; intros v acc Hv Hacc; [exact Hacc|].
  cbn [hex_upper].
  assert (Hacc' : Forall (fun c => hex_char_to_hex_nibble c <> None)
            (list_ascii_of_string (String (hex_digit_upper (v mod 16)) acc))).
  { cbn [list_ascii_of_string]. constructor; [|exact Hacc].
    rewrite hex_digit_upper_nibble by (apply Z.mod_pos_bound; lia). discriminate. }
  destruct (v / 16 =? 0); [exact Hacc'|].
  apply IH; [apply Z.div_pos; lia | exact Hacc'].
Qed.

Lemma hex_upper_keeps fuel : forall v acc,
  acc <> EmptyString -> hex_upper fuel v acc <> EmptyString.
Proof.
  induction fuel as [|fuel IH]; intros v acc Hacc; cbn [hex_upper]; [exact Hacc|].
  destruct (v / 16 =? 0); [discriminate|]. apply IH. discriminate.
Qed.

Lemma hex_upper_nonempty fuel v acc :
  hex_upper (S fuel) v acc <> EmptyString.
Proof.
  cbn [hex_upper]. destruct (v / 16 =? 0); [discriminate|].
  apply hex_upper_keeps. discriminate.
Qed.

Lemma zeros_all_hex n :
  Forall (fun c => hex_char_to_hex_nibble c <> None) (list_ascii_of_string (zeros n)).
Proof. induction n as [|n IH]; cbn; constructor; [discriminate | exact IH]. Qed.

Lemma zeros_fold n (l : list ascii) :
  fold_left (fun a c => a * 16 + hex_digit_value c)
    (list_ascii_of_string (zeros n) ++ l) 0
  = fold_left (fun a c => a * 16 + hex_digit_value c) l 0.
Proof. induction n as [|n IH]; [reflexivity | exact IH]. Qed.

Lemma fmt_0X_digits w v :
  0 <= v < 2 ^ 32 ->
  hex_digits (list_ascii_of_string (fmt_0X w v))
  /\ hex_value (list_ascii_of_string (fmt_0X w v)) = v.
Proof.
  intros Hv. unfold fmt_0X. rewrite list_ascii_of_string_app.
  split; [split|].
  - intros Hnil. apply app_eq_nil in Hnil. destruct Hnil as [_ Hnil].
    pose proof (hex_upper_nonempty 7 v EmptyString) as Hne.
    destruct (hex_upper 8 v EmptyString); [congruence | discriminate].
  - apply Forall_app. split; [apply zeros_all_hex|].
    apply hex_upper_all_hex; [lia | constructor].
  - unfold hex_value. rewrite zeros_fold.
    rewrite hex_upper_fold by (change (16 ^ Z.of_nat 8) with (2 ^ 32); exact Hv).
    reflexivity.
Qed.

(** The hex number the display shows for an address or a command,
    with or without its [0x], is read back by the table parser as the
    same value, whatever the field width. *)
Theorem displayed_hex_parses_back w v :
  0 <= v < 2 ^ 32 ->
  column_value (list_ascii_of_string (fmt_0X w v)) = Some v
  /\ column_value (list_ascii_of_string ("0x" ++ fmt_0X w v)) = Some v.
Proof.
  intros Hv. destruct (fmt_0X_digits w v Hv) as (Hd & Hval).
  split.
  - rewrite (column_value_digits _ Hd), Hval. f_equal. apply Z.mod_small. exact Hv.
  - cbn [String.append list_ascii_of_string].
    rewrite (column_value_prefixed _ "x"%char Hd) by auto.
    rewrite Hval. f_equal. apply Z.mod_small. exact Hv.
Qed.

(** ** The row parser and the buffer it is given *)

Lemma split_loop_buf l :
  nul_free l ->
  forall fuel pre rest cs k,
  (length l < fuel)%nat -> (k <= 4)%nat ->
  sp_buf (split_loop fuel
            {| sp_buf := pre ++ l ++ NUL :: rest; sp_cols := cs;
               sp_col_index := k; sp_p := length pre |})
  = pre ++ cut_commas (4 - k) l ++ NUL :: rest.
Proof.
  induction 1 as [|c l2 Hc Hl2 IH]; intros fuel pre rest cs k Hfuel Hk.
  - destruct fuel as [|fuel]; [cbn [length] in Hfuel; lia|].
    rewrite split_loop_stop; [reflexivity|].
    unfold split_cond. cbn [sp_buf sp_p sp_col_index List.app].
    rewrite load_app_here, load_cons_0, Ascii.eqb_refl. reflexivity.
  - destruct fuel as [|fuel]; [cbn [length] in Hfuel; lia|].
    cbn [length] in Hfuel. rewrite <- app_comm_cons.
    apply Ascii.eqb_neq in Hc.
    assert (Hcond : split_cond {| sp_buf := pre ++ c :: l2 ++ NUL :: rest;
                                  sp_cols := cs; sp_col_index := k;
                                  sp_p := length pre |} = (k <? 4)%nat).
    { unfold split_cond. cbn [sp_buf sp_p sp_col_index].
      rewrite load_app_here, load_cons_0, Hc. reflexivity. }
    destruct (k <? 4)%nat eqn:Ek.
    2:{ apply Nat.ltb_ge in Ek. rewrite split_loop_stop by exact Hcond.
        replace (4 - k)%nat with 0%nat by lia. reflexivity. }
    apply Nat.ltb_lt in Ek.
    rewrite split_loop_step by exact Hcond.
    unfold split_step. cbn [sp_buf sp_p sp_col_index sp_cols].
    rewrite load_app_here, load_cons_0.
    replace (4 - k)%nat with (S (4 - S k)) by lia. cbn [cut_commas].
    unfold is_comma. destruct (Ascii.eqb c ",") eqn:Ecomma.
    + rewrite store_app_here.
      specialize (IH fuel (pre ++ [NUL]) rest
                     (if (S k <? MaxColumns)%nat
                      then <[S k := Some (S (length pre))]> cs else cs) (S k)).
      rewrite length_app in IH. cbn [length] in IH.
      replace (length pre + 1)%nat with (S (length pre)) in IH by lia.
      rewrite <- app_assoc in IH. cbn [List.app] in IH.
      rewrite IH by lia. rewrite <- app_assoc. reflexivity.
    + specialize (IH fuel (pre ++ [c]) rest cs k).
      rewrite length_app in IH. cbn [length] in IH.
      replace (length pre + 1)%nat with (S (length pre)) in IH by lia.
      rewrite <- app_assoc in IH. cbn [List.app] in IH.
      rewrite IH by lia. rewrite <- app_assoc.
      replace (S (4 - S k)) with (4 - k)%nat by lia. reflexivity.
Qed.

Lemma cut_commas_length n : forall l, length (cut_commas n l) = length l.
Proof.
  intros l. revert n. induction l as [|c l IH]; intros n; [reflexivity|].
  cbn [cut_commas]. destruct n as [|n]; [reflexivity|].
  destruct (is_comma c); cbn [length]; rewrite IH; reflexivity.
Qed.

Lemma split_on_app_sep sep x (a b : list ascii) :
  sep x = true ->
  split_on sep (a ++ x :: b) = split_on sep a ++ split_on sep b.
Proof.
  intros Hx. induction a as [|c a IH].
  - cbn [List.app]. rewrite (split_on_cons_sep _ _ _ Hx). reflexivity.
  - cbn [List.app]. destruct (sep c) eqn:Ec.
    + rewrite !(split_on_cons_sep _ _ _ Ec), IH. reflexivity.
    + rewrite !(split_on_cons_other _ _ _ Ec), IH.
      pose proof (split_on_length sep a) as Hl.
      destruct (split_on sep a); [cbn [length] in Hl; lia | reflexivity].
Qed.

Section RowBuffer.
Context `{Platform}.

(** [ir2hid_parse_lut_line] writes into its caller's buffer: the
    first four commas of the row become NUL, whether the row is
    accepted or not, and every other byte of the buffer, before the
    row, inside it and after it, stays as it was. *)
Theorem row_parser_cuts_commas pre l rest :
  nul_free l ->
  fst (ir2hid_parse_lut_line (pre ++ l ++ NUL :: rest) (length pre))
  = pre ++ cut_commas 4 l ++ NUL :: rest
  /\ length (fst (ir2hid_parse_lut_line (pre ++ l ++ NUL :: rest) (length pre)))
     = length (pre ++ l ++ NUL :: rest).
Proof.
  intros Hl. unfold ir2hid_parse_lut_line, split_init. cbn [fst].
  rewrite (split_loop_buf l Hl) by (rewrite ?length_app; cbn [length]; lia).
  split; [reflexivity|].
  rewrite !length_app, cut_commas_length. reflexivity.
Qed.

(** Columns after the fourth are comment: whatever is appended to a
    row that has its four columns, after one more comma, does not
    change what the row parses to. *)
Theorem comment_columns_ignored l comment :
  nul_free l -> nul_free comment ->
  (4 <= length (fields l))%nat ->
  parse_alone (l ++ ","%char :: comment) = parse_alone l.
Proof.
  intros Hl Hc Hn.
  assert (Hlc : nul_free (l ++ ","%char :: comment)).
  { apply Forall_app. split; [exact Hl|]. constructor; [discriminate | exact Hc]. }
  rewrite (parse_alone_row _ Hlc), (parse_alone_row _ Hl).
  assert (Hf : fields (l ++ ","%char :: comment) = fields l ++ fields comment).
  { apply split_on_app_sep. reflexivity. }
  rewrite (parse_row_fields l Hn).
  rewrite parse_row_fields by (rewrite Hf, length_app; lia).
  rewrite Hf. rewrite !app_nth1 by lia. reflexivity.
Qed.

End RowBuffer.

(** ** Files and the tables they load to *)

Lemma hex_u32_range l v : hex_u32 l = Some v -> 0 <= v < 2 ^ 32.
Proof.
  intros Hv. rewrite (hex_u32_value l v Hv). apply Z.mod_pos_bound. reflexivity.
Qed.

Lemma find_hid_none_iff t msg :
  find_hid t msg = None
  <-> Forall (fun e => same_signature (ir e) msg = false) t.
Proof.
  induction t as [|e t IH]; cbn [find_hid].
  - split; [constructor | reflexivity].
  - destruct (same_signature (ir e) msg) eqn:E.
    + split; [discriminate|]. intros Hall. inversion Hall; subst. congruence.
    + rewrite IH. split; [constructor; assumption|].
      intros Hall. inversion Hall; assumption.
Qed.

Lemma find_hid_some t msg h :
  find_hid t msg = Some h ->
  exists e, In e t /\ same_signature (ir e) msg = true /\ hid_code e = h.
Proof.
  induction t as [|e t IH]; cbn [find_hid]; [discriminate|].
  destruct (same_signature (ir e) msg) eqn:E.
  - intros [= <-]. exists e. cbn. auto.
  - intros Hf. destruct (IH Hf) as (e' & Hin & Hs & Hh).
    exists e'. cbn. auto.
Qed.

Lemma find_hid_signature t msg msg' :
  protocol msg' = protocol msg -> address msg' = address msg ->
  command msg' = command msg ->
  find_hid t msg' = find_hid t msg.
Proof.
  intros Hp Ha Hc. induction t as [|e t IH]; [reflexivity|].
  cbn [find_hid]. unfold same_signature. rewrite Hp, Ha, Hc, IH. reflexivity.
Qed.

Lemma same_signature_refl m : same_signature m m = true.
Proof. unfold same_signature. rewrite !Z.eqb_refl. reflexivity. Qed.

Lemma table_lines_nul_free data : Forall nul_free (table_lines data).
Proof.
  assert (Hall : Forall nul_free (split_on is_line_end data)).
  { eapply Forall_impl; [apply split_on_no_sep|].
    intros l. apply no_line_end_nul_free. }
  unfold table_lines. induction Hall as [|x ls Hx _ IH]; cbn [List.filter];
    [constructor|]. destruct (nonblank x); [constructor; assumption | assumption].
Qed.

Lemma filter_nonblank_app (a b : list (list ascii)) :
  List.filter nonblank (a ++ b) = List.filter nonblank a ++ List.filter nonblank b.
Proof.
  induction a as [|x a IH]; [reflexivity|].
  cbn [List.app List.filter]. destruct (nonblank x); [cbn [List.app]; f_equal|];
    exact IH.
Qed.

Lemma table_lines_app_line_end a x b :
  is_line_end x = true ->
  table_lines (a ++ x :: b) = table_lines a ++ table_lines b.
Proof.
  intros Hx. unfold table_lines.
  rewrite (split_on_app_sep is_line_end x a b Hx). apply filter_nonblank_app.
Qed.

Lemma table_lines_header h :
  no_line_end h -> h <> [] -> table_lines h = [h].
Proof.
  intros Hh Hne. unfold table_lines.
  assert (Hs : split_on is_line_end h = [h]).
  { clear Hne. induction Hh as [|c h Hc _ IH]; [reflexivity|].
    rewrite (split_on_cons_other _ _ _ Hc), IH. reflexivity. }
  rewrite Hs. cbn [List.filter]. destruct h; [congruence | reflexivity].
Qed.

Section Files.
Context `{Platform}.

Lemma parse_row_entry_ok l e : parse_row l = Some e -> entry_ok e.
Proof.
  intros He.
  destruct (le_lt_dec 4 (length (fields l))) as [Hn|Hn];
    [|rewrite (parse_row_short l Hn) in He; discriminate].
  rewrite (parse_row_fields l Hn) in He. unfold parse_fields in He.
  destruct (infrared_is_protocol_valid _) eqn:Ev; [|discriminate].
  cbn [negb] in He.
  destruct (hex_u32 (strip_hex_prefix (nth 1 (fields l) []))) as [a|] eqn:Ea;
    [|discriminate].
  destruct (hex_u32 (strip_hex_prefix (nth 2 (fields l) []))) as [c|] eqn:Ec;
    [|discriminate].
  destruct (hex_u32 (strip_hex_prefix (nth 3 (fields l) []))) as [h|] eqn:Eh;
    [|discriminate].
  destruct (255 <? h) eqn:E255; [discriminate|].
  apply Z.ltb_ge in E255. injection He as <-.
  pose proof (hex_u32_range _ _ Ea). pose proof (hex_u32_range _ _ Ec).
  pose proof (hex_u32_range _ _ Eh).
  unfold entry_ok. cbn [ir hid_code repeat address command protocol].
  rewrite Z.mod_small by lia. repeat split; try assumption; lia.
Qed.

Lemma omap_parse_row_ok rows : Forall entry_ok (omap parse_row rows).
Proof.
  induction rows as [|l rows IH]; [constructor|].
  cbn [omap list_omap]. fold (omap parse_row rows).
  destruct (parse_row l) as [e|] eqn:E; [|exact IH].
  constructor; [apply (parse_row_entry_ok l); exact E | exact IH].
Qed.

(** The table after a load, whatever the storage and the allocator
    answered: empty, or the parsed rows of the bytes read. *)
Lemma load_table_cases fs app :
  lut app = None ->
  table (fst (ir2hid_load_lut fs app)) = []
  \/ exists data, table (fst (ir2hid_load_lut fs app))
                  = omap parse_row (data_rows data).
Proof.
  intros Hnone.
  assert (Hempty : table app = []) by (unfold table; rewrite Hnone; reflexivity).
  unfold ir2hid_load_lut.
  destruct (storage_file_open fs) as [file|].
  2:{ left. cbn [perform fst].
      destruct (run_frame
        [MutexAcquire; StoreTextProto (strlcpy TEXT_SIZE "lut.csv not found");
         StoreTextAddr ""; StoreTextCmd ""; StoreHasSignal true; MutexRelease]
        app) as (Hl & Hc & _).
      destruct (table_frame _ _ Hl Hc) as (-> & _). exact Hempty. }
  destruct ((storage_file_size file =? 0) || (8192 <? storage_file_size file));
    [left; exact Hempty|].
  destruct (negb (malloc_buf fs)); [left; exact Hempty|].
  set (data := storage_file_read file (Z.to_nat (storage_file_size file))).
  destruct (load_passes data) as (Hd & Hi & Ht & Hl). cbv zeta in Hd, Hi, Ht, Hl.
  destruct (p1_data_lines (first_pass (data ++ [NUL]) (length data)) =? 0)%nat;
    [left; exact Hempty|].
  destruct (negb (malloc_lut fs)); [left; exact Hempty|].
  right. exists data. cbn [fst]. unfold table, set_lut. cbn [lut lut_count].
  rewrite Hi. exact Ht.
Qed.

(** A file served with its true size and with allocations that
    succeed loads to the rows of its content that parse, as long as it
    is not above the size bound. *)
Lemma load_storage_with content app :
  lut app = None -> Z.of_nat (length content) <= 8192 ->
  table (fst (ir2hid_load_lut (storage_with content) app))
  = omap parse_row (data_rows content)
  /\ wf_app (fst (ir2hid_load_lut (storage_with content) app)).
Proof.
  intros Hnone Hlen.
  destruct content as [|c content].
  - change (ir2hid_load_lut (storage_with []) app) with (app, @nil Action).
    cbn [fst]. unfold table, wf_app. rewrite Hnone. split; [reflexivity | exact I].
  - set (bytes := c :: content) in *.
    pose proof (ir2hid_load_lut_table (storage_with bytes)
      {| storage_file_size := Z.of_nat (length bytes); file_bytes := bytes |}
      app eq_refl) as Hload.
    cbn [storage_file_size malloc_buf malloc_lut storage_with] in Hload.
    specialize (Hload ltac:(unfold bytes in *; cbn [length] in *; lia)
                      eq_refl eq_refl Hnone).
    cbv zeta in Hload. unfold storage_file_read in Hload.
    cbn [file_bytes] in Hload. rewrite Nat2Z.id, take_ge in Hload by lia.
    exact Hload.
Qed.

Lemma loaded_table_ok fs app :
  lut app = None ->
  Forall entry_ok (table (fst (ir2hid_load_lut fs app))).
Proof.
  intros Hnone. destruct (load_table_cases fs app Hnone) as [->|(data & ->)].
  - constructor.
  - apply omap_parse_row_ok.
Qed.

(** Every entry of a loaded table, whatever the file held and
    whatever failed on the way: the repeat flag is off, the HID code
    fits a byte, address and command fit 32 bits and the protocol is
    one the registry takes as valid. *)
Theorem loaded_entries_are_well_formed fs app :
  lut app = None ->
  Forall entry_ok (table (fst (ir2hid_load_lut fs app))).
Proof. apply loaded_table_ok. Qed.

(** A load that gives up without a word: a file of size 0, a failed
    allocation of the file buffer, a file with no line after its
    header line, or a failed allocation of the table leave the record
    as it was, with no diagnostic stored and nothing done. *)
Theorem load_gives_up_silently fs file app :
  storage_file_open fs = Some file ->
  storage_file_size file = 0
  \/ malloc_buf fs = false
  \/ data_rows (storage_file_read file (Z.to_nat (storage_file_size file))) = []
  \/ malloc_lut fs = false ->
  ir2hid_load_lut fs app = (app, []).
Proof.
  intros Hopen Hwhy. unfold ir2hid_load_lut. rewrite Hopen.
  destruct (storage_file_size file =? 0) eqn:E0; [reflexivity|].
  destruct (8192 <? storage_file_size file); [reflexivity|]. cbn [orb].
  destruct (malloc_buf fs) eqn:Eb; [|reflexivity]. cbn [negb].
  set (data := storage_file_read file (Z.to_nat (storage_file_size file))) in *.
  destruct (load_passes data) as (Hd & _). cbv zeta in Hd.
  destruct (p1_data_lines (first_pass (data ++ [NUL]) (length data)) =? 0)%nat eqn:ED;
    [reflexivity|].
  destruct (malloc_lut fs) eqn:El; [|reflexivity].
  exfalso. apply Nat.eqb_neq in ED. apply Z.eqb_neq in E0.
  destruct Hwhy as [Hz|[Hb|[Hr|Hl]]]; try congruence.
  rewrite Hd, Hr in ED. cbn [length] in ED. lia.
Qed.

(** Two line terminators in a row (CR, LF or NUL, in any mix) load
    like a single terminator of any kind: a CR LF file, an LF file and
    a file with blank lines in between give the same table. *)
Theorem line_ends_collapse a x y z b app :
  lut app = None ->
  is_line_end x = true -> is_line_end y = true -> is_line_end z = true ->
  Z.of_nat (length (a ++ x :: y :: b)) <= 8192 ->
  table (fst (ir2hid_load_lut (storage_with (a ++ x :: y :: b)) app))
  = table (fst (ir2hid_load_lut (storage_with (a ++ z :: b)) app)).
Proof.
  intros Hnone Hx Hy Hz Hlen.
  destruct (load_storage_with (a ++ x :: y :: b) app Hnone Hlen) as (-> & _).
  destruct (load_storage_with (a ++ z :: b) app Hnone) as (-> & _).
  { rewrite length_app in *. cbn [length] in *. lia. }
  f_equal. unfold data_rows. f_equal.
  rewrite (table_lines_app_line_end a x (y :: b) Hx).
  change (y :: b) with ([] ++ y :: b).
  rewrite (table_lines_app_line_end [] y b Hy).
  rewrite (table_lines_app_line_end a z b Hz). reflexivity.
Qed.

(** The header line is never read: with any other non-blank line in
    its place, a row of the table included, the file loads the same
    table. *)
Theorem header_line_is_never_read h h' x rest app :
  lut app = None ->
  no_line_end h -> h <> [] -> no_line_end h' -> h' <> [] ->
  is_line_end x = true ->
  Z.of_nat (length (h ++ x :: rest)) <= 8192 ->
  Z.of_nat (length (h' ++ x :: rest)) <= 8192 ->
  table (fst (ir2hid_load_lut (storage_with (h ++ x :: rest)) app))
  = table (fst (ir2hid_load_lut (storage_with (h' ++ x :: rest)) app)).
Proof.
  intros Hnone Hh Hne Hh' Hne' Hx Hlen Hlen'.
  destruct (load_storage_with _ app Hnone Hlen) as (-> & _).
  destruct (load_storage_with _ app Hnone Hlen') as (-> & _).
  f_equal. unfold data_rows.
  rewrite !(table_lines_app_line_end _ x rest Hx).
  rewrite (table_lines_header h Hh Hne), (table_lines_header h' Hh' Hne').
  reflexivity.
Qed.

(** Every row of the file that parses can be looked up, unless a row
    above it parses to the same signature: the lookup of its signature
    then returns its HID code. *)
Theorem row_lookup_round_trip content app r1 l r2 e :
  lut app = None -> Z.of_nat (length content) <= 8192 ->
  data_rows content = r1 ++ l :: r2 ->
  parse_alone l = Some e ->
  (forall l' e', In l' r1 -> parse_alone l' = Some e' ->
                 same_signature (ir e') (ir e) = false) ->
  ir2hid_lookup_hid_code
    (fst (ir2hid_load_lut (storage_with content) app)) (ir e)
  = Some (hid_code e).
Proof.
  intros Hnone Hlen Hrows Hl Hfirst.
  destruct (load_storage_with content app Hnone Hlen) as (Ht & Hwf).
  rewrite (ir2hid_lookup_hid_code_table _ _ Hwf), Ht.
  pose proof (data_rows_nul_free content) as Hnf. rewrite Hrows in Hnf |- *.
  apply Forall_app in Hnf. destruct Hnf as (Hnf1 & Hnf2).
  inversion Hnf2 as [|? ? Hnfl _]; subst.
  rewrite omap_app. cbn [omap list_omap].
  rewrite <- (parse_alone_row l Hnfl), Hl.
  apply find_hid_first; [|apply same_signature_refl].
  clear Hrows Hnf2. induction Hnf1 as [|l' r1 Hl' _ IH]; [constructor|].
  cbn [omap list_omap]. fold (omap parse_row r1).
  assert (IH' : Forall (fun e' => same_signature (ir e') (ir e) = false)
                  (omap parse_row r1)).
  { apply IH. intros l'' e'' Hin. apply Hfirst. right. exact Hin. }
  destruct (parse_row l') as [e'|] eqn:E; [|exact IH'].
  constructor; [|exact IH'].
  apply (Hfirst l' e'); [left; reflexivity|].
  rewrite (parse_alone_row l' Hl'). exact E.
Qed.

End Files.

(** ** Lookup *)

(** The lookup finds nothing exactly when no reachable entry has the
    signature; what it finds is the HID code of a reachable entry with
    the signature; and it looks at the signature only, not at the
    repeat flag. *)
Theorem lookup_finds_matching_entries_only app msg :
  wf_app app ->
  (ir2hid_lookup_hid_code app msg = None
   <-> Forall (fun e => same_signature (ir e) msg = false) (table app))
  /\ (forall h, ir2hid_lookup_hid_code app msg = Some h ->
        exists e, In e (table app) /\ same_signature (ir e) msg = true
                  /\ hid_code e = h)
  /\ (forall msg', protocol msg' = protocol msg -> address msg' = address msg ->
        command msg' = command msg ->
        ir2hid_lookup_hid_code app msg' = ir2hid_lookup_hid_code app msg).
Proof.
  intros Hwf. split; [|split].
  - rewrite (ir2hid_lookup_hid_code_table app msg Hwf). apply find_hid_none_iff.
  - intros h. rewrite (ir2hid_lookup_hid_code_table app msg Hwf).
    apply find_hid_some.
  - intros msg' Hp Ha Hc.
    rewrite !ir2hid_lookup_hid_code_table by exact Hwf.
    apply find_hid_signature; assumption.
Qed.

(** ** The loop, event by event *)

Section LoopSteps.
Context `{Platform}.

Lemma main_loop_ir env msg rest app :
  main_loop ((env, EventTypeIRSignal msg) :: rest) app
  = (fst (main_loop rest (fst (on_ir_signal env msg app))),
     snd (on_ir_signal env msg app)
     ++ snd (main_loop rest (fst (on_ir_signal env msg app)))).
Proof.
  cbn [main_loop loop_body].
  destruct (on_ir_signal env msg app) as [app1 acts]. cbn [fst snd].
  destruct (main_loop rest app1); reflexivity.
Qed.

Lemma main_loop_idle env event rest app :
  is_idle event = true ->
  main_loop ((env, event) :: rest) app = main_loop rest app.
Proof.
  destruct event as [|input|msg]; cbn [is_idle main_loop loop_body];
    [| |discriminate].
  - intros _. destruct (main_loop rest app); reflexivity.
  - intros Hidle. apply negb_true_iff in Hidle. rewrite Hidle.
    destruct (main_loop rest app); reflexivity.
Qed.

Lemma main_loop_exit env event rest app :
  is_exit event = true ->
  main_loop ((env, event) :: rest) app = (app, []).
Proof.
  destruct event as [|input|msg]; cbn [is_exit main_loop loop_body];
    try discriminate.
  intros ->. reflexivity.
Qed.

Lemma event_kinds event :
  is_exit event = true \/ is_idle event = true
  \/ exists msg, event = EventTypeIRSignal msg.
Proof.
  destruct event as [|input|msg]; cbn [is_exit is_idle].
  - right. left. reflexivity.
  - destruct ((key input =? InputKeyBack) && (type input =? InputTypeShort));
      [left | right; left]; reflexivity.
  - right. right. exists msg. reflexivity.
Qed.

(** What holds of the record before the loop and is kept by the
    handling of a signal holds after the loop, and what holds of the
    actions of every handled signal holds of the whole trace. *)
Lemma main_loop_invariant (Inv : IR2HIDApp -> Prop) (P : Action -> Prop) :
  (forall env msg app, Inv app ->
     Inv (fst (on_ir_signal env msg app))
     /\ Forall P (snd (on_ir_signal env msg app))) ->
  forall events app, Inv app ->
    Inv (fst (main_loop events app)) /\ Forall P (snd (main_loop events app)).
Proof.
  intros Hstep. induction events as [|[env event] rest IH]; intros app Hinv.
  - cbn. split; [exact Hinv | constructor].
  - destruct (event_kinds event) as [He|[Hi|(msg & ->)]].
    + rewrite (main_loop_exit env event rest app He). cbn.
      split; [exact Hinv | constructor].
    + rewrite (main_loop_idle env event rest app Hi). apply IH. exact Hinv.
    + rewrite main_loop_ir. cbn [fst snd].
      destruct (Hstep env msg app Hinv) as (Hinv1 & HP1).
      destruct (IH _ Hinv1) as (Hinv2 & HP2).
      split; [exact Hinv2|]. apply Forall_app. split; assumption.
Qed.

(** The outcomes of one signal: dropped, or stored as the last one
    and shown, with a tap of the matched code when the transport is up
    and a host is there. *)
Lemma on_ir_signal_cases env msg app :
  on_ir_signal env msg app = (app, [])
  \/ (repeat msg = false
      /\ debounced app msg (furi_get_tick env) = false
      /\ exists hid tc,
           on_ir_signal env msg app
           = perform (hid ++ display_update (fmt_proto msg) (fmt_addr msg) tc)
               (set_last msg (furi_get_tick env) app)
           /\ (hid = []
               \/ exists c, hid = [HidKbPress c; HidKbRelease c]
                            /\ ir2hid_lookup_hid_code app msg = Some c
                            /\ usb_hid_active app = true
                            /\ furi_hal_hid_is_connected env = true)).
Proof.
  destruct (repeat msg) eqn:Hr.
  { left. unfold on_ir_signal. rewrite Hr. reflexivity. }
  destruct (debounced app msg (furi_get_tick env)) eqn:Hd.
  { left. unfold on_ir_signal. rewrite Hr, Hd. reflexivity. }
  right. split; [reflexivity|]. split; [reflexivity|].
  rewrite (on_ir_signal_accepted env msg app Hr Hd). cbv zeta.
  rewrite set_last_lookup.
  destruct (ir2hid_lookup_hid_code app msg) as [c|] eqn:El.
  - exists (hid_tap (set_last msg (furi_get_tick env) app) env c),
      (fmt_cmd_hid msg c).
    split; [reflexivity|]. unfold hid_tap. cbn [set_last usb_hid_active].
    destruct (usb_hid_active app) eqn:Eu; [|left; reflexivity].
    destruct (furi_hal_hid_is_connected env) eqn:Ec; [|left; reflexivity].
    right. exists c. auto.
  - exists [], (fmt_cmd_no_map msg). split; [reflexivity|]. left. reflexivity.
Qed.

(** The short press of the back key ends the loop: whatever is in
    the queue behind it is never handled. *)
Theorem events_after_exit_are_dropped before env event after app :
  is_exit event = true ->
  main_loop (before ++ (env, event) :: after) app = main_loop before app.
Proof.
  intros He. revert app. induction before as [|[env1 event1] before IH]; intros app.
  - cbn [List.app]. apply main_loop_exit. exact He.
  - cbn [List.app]. destruct (event_kinds event1) as [He1|[Hi1|(msg & ->)]].
    + rewrite !(main_loop_exit env1 event1 _ app He1). reflexivity.
    + rewrite !(main_loop_idle env1 event1 _ app Hi1). apply IH.
    + rewrite !main_loop_ir, IH. reflexivity.
Qed.

(** Ticks and keys other than the short press of the back key are
    taken from the queue and dropped: a run with them and the run
    without them end in the same record with the same trace. *)
Theorem idle_events_change_nothing events app :
  main_loop (List.filter (fun p => negb (is_idle (snd p))) events) app
  = main_loop events app.
Proof.
  revert app. induction events as [|[env event] rest IH]; intros app;
    [reflexivity|].
  cbn [List.filter snd].
  destruct (event_kinds event) as [He|[Hi|(msg & ->)]].
  - assert (Hni : is_idle event = false).
    { destruct event as [|input|m]; cbn [is_exit is_idle] in *;
        try discriminate. rewrite He. reflexivity. }
    rewrite Hni. cbn [negb]. rewrite !(main_loop_exit env event _ app He).
    reflexivity.
  - rewrite Hi. cbn [negb]. rewrite (main_loop_idle env event rest app Hi).
    apply IH.
  - cbn [is_idle negb]. rewrite !main_loop_ir, IH. reflexivity.
Qed.

(** A burst is swallowed whole: repeat frames and frames with the
    stored signature that all come within the cooldown of the stored
    tick leave the record as it was and cause no action at all. *)
Theorem burst_within_cooldown_is_dropped events app :
  Forall (bounce app) events -> main_loop events app = (app, []).
Proof.
  induction 1 as [|[env event] rest Hb _ IH]; [reflexivity|].
  unfold bounce in Hb. cbn [fst snd] in Hb.
  destruct event as [|input|msg]; try contradiction.
  assert (Hrej : on_ir_signal env msg app = (app, [])).
  { unfold on_ir_signal. destruct (repeat msg) eqn:Hr; [reflexivity|].
    destruct Hb as [Hb|((Hp & Ha & Hc) & Hlt)]; [discriminate|].
    unfold debounced. rewrite Hp, Ha, Hc, !Z.eqb_refl.
    apply Z.ltb_lt in Hlt. rewrite Hlt. reflexivity. }
  rewrite main_loop_ir, Hrej. cbn [fst snd]. rewrite IH. reflexivity.
Qed.

Lemma redraws_app a b : redraws (a ++ b) = (redraws a + redraws b)%nat.
Proof.
  unfold redraws. induction a as [|x a IH]; [reflexivity|].
  cbn [List.app List.filter]. destruct (is_redraw x); cbn [length]; rewrite IH;
    reflexivity.
Qed.

(** Another button is never held back: signals that are no repeat
    frames, each with another signature than the one before it, are
    all accepted, one redraw request each, however close in time they
    come. *)
Theorem alternating_buttons_are_all_accepted events : forall app,
  alternating (last_proto app, last_addr app, last_cmd app) events ->
  redraws (snd (main_loop events app)) = length events.
Proof.
  induction events as [|[env event] rest IH]; intros app Halt; [reflexivity|].
  cbn [alternating] in Halt.
  destruct event as [|input|msg]; try contradiction.
  destruct Halt as (Hr & Hne & Hrest).
  assert (Hd : debounced app msg (furi_get_tick env) = false).
  { unfold debounced.
    destruct (protocol msg =? last_proto app) eqn:Ep; [|reflexivity].
    destruct (address msg =? last_addr app) eqn:Ea; [|reflexivity].
    destruct (command msg =? last_cmd app) eqn:Ec; [|reflexivity].
    exfalso. apply Hne. apply Z.eqb_eq in Ep, Ea, Ec. congruence. }
  destruct (on_ir_signal_cases env msg app)
    as [Hrej|(_ & _ & hid & tc & Hacc & Hhid)].
  { exfalso. unfold on_ir_signal in Hrej. rewrite Hr, Hd in Hrej. cbv zeta in Hrej.
    destruct (ir2hid_lookup_hid_code _ msg); cbn [perform] in Hrej;
      injection Hrej as _ Hnil;
      [apply app_eq_nil in Hnil; destruct Hnil as [_ Hnil]|];
      discriminate Hnil. }
  rewrite main_loop_ir, Hacc. cbn [perform fst snd].
  rewrite !redraws_app.
  destruct (run_frame (hid ++ display_update (fmt_proto msg) (fmt_addr msg) tc)
              (set_last msg (furi_get_tick env) app))
    as (_ & _ & _ & Hlp & Hla & Hlc & _).
  cbn [set_last last_proto last_addr last_cmd] in Hlp, Hla, Hlc.
  rewrite IH by (rewrite Hlp, Hla, Hlc; exact Hrest).
  cbn [length].
  assert (Hh : redraws hid = 0%nat)
    by (destruct Hhid as [->|(c & -> & _)]; reflexivity).
  rewrite Hh. reflexivity.
Qed.

(** The table is fixed by the load: after any events a lookup reaches
    the entries it reached when the loop began, and the transport flag
    is the one set at start-up. *)
Theorem table_is_fixed_by_the_load raw usb_ok fs events :
  table (fst (ir2hid_app raw usb_ok fs events))
  = table (fst (ir2hid_load_lut fs (app_init raw usb_ok)))
  /\ (forall msg,
        ir2hid_lookup_hid_code (fst (ir2hid_app raw usb_ok fs events)) msg
        = ir2hid_lookup_hid_code (fst (ir2hid_load_lut fs (app_init raw usb_ok))) msg).
Proof.
  unfold ir2hid_app.
  destruct (ir2hid_load_lut fs (app_init raw usb_ok)) as [app acts]. cbn [fst].
  pose proof (main_loop_lut events app) as (Hl & Hc).
  destruct (main_loop events app) as [app' acts']. cbn [fst] in *.
  split.
  - apply table_frame; assumption.
  - intros msg. unfold ir2hid_lookup_hid_code. rewrite Hl, Hc. reflexivity.
Qed.

End LoopSteps.

(** ** Whole runs *)

Lemma trace_ok_app_bounded n : forall a h b,
  (length a <= n)%nat -> trace_ok h a = true ->
  trace_ok h (a ++ b) = trace_ok false b.
Proof.
  induction n as [|n IH]; intros a h b Hlen Hok.
  - destruct a; [|cbn [length] in Hlen; lia].
    cbn in Hok |- *. apply negb_true_iff in Hok. subst h. reflexivity.
  - destruct a as [|x a].
    { cbn in Hok |- *. apply negb_true_iff in Hok. subst h. reflexivity. }
    cbn [length] in Hlen.
    destruct x; cbn [trace_ok List.app] in Hok |- *.
    + apply andb_true_iff in Hok. destruct Hok as [Hh Hok]. rewrite Hh.
      apply IH; [lia | exact Hok].
    + apply andb_true_iff in Hok. destruct Hok as [Hh Hok]. subst h.
      apply IH; [lia | exact Hok].
    + apply andb_true_iff in Hok. destruct Hok as [Hh Hok]. subst h.
      apply IH; [lia | exact Hok].
    + apply andb_true_iff in Hok. destruct Hok as [Hh Hok]. subst h.
      apply IH; [lia | exact Hok].
    + apply andb_true_iff in Hok. destruct Hok as [Hh Hok]. subst h.
      apply IH; [lia | exact Hok].
    + apply andb_true_iff in Hok. destruct Hok as [Hh Hok]. subst h.
      apply IH; [lia | exact Hok].
    + destruct a as [|y a]; [discriminate Hok|].
      destruct y; try discriminate Hok. cbn [List.app].
      apply andb_true_iff in Hok. destruct Hok as [Hh Hok]. rewrite Hh.
      apply IH; [cbn [length] in Hlen; lia | exact Hok].
    + discriminate Hok.
    + apply andb_true_iff in Hok. destruct Hok as [Hh Hok]. rewrite Hh.
      apply IH; [lia | exact Hok].
Qed.

Lemma trace_ok_app a b :
  trace_ok false a = true -> trace_ok false b = true ->
  trace_ok false (a ++ b) = true.
Proof.
  intros Ha Hb. rewrite (trace_ok_app_bounded (length a) a false b); auto.
Qed.

Section Runs.
Context `{Platform}.

Lemma on_ir_signal_trace_ok env msg app :
  trace_ok false (snd (on_ir_signal env msg app)) = true.
Proof.
  destruct (on_ir_signal_cases env msg app)
    as [->|(_ & _ & hid & tc & -> & Hhid)]; [reflexivity|].
  cbn [perform snd]. apply trace_ok_app; [|reflexivity].
  destruct Hhid as [->|(c & -> & _)]; [reflexivity|].
  cbn [trace_ok]. rewrite Z.eqb_refl. reflexivity.
Qed.

Lemma main_loop_trace_ok events : forall app,
  trace_ok false (snd (main_loop events app)) = true.
Proof.
  induction events as [|[env event] rest IH]; intros app; [reflexivity|].
  destruct (event_kinds event) as [He|[Hi|(msg & ->)]].
  - rewrite (main_loop_exit env event rest app He). reflexivity.
  - rewrite (main_loop_idle env event rest app Hi). apply IH.
  - rewrite main_loop_ir. cbn [snd].
    apply trace_ok_app; [apply on_ir_signal_trace_ok | apply IH].
Qed.

(** The load, by what the storage and the allocator answer: the
    not-found line is stored, or nothing is done, or the table is set;
    only the first touches the display and only the last the table. *)
Lemma load_cases fs app :
  ir2hid_load_lut fs app
  = perform [MutexAcquire; StoreTextProto "lut.csv not found";
             StoreTextAddr ""; StoreTextCmd ""; StoreHasSignal true;
             MutexRelease] app
  \/ ir2hid_load_lut fs app = (app, [])
  \/ exists arr n, ir2hid_load_lut fs app = (set_lut arr n app, []).
Proof.
  unfold ir2hid_load_lut.
  destruct (storage_file_open fs) as [file|]; [|left; reflexivity].
  right.
  destruct ((storage_file_size file =? 0) || (8192 <? storage_file_size file));
    [left; reflexivity|].
  destruct (negb (malloc_buf fs)); [left; reflexivity|]. cbv zeta.
  destruct (p1_data_lines _ =? 0)%nat; [left; reflexivity|].
  destruct (negb (malloc_lut fs)); [left; reflexivity|].
  right. eexists _, _. reflexivity.
Qed.

Lemma ir2hid_app_unfold raw usb_ok fs events :
  ir2hid_app raw usb_ok fs events
  = (fst (main_loop events (fst (ir2hid_load_lut fs (app_init raw usb_ok)))),
     snd (ir2hid_load_lut fs (app_init raw usb_ok))
     ++ snd (main_loop events (fst (ir2hid_load_lut fs (app_init raw usb_ok))))).
Proof.
  unfold ir2hid_app.
  destruct (ir2hid_load_lut fs (app_init raw usb_ok)) as [app acts]. cbn [fst snd].
  destruct (main_loop events app); reflexivity.
Qed.

(** The fields of the record after an accepted signal. *)
Lemma on_ir_signal_accepted_fields env msg app :
  repeat msg = false ->
  debounced app msg (furi_get_tick env) = false ->
  let app' := fst (on_ir_signal env msg app) in
  lut app' = lut app /\ lut_count app' = lut_count app
  /\ usb_hid_active app' = usb_hid_active app
  /\ last_proto app' = protocol msg /\ last_addr app' = address msg
  /\ last_cmd app' = command msg /\ last_tick app' = furi_get_tick env
  /\ display app'
     = (strlcpy TEXT_SIZE (fmt_proto msg), strlcpy TEXT_SIZE (fmt_addr msg),
        strlcpy TEXT_SIZE
          match ir2hid_lookup_hid_code app msg with
          | Some hid_code => fmt_cmd_hid msg hid_code
          | None => fmt_cmd_no_map msg
          end,
        true).
Proof.
  intros Hr Hd. cbv zeta.
  pose proof (on_ir_signal_display env msg app Hr Hd) as Hdisp.
  rewrite (on_ir_signal_accepted env msg app Hr Hd) in Hdisp |- *. cbv zeta in *.
  match goal with
  | |- context [perform ?a ?b] =>
      destruct (perform_frame a b) as (-> & -> & -> & -> & -> & -> & ->)
  end.
  cbn [set_last lut lut_count usb_hid_active last_proto last_addr last_cmd last_tick].
  repeat (split; [reflexivity|]). exact Hdisp.
Qed.

(** In every run the calls come in order: the display fields are
    stored only with the mutex held, the mutex is free whenever a HID
    call or a redraw request is made and when the run ends, and every
    press is followed at once by the release of the same code. *)
Theorem run_keeps_the_call_order raw usb_ok fs events :
  trace_ok false (snd (ir2hid_app raw usb_ok fs events)) = true.
Proof.
  rewrite ir2hid_app_unfold. cbn [snd].
  apply trace_ok_app; [|apply main_loop_trace_ok].
  destruct (load_cases fs (app_init raw usb_ok)) as [->|[->|(arr & n & ->)]];
    reflexivity.
Qed.

(** No HID call is made in a run in which, at every event, the
    transport was not set up at start-up or no host is connected. *)
Theorem no_hid_call_without_host raw usb_ok fs events :
  Forall (fun p => usb_ok && furi_hal_hid_is_connected (fst p) = false) events ->
  Forall (fun a => ~ is_hid_action a) (snd (ir2hid_app raw usb_ok fs events)).
Proof.
  intros Hev. rewrite ir2hid_app_unfold. cbn [snd]. apply Forall_app. split.
  { destruct (load_cases fs (app_init raw usb_ok)) as [->|[->|(arr & n & ->)]];
      cbn [perform snd]; repeat constructor; auto. }
  assert (Husb : usb_hid_active (fst (ir2hid_load_lut fs (app_init raw usb_ok)))
                 = usb_ok).
  { destruct (load_cases fs (app_init raw usb_ok)) as [->|[->|(arr & n & ->)]];
      reflexivity. }
  revert Husb. generalize (fst (ir2hid_load_lut fs (app_init raw usb_ok))).
  induction Hev as [|[env event] rest Hhost _ IH]; intros app Husb;
    [constructor|].
  cbn [fst] in Hhost.
  destruct (event_kinds event) as [He|[Hi|(msg & ->)]].
  - rewrite (main_loop_exit env event rest app He). constructor.
  - rewrite (main_loop_idle env event rest app Hi). apply IH. exact Husb.
  - rewrite main_loop_ir. cbn [snd].
    destruct (on_ir_signal_cases env msg app)
      as [Hrej|(Hr & Hd & hid & tc & Hacc & Hhid)].
    + rewrite Hrej. cbn [fst snd List.app]. apply IH. exact Husb.
    + apply Forall_app. split.
      * rewrite Hacc. cbn [perform snd].
        destruct Hhid as [->|(c & _ & _ & Hu & Hc)].
        -- cbn [List.app]. unfold display_update. repeat constructor; auto.
        -- exfalso. rewrite Husb in Hu. rewrite Hu, Hc in Hhost. discriminate.
      * apply IH.
        destruct (on_ir_signal_accepted_fields env msg app Hr Hd)
          as (_ & _ & -> & _). exact Husb.
Qed.

(** Every code a run sends is the HID code of an entry of the loaded
    table, and so fits a byte. *)
Theorem sent_codes_come_from_the_table raw usb_ok fs events c :
  sends c (snd (ir2hid_app raw usb_ok fs events)) ->
  exists e, In e (table (fst (ir2hid_load_lut fs (app_init raw usb_ok))))
            /\ hid_code e = c /\ 0 <= c <= 255.
Proof.
  set (T := table (fst (ir2hid_load_lut fs (app_init raw usb_ok)))).
  set (P := fun a => match a with
                     | HidKbPress c' | HidKbRelease c' =>
                         exists e, In e T /\ hid_code e = c'
                     | _ => True
                     end).
  assert (Hall : Forall P (snd (ir2hid_app raw usb_ok fs events))).
  { rewrite ir2hid_app_unfold. cbn [snd]. apply Forall_app. split.
    { destruct (load_cases fs (app_init raw usb_ok)) as [->|[->|(arr & n & ->)]];
        cbn [perform snd]; repeat constructor. }
    apply (main_loop_invariant (fun app => wf_app app /\ table app = T) P).
    - intros env msg app (Hwf & Ht).
      destruct (on_ir_signal_lut env msg app) as (Hl & Hc).
      destruct (table_frame _ _ Hl Hc) as (Ht' & Hwf').
      split; [split; [apply Hwf'; exact Hwf | rewrite Ht'; exact Ht]|].
      destruct (on_ir_signal_cases env msg app)
        as [->|(_ & _ & hid & tc & -> & Hhid)]; [constructor|].
      cbn [perform snd]. apply Forall_app. split;
        [|unfold display_update; repeat constructor].
      destruct Hhid as [->|(c' & -> & Hlook & _)]; [constructor|].
      rewrite (ir2hid_lookup_hid_code_table app msg Hwf), Ht in Hlook.
      destruct (find_hid_some _ _ _ Hlook) as (e & Hin & _ & Hh).
      repeat constructor; exists e; auto.
    - split; [|reflexivity]. apply ir2hid_load_lut_wf.
      apply (app_init_table raw usb_ok). }
  intros Hsend. rewrite Forall_forall in Hall.
  assert (Hex : exists e, In e T /\ hid_code e = c).
  { destruct Hsend as [Hin|Hin]; apply list_elem_of_In in Hin;
      exact (Hall _ Hin). }
  destruct Hex as (e & Hin & Hh). exists e. split; [exact Hin|].
  split; [exact Hh|].
  pose proof (loaded_table_ok fs (app_init raw usb_ok) eq_refl) as Hok.
  rewrite Forall_forall in Hok. apply list_elem_of_In in Hin.
  destruct (Hok e Hin) as (_ & Hb & _). rewrite <- Hh. exact Hb.
Qed.

(** No text is ever stored that does not fit its field: every store
    of a run carries at most 31 characters, and once the flag is set
    the three text fields of the record hold at most 31 characters
    each. *)
Theorem display_text_fits_its_field raw usb_ok fs events :
  Forall store_fits (snd (ir2hid_app raw usb_ok fs events))
  /\ (has_signal (fst (ir2hid_app raw usb_ok fs events)) = true ->
      (String.length (text_proto (fst (ir2hid_app raw usb_ok fs events))) <= 31)%nat
      /\ (String.length (text_addr (fst (ir2hid_app raw usb_ok fs events))) <= 31)%nat
      /\ (String.length (text_cmd (fst (ir2hid_app raw usb_ok fs events))) <= 31)%nat).
Proof.
  set (Inv := fun app => has_signal app = true ->
                (String.length (text_proto app) <= 31)%nat
                /\ (String.length (text_addr app) <= 31)%nat
                /\ (String.length (text_cmd app) <= 31)%nat).
  assert (Hfit : forall s, (String.length (strlcpy TEXT_SIZE s) <= 31)%nat).
  { intros s. apply (strlcpy_length TEXT_SIZE s). }
  rewrite ir2hid_app_unfold. cbn [fst snd].
  assert (Hload : Inv (fst (ir2hid_load_lut fs (app_init raw usb_ok)))
                  /\ Forall store_fits
                       (snd (ir2hid_load_lut fs (app_init raw usb_ok)))).
  { destruct (load_cases fs (app_init raw usb_ok)) as [->|[->|(arr & n & ->)]].
    - split; [intros _; cbn; lia|]. cbn [perform snd].
      repeat (constructor; [first [exact I | cbn; lia]|]). constructor.
    - split; [intros Hs; discriminate Hs | constructor].
    - split; [intros Hs; discriminate Hs | constructor]. }
  destruct Hload as (Hinv0 & Hst0).
  destruct (main_loop_invariant Inv store_fits) with
    (events := events) (app := fst (ir2hid_load_lut fs (app_init raw usb_ok)))
    as (Hinv & Hst); [|exact Hinv0|].
  - intros env msg app Happ.
    destruct (on_ir_signal_cases env msg app)
      as [->|(Hr & Hd & hid & tc & Hacc & Hhid)]; [split; [exact Happ | constructor]|].
    split.
    + destruct (on_ir_signal_accepted_fields env msg app Hr Hd)
        as (_ & _ & _ & _ & _ & _ & _ & Hdisp).
      unfold display in Hdisp. injection Hdisp as Hp Ha Hc _.
      intros _. rewrite Hp, Ha, Hc. auto.
    + rewrite Hacc. cbn [perform snd]. apply Forall_app. split.
      * destruct Hhid as [->|(c & -> & _)];
          repeat (constructor; [exact I|]); constructor.
      * unfold display_update.
        repeat (constructor; [first [exact I | apply Hfit]|]). constructor.
  - split; [apply Forall_app; split; assumption | exact Hinv].
Qed.

End Runs.

(** ** The renderer and the memory the record starts with *)

Section Render.
Context `{Platform}.

Lemma hidden_text_debounced a b msg now :
  same_but_hidden_text a b -> debounced a msg now = debounced b msg now.
Proof.
  intros (_ & _ & _ & _ & Hp & Ha & Hc & Ht & _). unfold debounced.
  rewrite Hp, Ha, Hc, Ht. reflexivity.
Qed.

Lemma hidden_text_lookup a b msg :
  same_but_hidden_text a b ->
  ir2hid_lookup_hid_code a msg = ir2hid_lookup_hid_code b msg.
Proof.
  intros (_ & Hl & Hc & _). unfold ir2hid_lookup_hid_code. rewrite Hl, Hc.
  reflexivity.
Qed.

Lemma on_ir_signal_hidden_text env msg a b :
  same_but_hidden_text a b ->
  same_but_hidden_text (fst (on_ir_signal env msg a)) (fst (on_ir_signal env msg b)).
Proof.
  intros Hab.
  pose proof (hidden_text_debounced a b msg (furi_get_tick env) Hab) as Hdeb.
  pose proof (hidden_text_lookup a b msg Hab) as Hlook.
  destruct (repeat msg) eqn:Hr.
  { unfold on_ir_signal. rewrite Hr. exact Hab. }
  destruct (debounced a msg (furi_get_tick env)) eqn:Hd.
  { unfold on_ir_signal. rewrite Hr, <- Hdeb, Hd. exact Hab. }
  assert (Hd' : debounced b msg (furi_get_tick env) = false) by congruence.
  destruct (on_ir_signal_accepted_fields env msg a Hr Hd)
    as (Hl1 & Hc1 & Hu1 & Hp1 & Ha1 & Hm1 & Ht1 & Hdisp1).
  destruct (on_ir_signal_accepted_fields env msg b Hr Hd')
    as (Hl2 & Hc2 & Hu2 & Hp2 & Ha2 & Hm2 & Ht2 & Hdisp2).
  rewrite <- Hlook in Hdisp2. rewrite <- Hdisp1 in Hdisp2.
  unfold display in Hdisp2. injection Hdisp2 as Htp Hta Htc Hhs.
  destruct Hab as (_ & Hl & Hc & Hu & _).
  unfold same_but_hidden_text.
  rewrite Hl1, Hl2, Hc1, Hc2, Hu1, Hu2, Hp1, Hp2, Ha1, Ha2, Hm1, Hm2, Ht1, Ht2.
  do 8 (split; [congruence|]). intros _. auto.
Qed.

Lemma main_loop_hidden_text events : forall a b,
  same_but_hidden_text a b ->
  same_but_hidden_text (fst (main_loop events a)) (fst (main_loop events b)).
Proof.
  induction events as [|[env event] rest IH]; intros a b Hab; [exact Hab|].
  destruct (event_kinds event) as [He|[Hi|(msg & ->)]].
  - rewrite !(main_loop_exit env event rest _ He). exact Hab.
  - rewrite !(main_loop_idle env event rest _ Hi). apply IH. exact Hab.
  - rewrite !main_loop_ir. cbn [fst]. apply IH.
    apply on_ir_signal_hidden_text. exact Hab.
Qed.

Lemma load_hidden_text fs raw raw' usb_ok :
  same_but_hidden_text (fst (ir2hid_load_lut fs (app_init raw usb_ok)))
                       (fst (ir2hid_load_lut fs (app_init raw' usb_ok))).
Proof.
  unfold ir2hid_load_lut.
  destruct (storage_file_open fs) as [file|].
  2:{ unfold same_but_hidden_text. cbn. do 8 (split; [reflexivity|]). auto. }
  assert (Hinit : same_but_hidden_text (app_init raw usb_ok) (app_init raw' usb_ok)).
  { unfold same_but_hidden_text. cbn. do 8 (split; [reflexivity|]).
    intros Hs. discriminate Hs. }
  destruct ((storage_file_size file =? 0) || (8192 <? storage_file_size file));
    [exact Hinit|].
  destruct (negb (malloc_buf fs)); [exact Hinit|]. cbv zeta.
  destruct (p1_data_lines _ =? 0)%nat; [exact Hinit|].
  destruct (negb (malloc_lut fs)); [exact Hinit|].
  unfold same_but_hidden_text. cbn. do 8 (split; [reflexivity|]).
  intros Hs. discriminate Hs.
Qed.

Lemma load_trace_any fs a b :
  snd (ir2hid_load_lut fs a) = snd (ir2hid_load_lut fs b).
Proof.
  unfold ir2hid_load_lut.
  destruct (storage_file_open fs) as [file|]; [|reflexivity].
  destruct ((storage_file_size file =? 0) || (8192 <? storage_file_size file));
    [reflexivity|].
  destruct (negb (malloc_buf fs)); [reflexivity|]. cbv zeta.
  destruct (p1_data_lines _ =? 0)%nat; [reflexivity|].
  destruct (negb (malloc_lut fs)); reflexivity.
Qed.

Lemma render_hidden_text env a b :
  same_but_hidden_text a b -> render_callback env a = render_callback env b.
Proof.
  intros (Hs & _ & _ & Hu & _ & _ & _ & _ & Htext). unfold render_callback.
  rewrite Hu, <- Hs. destruct (has_signal a) eqn:Ea; [|reflexivity].
  destruct (Htext eq_refl) as (-> & -> & ->). reflexivity.
Qed.

(** The record comes from [malloc] and its text fields are not set at
    start-up, yet what the renderer draws never depends on what they
    held: after any load and any events, two runs that differ only in
    that memory are drawn alike. *)
Theorem render_never_shows_unset_text raw raw' usb_ok fs events env :
  render_callback env (fst (ir2hid_app raw usb_ok fs events))
  = render_callback env (fst (ir2hid_app raw' usb_ok fs events)).
Proof.
  apply render_hidden_text. rewrite !ir2hid_app_unfold. cbn [fst].
  apply main_loop_hidden_text. apply load_hidden_text.
Qed.

(** The same holds of everything the program does: the trace of a
    run does not depend on what the text fields held at start-up. *)
Theorem run_ignores_unset_text raw raw' usb_ok fs events :
  snd (ir2hid_app raw usb_ok fs events) = snd (ir2hid_app raw' usb_ok fs events).
Proof.
  rewrite !ir2hid_app_unfold. cbn [snd].
  rewrite (load_trace_any fs (app_init raw usb_ok) (app_init raw' usb_ok)).
  f_equal.
  pose proof (load_hidden_text fs raw raw' usb_ok) as Hab. revert Hab.
  generalize (fst (ir2hid_load_lut fs (app_init raw usb_ok)))
             (fst (ir2hid_load_lut fs (app_init raw' usb_ok))).
  induction events as [|[env event] rest IH]; intros a b Hab; [reflexivity|].
  destruct (event_kinds event) as [He|[Hi|(msg & ->)]].
  - rewrite !(main_loop_exit env event rest _ He). reflexivity.
  - rewrite !(main_loop_idle env event rest _ Hi). apply IH. exact Hab.
  - rewrite !main_loop_ir. cbn [snd].
    rewrite (IH _ _ (on_ir_signal_hidden_text env msg a b Hab)). f_equal.
    pose proof (hidden_text_debounced a b msg (furi_get_tick env) Hab) as Hdeb.
    pose proof (hidden_text_lookup a b msg Hab) as Hlook.
    destruct Hab as (_ & _ & _ & Hu & _).
    unfold on_ir_signal. rewrite <- Hdeb.
    destruct (repeat msg); [reflexivity|].
    destruct (debounced a msg (furi_get_tick env)); [reflexivity|]. cbv zeta.
    rewrite !set_last_lookup, <- Hlook.
    destruct (ir2hid_lookup_hid_code a msg); cbn [perform snd]; [|reflexivity].
    unfold hid_tap. cbn [set_last usb_hid_active]. rewrite Hu. reflexivity.
Qed.

(** The debounce check is right across a wrap of the 32-bit tick
    counter: for a signal with the stored signature that comes
    [elapsed] ticks after the stored tick, whether the counter has
    wrapped in between or not, the check drops it exactly when
    [elapsed] is below the cooldown. *)
Theorem debounce_survives_tick_wrap env msg app elapsed :
  0 <= last_tick app < 2 ^ 32 -> 0 <= elapsed < 2 ^ 32 ->
  furi_get_tick env = (last_tick app + elapsed) mod 2 ^ 32 ->
  same_as_last app msg ->
  debounced app msg (furi_get_tick env) = (elapsed <? furi_ms_to_ticks 5).
Proof.
  intros Hl He Hnow (Hp & Ha & Hc). unfold debounced.
  rewrite Hp, Ha, Hc, !Z.eqb_refl, Hnow. cbn [andb].
  pose proof (ticks_since_elapsed (last_tick app) elapsed Hl He) as Ht.
  unfold UINT32_MOD in Ht. rewrite Ht. reflexivity.
Qed.

End Render.

(** ** The further properties on concrete inputs *)

Ltac chars_nul_free :=
  vm_compute; repeat (constructor; [discriminate|]); constructor.

Ltac chars_hex_digits :=
  split; [vm_compute; discriminate
         | vm_compute; repeat (constructor; [discriminate|]); constructor].

Section FurtherExamples.
#[local] Existing Instance example_platform.

Lemma column_refused_iff_bad_witness :
  column_value (text "0x") = None <-> bad_hex_column (text "0x").
Proof. apply (column_refused_iff_bad (text "0x")). chars_nul_free. Defined.

Lemma hex_prefix_is_optional_witness :
  column_value (text "1f") = Some (hex_value (text "1f") mod 2 ^ 32)
  /\ column_value ("0"%char :: "x"%char :: text "1f") = column_value (text "1f")
  /\ column_value ("0"%char :: "X"%char :: text "1f") = column_value (text "1f").
Proof. apply (hex_prefix_is_optional (text "1f")). chars_hex_digits. Defined.

Lemma hex_value_exact_up_to_eight_digits_witness :
  column_value (text "DEADBEEF") = Some (hex_value (text "DEADBEEF"))
  /\ 0 <= hex_value (text "DEADBEEF") < 2 ^ 32.
Proof.
  apply (hex_value_exact_up_to_eight_digits (text "DEADBEEF")).
  - chars_hex_digits.
  - vm_compute. lia.
Defined.

Lemma hex_keeps_last_eight_digits_witness :
  column_value (text "1" ++ text "23456789") = column_value (text "23456789")
  /\ column_value (text "1" ++ text "23456789")
     = Some (hex_value (text "23456789")).
Proof.
  apply (hex_keeps_last_eight_digits (text "1") (text "23456789")).
  - chars_hex_digits.
  - chars_hex_digits.
  - reflexivity.
Defined.

Lemma displayed_hex_parses_back_witness :
  column_value (list_ascii_of_string (fmt_0X 4 10)) = Some 10
  /\ column_value (list_ascii_of_string ("0x" ++ fmt_0X 4 10)) = Some 10.
Proof. apply (displayed_hex_parses_back 4 10). lia. Defined.

Lemma row_parser_cuts_commas_witness :
  fst (ir2hid_parse_lut_line
         ((text "hdr" ++ [NUL]) ++ text "NEC,4,A,1,vol+,up" ++ NUL :: text "RC5,5,C,2")
         (length (text "hdr" ++ [NUL])))
  = (text "hdr" ++ [NUL]) ++ cut_commas 4 (text "NEC,4,A,1,vol+,up")
    ++ NUL :: text "RC5,5,C,2"
  /\ length (fst (ir2hid_parse_lut_line
                    ((text "hdr" ++ [NUL]) ++ text "NEC,4,A,1,vol+,up"
                     ++ NUL :: text "RC5,5,C,2")
                    (length (text "hdr" ++ [NUL]))))
     = length ((text "hdr" ++ [NUL]) ++ text "NEC,4,A,1,vol+,up"
               ++ NUL :: text "RC5,5,C,2").
Proof.
  apply (row_parser_cuts_commas (text "hdr" ++ [NUL]) (text "NEC,4,A,1,vol+,up")
           (text "RC5,5,C,2")).
  chars_nul_free.
Defined.

(** The buffer after the call: four commas gone, the fifth left. *)
Example cut_row :
  string_of_list_ascii (cut_commas 4 (text "NEC,4,A,1,vol+,up"))
  = String.append "NEC" (String NUL (String.append "4" (String NUL
      (String.append "A" (String NUL (String.append "1" (String NUL "vol+,up"))))))).
Proof. vm_compute. reflexivity. Qed.

Lemma comment_columns_ignored_witness :
  parse_alone (text "NEC,4,A,1" ++ ","%char :: text "vol+,volume up")
  = parse_alone (text "NEC,4,A,1").
Proof.
  apply (comment_columns_ignored (text "NEC,4,A,1") (text "vol+,volume up")).
  - chars_nul_free.
  - chars_nul_free.
  - vm_compute. lia.
Defined.

Lemma loaded_entries_are_well_formed_witness :
  Forall entry_ok
    (table (fst (ir2hid_load_lut (storage_with file_with_bad_rows)
                                 (app_init raw_app true)))).
Proof.
  apply (loaded_entries_are_well_formed (storage_with file_with_bad_rows)
           (app_init raw_app true)).
  reflexivity.
Defined.

Lemma load_gives_up_silently_witness :
  ir2hid_load_lut (storage_with (header_line ++ [LF; LF])) (app_init raw_app true)
  = (app_init raw_app true, []).
Proof.
  apply (load_gives_up_silently (storage_with (header_line ++ [LF; LF]))
           {| storage_file_size := Z.of_nat (length (header_line ++ [LF; LF]));
              file_bytes := header_line ++ [LF; LF] |}
           (app_init raw_app true)).
  - reflexivity.
  - right. right. left. vm_compute. reflexivity.
Defined.

Lemma line_ends_collapse_witness :
  table (fst (ir2hid_load_lut
                (storage_with (header_line ++ CR :: LF :: row_NEC_04_0A_01))
                (app_init raw_app true)))
  = table (fst (ir2hid_load_lut
                  (storage_with (header_line ++ LF :: row_NEC_04_0A_01))
                  (app_init raw_app true))).
Proof.
  apply (line_ends_collapse header_line CR LF LF row_NEC_04_0A_01
           (app_init raw_app true)); try reflexivity.
  vm_compute. discriminate.
Defined.

Lemma header_line_is_never_read_witness :
  table (fst (ir2hid_load_lut
                (storage_with (header_line ++ LF :: row_NEC_04_0A_01))
                (app_init raw_app true)))
  = table (fst (ir2hid_load_lut
                  (storage_with (text "RC5,5,C,1F" ++ LF :: row_NEC_04_0A_01))
                  (app_init raw_app true))).
Proof.
  apply (header_line_is_never_read header_line (text "RC5,5,C,1F") LF
           row_NEC_04_0A_01 (app_init raw_app true)); try reflexivity.
  - vm_compute. repeat (constructor; [reflexivity|]). constructor.
  - vm_compute. discriminate.
  - vm_compute. repeat (constructor; [reflexivity|]). constructor.
  - vm_compute. discriminate.
  - vm_compute. discriminate.
  - vm_compute. discriminate.
Defined.

Lemma row_lookup_round_trip_witness :
  ir2hid_lookup_hid_code
    (fst (ir2hid_load_lut (storage_with file_duplicates) (app_init raw_app true)))
    (ir (entry_NEC 4 10 1))
  = Some (hid_code (entry_NEC 4 10 1)).
Proof.
  apply (row_lookup_round_trip file_duplicates (app_init raw_app true)
           [] (text "NEC,0x04,0x0A,0x01") [text "NEC,4,A,2"] (entry_NEC 4 10 1)).
  - reflexivity.
  - vm_compute. discriminate.
  - vm_compute. reflexivity.
  - vm_compute. reflexivity.
  - intros l' e' Hin. destruct Hin.
Defined.

Lemma lookup_finds_matching_entries_only_witness :
  (ir2hid_lookup_hid_code app_after_press (msg_NEC 4 11 false) = None
   <-> Forall (fun e => same_signature (ir e) (msg_NEC 4 11 false) = false)
         (table app_after_press))
  /\ (forall h,
        ir2hid_lookup_hid_code app_after_press (msg_NEC 4 11 false) = Some h ->
        exists e, In e (table app_after_press)
                  /\ same_signature (ir e) (msg_NEC 4 11 false) = true
                  /\ hid_code e = h)
  /\ (forall msg',
        protocol msg' = protocol (msg_NEC 4 11 false) ->
        address msg' = address (msg_NEC 4 11 false) ->
        command msg' = command (msg_NEC 4 11 false) ->
        ir2hid_lookup_hid_code app_after_press msg'
        = ir2hid_lookup_hid_code app_after_press (msg_NEC 4 11 false)).
Proof.
  apply (lookup_finds_matching_entries_only app_after_press (msg_NEC 4 11 false)).
  vm_compute. lia.
Defined.

Lemma events_after_exit_are_dropped_witness :
  main_loop ([(env_at 200 true, EventTypeIRSignal (msg_NEC 4 11 false))]
             ++ (env_at 201 true, back_short)
             :: [(env_at 300 true, EventTypeIRSignal (msg_NEC 4 10 false))])
    app_after_press
  = main_loop [(env_at 200 true, EventTypeIRSignal (msg_NEC 4 11 false))]
      app_after_press.
Proof.
  apply (events_after_exit_are_dropped
           [(env_at 200 true, EventTypeIRSignal (msg_NEC 4 11 false))]
           (env_at 201 true) back_short
           [(env_at 300 true, EventTypeIRSignal (msg_NEC 4 10 false))]
           app_after_press).
  reflexivity.
Defined.

Lemma burst_within_cooldown_is_dropped_witness :
  main_loop [(env_at 101 true, EventTypeIRSignal (msg_NEC 4 10 false));
             (env_at 103 true, EventTypeIRSignal (msg_NEC 4 10 true));
             (env_at 104 true, EventTypeIRSignal (msg_NEC 4 10 false))]
    app_after_press
  = (app_after_press, []).
Proof.
  apply (burst_within_cooldown_is_dropped
           [(env_at 101 true, EventTypeIRSignal (msg_NEC 4 10 false));
            (env_at 103 true, EventTypeIRSignal (msg_NEC 4 10 true));
            (env_at 104 true, EventTypeIRSignal (msg_NEC 4 10 false))]
           app_after_press).
  constructor; [right; vm_compute; auto|].
  constructor; [left; reflexivity|].
  constructor; [right; vm_compute; auto|].
  constructor.
Defined.

Lemma alternating_buttons_are_all_accepted_witness :
  redraws (snd (main_loop
                  [(env_at 100 true, EventTypeIRSignal (msg_NEC 4 11 false));
                   (env_at 100 true, EventTypeIRSignal (msg_NEC 4 10 false));
                   (env_at 101 true, EventTypeIRSignal (msg_NEC 4 11 false))]
                  app_after_press))
  = length [(env_at 100 true, EventTypeIRSignal (msg_NEC 4 11 false));
            (env_at 100 true, EventTypeIRSignal (msg_NEC 4 10 false));
            (env_at 101 true, EventTypeIRSignal (msg_NEC 4 11 false))].
Proof.
  apply (alternating_buttons_are_all_accepted
           [(env_at 100 true, EventTypeIRSignal (msg_NEC 4 11 false));
            (env_at 100 true, EventTypeIRSignal (msg_NEC 4 10 false));
            (env_at 101 true, EventTypeIRSignal (msg_NEC 4 11 false))]
           app_after_press).
  vm_compute. repeat split; discriminate.
Defined.

Lemma no_hid_call_without_host_witness :
  Forall (fun a => ~ is_hid_action a)
    (snd (ir2hid_app raw_app true (storage_with file_header_and_row)
            [(env_at 100 false, EventTypeIRSignal (msg_NEC 4 10 false));
             (env_at 200 false, EventTypeIRSignal (msg_NEC 4 10 false))])).
Proof.
  apply (no_hid_call_without_host raw_app true (storage_with file_header_and_row)
           [(env_at 100 false, EventTypeIRSignal (msg_NEC 4 10 false));
            (env_at 200 false, EventTypeIRSignal (msg_NEC 4 10 false))]).
  repeat (constructor; [reflexivity|]). constructor.
Defined.

Lemma sent_codes_come_from_the_table_witness :
  exists e,
    In e (table (fst (ir2hid_load_lut (storage_with file_header_and_row)
                                      (app_init raw_app true))))
    /\ hid_code e = 1 /\ 0 <= 1 <= 255.
Proof.
  apply (sent_codes_come_from_the_table raw_app true
           (storage_with file_header_and_row)
           [(env_at 100 true, EventTypeIRSignal (msg_NEC 4 10 false))] 1).
  left. vm_compute. left. reflexivity.
Defined.

Lemma debounce_survives_tick_wrap_witness :
  debounced app_before_wrap (msg_NEC 4 10 false) (furi_get_tick (env_at 1 true))
  = (3 <? furi_ms_to_ticks 5).
Proof.
  apply (debounce_survives_tick_wrap (env_at 1 true) (msg_NEC 4 10 false)
           app_before_wrap 3).
  - vm_compute. split; [discriminate | reflexivity].
  - lia.
  - reflexivity.
  - vm_compute. auto.
Defined.

End FurtherExamples.
